(** * Letta Chrome extension: marker protocol, surface locator, overlay
    mounting, navigation monitor and background capture handler.

    Shallow embedding of
      - utils/dom-handlers.ts      (platform detection, selector lists, editor get/set,
                                    getContentWithoutMemories),
      - utils/memory-injection.ts  (formatMemoriesForInjection, injectMemories,
                                    addSingleMemory, clearMemoriesFromInput,
                                    resetInjectionState),
      - universal-injector.ts      (mountButtonOnEditor, removeUI, getRecentMessages,
                                    captureAndSync, setupUrlMonitoring),
      - background.ts              (handleSync).

    JavaScript strings are sequences of UTF-16 code units; they are modelled as
    [list N].  The browser's selector engine and text renderer are not part of
    the repository and are parameters of the development. *)

From Stdlib Require Import ZArith NArith QArith Lia String Ascii List Sorted.
From stdpp Require Import base list gmap.

Set Warnings "-register-all".
Local Open Scope Z_scope.

(* ------------------------------------------------------------------------- *)
(** ** JavaScript strings *)
(* ------------------------------------------------------------------------- *)

Module JS.

Definition jsstring : Type := list N.

(** A literal written in ASCII. *)
Definition lit (s : string) : jsstring :=
  List.map N_of_ascii (list_ascii_of_string s).

Definition NL : N := 10%N.
Definition nl : jsstring := [NL].

Definition eqb (a b : jsstring) : bool := bool_decide (a = b).

(** [s.startsWith(p)] *)
Fixpoint startsWith (p s : jsstring) : bool :=
  match p, s with
  | [], _ => true
  | _ :: _, [] => false
  | a :: p', b :: s' => N.eqb a b && startsWith p' s'
  end.

(** [s.indexOf(needle)]: index of the first occurrence, [-1] when there is none. *)
Fixpoint indexOf (needle s : jsstring) : Z :=
  if startsWith needle s then 0
  else match s with
       | [] => -1
       | _ :: s' => let r := indexOf needle s' in
                    if r <? 0 then -1 else r + 1
       end.

(** [s.includes(needle)] *)
Definition includes (needle s : jsstring) : bool :=
  negb (indexOf needle s =? -1).

Definition clamp (len x : Z) : Z := Z.max 0 (Z.min x len).

(** [s.substring(a, b)]: both indices clamped to [0, length], swapped when
    [a > b]. *)
Definition substring (s : jsstring) (a b : Z) : jsstring :=
  let len := Z.of_nat (length s) in
  let a' := clamp len a in
  let b' := clamp len b in
  let lo := Z.min a' b' in
  let hi := Z.max a' b' in
  take (Z.to_nat (hi - lo)) (drop (Z.to_nat lo) s).

(** [s.substring(a)] *)
Definition substringFrom (s : jsstring) (a : Z) : jsstring :=
  substring s a (Z.of_nat (length s)).

(** [xs.slice(a, b)] on strings and arrays (negative indices count from the end). *)
Definition sliceIdx (len x : Z) : Z :=
  if x <? 0 then Z.max (len + x) 0 else Z.min x len.

Definition slice {A} (xs : list A) (a b : Z) : list A :=
  let len := Z.of_nat (length xs) in
  let lo := sliceIdx len a in
  let hi := sliceIdx len b in
  take (Z.to_nat (hi - lo)) (drop (Z.to_nat lo) xs).

(** [xs.slice(a)] *)
Definition sliceFrom {A} (xs : list A) (a : Z) : list A :=
  drop (Z.to_nat (sliceIdx (Z.of_nat (length xs)) a)) xs.

(** White space and line terminators removed by [String.prototype.trim]. *)
Definition isWhite (c : N) : bool :=
  let c := Z.of_N c in
  ((9 <=? c) && (c <=? 13)) || (c =? 32) || (c =? 160) || (c =? 5760)
  || ((8192 <=? c) && (c <=? 8202)) || (c =? 8232) || (c =? 8233)
  || (c =? 8239) || (c =? 8287) || (c =? 12288) || (c =? 65279).

Fixpoint trimStart (s : jsstring) : jsstring :=
  match s with
  | c :: s' => if isWhite c then trimStart s' else s
  | [] => []
  end.

Definition trimEnd (s : jsstring) : jsstring := rev (trimStart (rev s)).

Definition trim (s : jsstring) : jsstring := trimEnd (trimStart s).

(** [pieces.join(sep)] *)
Fixpoint join (sep : jsstring) (pieces : list jsstring) : jsstring :=
  match pieces with
  | [] => []
  | [p] => p
  | p :: rest => p ++ sep ++ join sep rest
  end.

(** [s.split("\n")]: never returns the empty array. *)
Fixpoint splitLines (s : jsstring) : list jsstring :=
  match s with
  | [] => [[]]
  | c :: s' =>
      if N.eqb c NL then [] :: splitLines s'
      else match splitLines s' with
           | l :: ls => (c :: l) :: ls
           | [] => [[c]]
           end
  end.

(** JavaScript truthiness of a string. *)
Definition truthy (s : jsstring) : bool :=
  match s with [] => false | _ => true end.

(** [a || b] on strings. *)
Definition orElse (a b : jsstring) : jsstring := if truthy a then a else b.

End JS.

Import JS.

(* constants.ts *)
Definition MEMORY_HEADER : jsstring := lit "=== RELEVANT MEMORIES FROM LETTA ===".
Definition MEMORY_FOOTER : jsstring := lit "=== END MEMORIES ===".

(** Selector and attribute literals of the source contain double quotes; they
    are written here with a backquote, which [litq] turns into code unit 34. *)
Definition litq (s : string) : jsstring :=
  List.map (fun c => if N.eqb c 96 then 34%N else c) (lit s).

(* ------------------------------------------------------------------------- *)
(** ** The document *)
(* ------------------------------------------------------------------------- *)

(** What the engine observes of an element.  [serial] is the object identity of
    the elements the engine itself creates (the only ones it keeps a long-lived
    reference to); host elements carry [None]. *)
Inductive StyleWrite : Type :=
| SetCssText (css : jsstring)          (* el.style.cssText = css *)
| AppendCssText (css : jsstring)       (* el.style.cssText += css *)
| SetProp (prop v : jsstring)          (* el.style.prop = v *)
| SetPx (prop : jsstring) (px : Q).    (* el.style.prop = `${px}px` *)

Record Attrs : Type := mkAttrs {
  serial : option nat;
  tagName : jsstring;                       (* lower-cased *)
  idAttr : jsstring;                        (* the id attribute, empty when unset *)
  classList : list jsstring;
  contentEditable : jsstring;               (* the IDL property *)
  attributes : list (jsstring * jsstring);  (* getAttribute *)
  value : jsstring;                         (* the value an input holds, the raw
                                               value a textarea holds once set *)
  valueDirty : bool;                        (* dirty value flag of a textarea *)
  styleWrites : list StyleWrite;            (* what the engine wrote to el.style *)
  hasCleanup : bool;                        (* a _cleanup closure is attached *)
  lettaListener : bool;                     (* dataset.lettaListener *)
  lettaKeyListener : bool                   (* dataset.lettaKeyListener *)
}.

Inductive Node : Type :=
| Text (data : jsstring)
| Elem (a : Attrs) (kids : list Node).

(** The document is a tree whose root stands for the [Document] node itself
    (its [Attrs] are not used); the children of the root are the top-level nodes,
    normally the single [html] element.  An element reference that lives for the
    duration of one synchronous call is the position of the element: the child
    indices from the root. *)
Definition path : Type := list nat.

Fixpoint nodeAt (n : Node) (p : path) {struct p} : option Node :=
  match p with
  | [] => Some n
  | i :: p' =>
      match n with
      | Elem _ kids => match kids !! i with
                       | Some k => nodeAt k p'
                       | None => None
                       end
      | Text _ => None
      end
  end.

Definition attrsAt (n : Node) (p : path) : option Attrs :=
  match nodeAt n p with
  | Some (Elem a _) => Some a
  | _ => None
  end.

Definition kidsPaths (f : Node -> list path) : nat -> list Node -> list path :=
  fix go (i : nat) (ks : list Node) : list path :=
    match ks with
    | [] => []
    | k :: ks' => List.map (cons i) (f k) ++ go (S i) ks'
    end.

(** The elements of a subtree in document order. *)
Fixpoint elemPaths (n : Node) : list path :=
  match n with
  | Text _ => []
  | Elem _ kids => [] :: kidsPaths elemPaths 0%nat kids
  end.

(** [el.textContent] *)
Fixpoint textContent (n : Node) : jsstring :=
  match n with
  | Text d => d
  | Elem _ kids => concat (List.map textContent kids)
  end.

(** The elements of the document in document order (the root is no element). *)
Definition docPaths (d : Node) : list path :=
  match d with
  | Text _ => []
  | Elem _ kids => kidsPaths elemPaths 0%nat kids
  end.

(** [el.parentElement]: the parent when it is an element. *)
Definition parentElement (p : path) : option path :=
  match p with
  | [] | [_] => None
  | _ => Some (removelast p)
  end.

Definition getAttribute (a : Attrs) (name : jsstring) : option jsstring :=
  snd <$> List.find (fun kv => eqb (fst kv) name) (attributes a).

(** Replace the node at [p] by [f] of it. *)
Fixpoint updateAt (f : Node -> Node) (n : Node) (p : path) {struct p} : Node :=
  match p with
  | [] => f n
  | i :: p' =>
      match n with
      | Elem a kids => Elem a (alter (fun k => updateAt f k p') i kids)
      | Text d => Text d
      end
  end.

Definition setKids (kids : list Node) (n : Node) : Node :=
  match n with
  | Elem a _ => Elem a kids
  | Text d => Text d
  end.

Definition mapAttrs (f : Attrs -> Attrs) (n : Node) : Node :=
  match n with
  | Elem a kids => Elem (f a) kids
  | Text d => Text d
  end.

(** A client rectangle.  The coordinates are the numbers the browser reports;
    they are kept as exact rationals, and the rounding of floating-point
    arithmetic on them is not modelled. *)
Record Rect : Type := mkRect {
  rectTop : Q;
  rectLeft : Q;
  rectWidth : Q;
  rectHeight : Q
}.

(** The parts of the browser the engine calls into and the repository does not
    implement. *)
Record Browser : Type := mkBrowser {
  (** is the string a selector the engine of this browser accepts *)
  selectorValid : jsstring -> bool;
  (** does the element at this position of the document match the selector *)
  selectorMatches : jsstring -> Node -> path -> bool;
  (** [el.getBoundingClientRect()] of the element at this position *)
  boundingRect : Node -> path -> Rect;
  (** [getComputedStyle(el)]: the display and visibility values *)
  computedStyle : Node -> path -> jsstring * jsstring;
  (** [el.innerText], which depends on layout *)
  innerText : Node -> jsstring;
  (** the children an element with this tag name has after the string is
      assigned to its [innerHTML]: the fragment parser works in the context of
      the element (inside a [textarea] the markup is read as text) *)
  parseHTML : jsstring -> jsstring -> list Node
}.

(** Outcome of [document.querySelector]. *)
Inductive Query : Type :=
| QThrows
| QNull
| QElem (p : path).

Definition querySelector (B : Browser) (doc : Node) (sel : jsstring) : Query :=
  if selectorValid B sel then
    match List.find (selectorMatches B sel doc) (docPaths doc) with
    | Some p => QElem p
    | None => QNull
    end
  else QThrows.

Definition querySelectorAll (B : Browser) (doc : Node) (sel : jsstring) : option (list path) :=
  if selectorValid B sel then Some (List.filter (selectorMatches B sel doc) (docPaths doc))
  else None.

Definition hasId (doc : Node) (id : jsstring) (p : path) : bool :=
  match attrsAt doc p with
  | Some a => eqb (idAttr a) id
  | None => false
  end.

(** [document.getElementById] *)
Definition getElementById (doc : Node) (id : jsstring) : option path :=
  List.find (hasId doc id) (docPaths doc).

(** Observable effects on the page besides the document itself. *)
Inductive Effect : Type :=
| Dispatched (target : path) (event : jsstring)
| DispatchedInput (target : path) (inputType : jsstring)
| Focused (target : path)
| CursorToEnd (target : path)
| WindowListenerAdded (owner : option nat) (event : jsstring)
| WindowListenerRemoved (owner : option nat) (event : jsstring).

Record Page : Type := mkPage {
  hostname : jsstring;
  href : jsstring;
  doc : Node;
  effects : list Effect
}.

Definition withDoc (pg : Page) (d : Node) : Page :=
  mkPage (hostname pg) (href pg) d (effects pg).

Definition emit (pg : Page) (e : Effect) : Page :=
  mkPage (hostname pg) (href pg) (doc pg) (effects pg ++ [e]).

(* ------------------------------------------------------------------------- *)
(** ** utils/dom-handlers.ts *)
(* ------------------------------------------------------------------------- *)

Inductive Platform : Type := chatgpt | claude | gemini | perplexity.

#[global] Instance Platform_eq_dec : EqDecision Platform.
Proof. solve_decision. Defined.

Definition detectPlatformOf (hostname : jsstring) : option Platform :=
  if includes (lit "chat.openai.com") hostname || includes (lit "chatgpt.com") hostname
  then Some chatgpt
  else if includes (lit "claude.ai") hostname then Some claude
  else if includes (lit "gemini.google.com") hostname then Some gemini
  else if includes (lit "perplexity.ai") hostname then Some perplexity
  else None.

Definition detectPlatform (pg : Page) : option Platform :=
  detectPlatformOf (hostname pg).

Definition TEXTAREA_SELECTORS (p : Platform) : list jsstring :=
  match p with
  | chatgpt =>
      [ lit "#prompt-textarea";
        litq "div[contenteditable=`true`][data-id=`root`]";
        litq "div[contenteditable=`true`]";
        lit "textarea" ]
  | claude =>
      [ litq "div[contenteditable=`true`].ProseMirror";
        litq "div[contenteditable=`true`]";
        lit "textarea";
        litq "p[data-placeholder=`How can I help you today?`]";
        litq "p[data-placeholder=`Reply to Claude...`]" ]
  | gemini =>
      [ litq "rich-textarea .ql-editor[contenteditable=`true`]";
        lit "rich-textarea .ql-editor.textarea";
        litq ".ql-editor[aria-label=`Enter a prompt here`]";
        lit ".ql-editor.textarea.new-input-ui";
        lit ".text-input-field_textarea .ql-editor";
        litq "div[contenteditable=`true`][role=`textbox`][aria-label=`Enter a prompt here`]" ]
  | perplexity =>
      [ litq "div#ask-input[contenteditable=`true`]";
        lit "textarea#ask-input";
        litq "div[contenteditable=`true`][aria-placeholder^=`Ask`]";
        litq "textarea[placeholder^=`Ask`]";
        litq "textarea[placeholder^=`Ask a follow-up`]";
        litq "div[contenteditable=`true`]";
        lit "textarea" ]
  end.

Definition SEND_BUTTON_SELECTORS (p : Platform) : list jsstring :=
  match p with
  | chatgpt =>
      [ litq "button[data-testid=`send-button`]";
        litq "button[aria-label=`Send prompt`]";
        litq "form button[type=`submit`]" ]
  | claude =>
      [ litq "button[aria-label=`Send Message`]";
        litq "button[aria-label=`Send message`]";
        lit "fieldset button:not([aria-label])";
        litq "button:has(svg[viewBox=`0 0 256 256`])" ]
  | gemini =>
      [ litq "button[aria-label=`Send message`]";
        litq "button[data-testid=`send-button`]";
        litq "button[type=`submit`]:not([aria-label*=`attachment`])";
        lit ".send-button";
        litq "button[aria-label*=`Send`]";
        litq "button[title*=`Send`]" ]
  | perplexity =>
      [ litq "button[data-cy=`ai-prompt-submit`]";
        litq "button[data-cy=`ai-chat-send-button`]";
        litq "button[aria-label=`Send`]";
        litq "button[type=`button`][aria-label=`Send`]";
        litq "button[aria-label=`Submit`]";
        litq "button[type=`submit`]" ]
  end.

Definition FALLBACK_ANCHORS (p : Platform) : list jsstring :=
  match p with
  | chatgpt =>
      [ litq "form [data-testid=`composer-trailing-actions`]";
        lit "form .composer-trailing-actions";
        lit "form textarea";
        lit "main form textarea" ]
  | claude =>
      [ lit "#input-tools-menu-trigger";
        litq "button[aria-label*=`Send` i]";
        lit "fieldset" ]
  | gemini =>
      [ lit "toolbox-drawer .toolbox-drawer-container";
        lit ".input-area-container";
        lit ".text-input-field" ]
  | perplexity =>
      [ litq "button[aria-label=`Submit`]"; lit "form" ]
  end.

(** A call of the injection module returns, or raises the [TypeError] of
    [setTextareaValue].  That error is raised by the first statement that would
    change anything, so the page and the module state are then as they were
    when the call was made. *)
Inductive Outcome (A : Type) : Type :=
| Returned (a : A)
| TypeError.
Arguments Returned {A} a.
Arguments TypeError {A}.

#[global] Instance Outcome_bind : MBind Outcome :=
  fun A C k r => match r with
                 | Returned a => k a
                 | TypeError => TypeError
                 end.

(** The value a [textarea] hands out is its raw value with the line breaks
    normalised: CR LF and a lone CR read as LF. *)
Fixpoint normalizeNewlines (s : jsstring) : jsstring :=
  match s with
  | [] => []
  | c :: rest =>
      if N.eqb c 13 then
        match rest with
        | c' :: rest' =>
            if N.eqb c' 10 then NL :: normalizeNewlines rest'
            else NL :: normalizeNewlines rest
        | [] => [NL]
        end
      else c :: normalizeNewlines rest
  end.

(** The child text content of an element: the data of its [Text] children. *)
Definition childText (kids : list Node) : jsstring :=
  concat (List.map (fun k => match k with Text d => d | Elem _ _ => [] end) kids).

(** [el.value] of a [textarea] or [input] element.  A [textarea] whose value
    was never set (by the user or through the property) shows its child text
    content. *)
Definition fieldValue (a : Attrs) (kids : list Node) : jsstring :=
  if eqb (tagName a) (lit "textarea")
  then normalizeNewlines (if valueDirty a then value a else childText kids)
  else value a.

Section DomHandlers.

Context (B : Browser).

Definition Qpos (q : Q) : bool := negb (Qle_bool q 0).

Definition isVisible (d : Node) (el : path) : bool :=
  let rect := boundingRect B d el in
  let style := computedStyle B d el in
  Qpos (rectWidth rect) && Qpos (rectHeight rect)
  && negb (eqb (fst style) (lit "none"))
  && negb (eqb (snd style) (lit "hidden")).

(** The [for (const selector of selectors)] loop shared by [getTextarea] and
    [getSendButton]: the element returned, and the selectors that were handed
    to [document.querySelector], in order. *)
Fixpoint selectorLoop (d : Node) (selectors : list jsstring) : option path * list jsstring :=
  match selectors with
  | [] => (None, [])
  | selector :: rest =>
      match querySelector B d selector with
      | QElem el =>
          if isVisible d el then (Some el, [selector])
          else let r := selectorLoop d rest in (fst r, selector :: snd r)
      | QNull | QThrows =>
          let r := selectorLoop d rest in (fst r, selector :: snd r)
      end
  end.

Definition getTextareaQ (pg : Page) (platform : option Platform) : option path * list jsstring :=
  let p := match platform with Some p => Some p | None => detectPlatform pg end in
  match p with
  | None => (None, [])
  | Some p => selectorLoop (doc pg) (TEXTAREA_SELECTORS p)
  end.

Definition getTextarea (pg : Page) (platform : option Platform) : option path :=
  fst (getTextareaQ pg platform).

Definition getSendButtonQ (pg : Page) (platform : option Platform) : option path * list jsstring :=
  let p := match platform with Some p => Some p | None => detectPlatform pg end in
  match p with
  | None => (None, [])
  | Some p => selectorLoop (doc pg) (SEND_BUTTON_SELECTORS p)
  end.

Definition getSendButton (pg : Page) (platform : option Platform) : option path :=
  fst (getSendButtonQ pg platform).

Definition isContentEditable (a : Attrs) : bool :=
  eqb (contentEditable a) (lit "true")
  || bool_decide (getAttribute a (lit "contenteditable") = Some (lit "true")).

Definition isTextField (a : Attrs) : bool :=
  eqb (tagName a) (lit "textarea") || eqb (tagName a) (lit "input").

Definition getInputValue (pg : Page) (inputElement : option path) : jsstring :=
  let el := match inputElement with Some el => Some el | None => getTextarea pg None end in
  match el with
  | None => []
  | Some el =>
      match nodeAt (doc pg) el with
      | Some (Elem a kids as n) =>
          if bool_decide (lit "ProseMirror" ∈ classList a) then textContent n
          else if eqb (tagName a) (lit "p") then textContent n
          else if isContentEditable a then
                 orElse (textContent n) (innerText B n)
          else if isTextField a then fieldValue a kids
          else textContent n
      | _ => []
      end
  end.

(** An element made by [document.createElement] or by the HTML parser. *)
Definition freshAttrs (tag : jsstring) : Attrs :=
  mkAttrs None tag [] [] (lit "inherit") [] [] false [] false false false.

(** One line of the written value as a paragraph: an empty-paragraph marker
    ([<br>]) for a blank line, the text otherwise. *)
Definition paragraph (line : jsstring) : Node :=
  Elem (freshAttrs (lit "p"))
       (if eqb (trim line) [] then [Elem (freshAttrs (lit "br")) []] else [Text line]).

Definition replaceAll (c : N) (by_ : jsstring) (s : jsstring) : jsstring :=
  flat_map (fun x => if N.eqb x c then by_ else [x]) s.

Definition escapeHtml (line : jsstring) : jsstring :=
  replaceAll 62 (lit "&gt;") (replaceAll 60 (lit "&lt;") (replaceAll 38 (lit "&amp;") line)).

Definition paragraphHtml (line : jsstring) : jsstring :=
  if eqb (trim line) [] then lit "<p><br></p>"
  else lit "<p>" ++ escapeHtml line ++ lit "</p>".

Definition setTextContent (v : jsstring) (n : Node) : Node :=
  setKids (if truthy v then [Text v] else []) n.

Definition setCursorToEnd (pg : Page) (el : path) : Page := emit pg (CursorToEnd el).

(** The markup is assigned to [innerHTML] of the element, whatever element it
    is: its children become what the fragment parser makes of the markup in the
    context of that element.  On a [textarea] the value read afterwards follows
    from the new children through [fieldValue] (the child text content, unless
    the value was set before); on an [input] the value is untouched. *)
Definition setClaudeInputValue (pg : Page) (inputElement : path) (a : Attrs)
    (v : jsstring) : Page :=
  let isProseMirror := bool_decide (lit "ProseMirror" ∈ classList a) in
  let isParagraph := eqb (tagName a) (lit "p") in
  let htmlContent := concat (List.map paragraphHtml (splitLines v)) in
  let written : Node * path :=
    if isParagraph then
      match parentElement inputElement with
      | Some parent =>
          match attrsAt (doc pg) parent with
          | Some pa =>
              if bool_decide (getAttribute pa (lit "contenteditable") = Some (lit "true"))
              then (updateAt (setKids (parseHTML B (tagName pa) htmlContent)) (doc pg) parent,
                    parent)
              else (updateAt (setTextContent v) (doc pg) inputElement, inputElement)
          | None => (updateAt (setTextContent v) (doc pg) inputElement, inputElement)
          end
      | None => (updateAt (setTextContent v) (doc pg) inputElement, inputElement)
      end
    else (updateAt (setKids (parseHTML B (tagName a) htmlContent)) (doc pg) inputElement,
          inputElement) in
  let el := snd written in
  let pg := withDoc pg (fst written) in
  let pg :=
    if isProseMirror
    then emit (emit pg (DispatchedInput el (lit "insertText"))) (Dispatched el (lit "change"))
    else emit pg (Dispatched el (lit "input")) in
  setCursorToEnd (emit pg (Focused el)) el.

Definition setGeminiInputValue (pg : Page) (inputElement : path) (v : jsstring) : Page :=
  let pg := withDoc pg (updateAt (setKids (List.map paragraph (splitLines v)))
                                 (doc pg) inputElement) in
  let pg := emit pg (Dispatched inputElement (lit "input")) in
  setCursorToEnd (emit pg (Focused inputElement)) inputElement.

Definition setGenericContentEditableValue (pg : Page) (inputElement : path)
    (v : jsstring) : Page :=
  let pg := withDoc pg (updateAt (setKids (List.map paragraph (splitLines v)))
                                 (doc pg) inputElement) in
  let pg := emit pg (Dispatched inputElement (lit "input")) in
  setCursorToEnd (emit pg (Focused inputElement)) inputElement.

(** The setter of [value]: the raw value is replaced and the dirty value flag
    set. *)
Definition setValueAttr (v : jsstring) (a : Attrs) : Attrs :=
  mkAttrs (serial a) (tagName a) (idAttr a) (classList a) (contentEditable a)
          (attributes a) v true (styleWrites a) (hasCleanup a) (lettaListener a)
          (lettaKeyListener a).

(** The value is written with the setter taken from
    [HTMLTextAreaElement.prototype], which every browser defines.  Called on an
    element that is no [textarea] (here: the [input] element [setInputValue]
    hands over), that setter raises a [TypeError] before anything is written
    and before any event is dispatched. *)
Definition setTextareaValue (pg : Page) (textarea : path) (a : Attrs) (v : jsstring)
    : Outcome Page :=
  if eqb (tagName a) (lit "textarea") then
    let pg := withDoc pg (updateAt (mapAttrs (setValueAttr v)) (doc pg) textarea) in
    let pg := emit pg (Dispatched textarea (lit "input")) in
    let pg := emit pg (Dispatched textarea (lit "change")) in
    Returned (emit pg (Focused textarea))
  else TypeError.

Definition setInputValue (pg : Page) (inputElement : path) (v : jsstring) : Outcome Page :=
  match attrsAt (doc pg) inputElement with
  | None => Returned pg
  | Some a =>
      let platform := detectPlatform pg in
      if bool_decide (platform = Some claude)
      then Returned (setClaudeInputValue pg inputElement a v)
      else if bool_decide (platform = Some gemini) && isContentEditable a
      then Returned (setGeminiInputValue pg inputElement v)
      else if isContentEditable a
      then Returned (setGenericContentEditableValue pg inputElement v)
      else if isTextField a then setTextareaValue pg inputElement a v
      else Returned (setGenericContentEditableValue pg inputElement v)
  end.

(** The body of [getContentWithoutMemories] once the editor content is read. *)
Definition stripContent (memoryHeaderText content : jsstring) : jsstring :=
  let content :=
    if eqb memoryHeaderText MEMORY_HEADER then
      let startIdx := indexOf MEMORY_HEADER content in
      if negb (startIdx =? -1) then
        let endIdx := indexOf MEMORY_FOOTER content in
        if negb (endIdx =? -1) && (endIdx >? startIdx) then
          substring content 0 startIdx
          ++ substringFrom content (endIdx + Z.of_nat (length MEMORY_FOOTER))
        else substring content 0 startIdx
      else content
    else
      let prefixIndex := indexOf memoryHeaderText content in
      if negb (prefixIndex =? -1) then substring content 0 prefixIndex
      else content in
  trim content.

Definition getContentWithoutMemories (pg : Page) (memoryHeaderText : jsstring) : jsstring :=
  match getTextarea pg None with
  | None => []
  | Some inputElement => stripContent memoryHeaderText (getInputValue pg (Some inputElement))
  end.

End DomHandlers.

(* ------------------------------------------------------------------------- *)
(** ** utils/memory-injection.ts *)
(* ------------------------------------------------------------------------- *)

(** types.ts is not among the sources; the fields are those the functions
    below read. *)
Record MemoryBlock : Type := mkBlock {
  blockId : jsstring;
  blockLabel : jsstring;
  blockValue : jsstring
}.

Definition formatMemoriesForInjection (memories : list MemoryBlock) : jsstring :=
  match memories with
  | [] => []
  | _ =>
      let lines := [MEMORY_HEADER; []] in
      let lines :=
        fold_left
          (fun lines memory =>
             let label := orElse (blockLabel memory) (lit "Memory") in
             let v := orElse (blockValue memory) [] in
             if truthy (trim v)
             then lines ++ [lit "[" ++ label ++ lit "]"; v; []]
             else lines)
          memories lines in
      let lines := lines ++ [MEMORY_FOOTER] in
      let lines := lines ++ [[]] in
      join nl lines
  end.

(** The engine state of the injection module: the page and the module-level
    set [injectedMemoryIds]. *)
Record Injector : Type := mkInjector {
  page : Page;
  injectedMemoryIds : gset (list N)
}.

Definition trackIds (ids : gset (list N)) (memories : list MemoryBlock) : gset (list N) :=
  fold_left (fun ids m => if truthy (blockId m) then ids ∪ {[ blockId m ]} else ids)
            memories ids.

Section MemoryInjection.

Context (B : Browser).

Definition injectMemories (st : Injector) (memories : list MemoryBlock)
    : Outcome (bool * Injector) :=
  match detectPlatform (page st) with
  | None => Returned (false, st)
  | Some platform =>
      match getTextarea B (page st) (Some platform) with
      | None => Returned (false, st)
      | Some textarea =>
          let existingContent := getContentWithoutMemories B (page st) MEMORY_HEADER in
          let memoryText := formatMemoriesForInjection memories in
          if negb (truthy memoryText) then Returned (false, st)
          else
            let newValue := memoryText ++ existingContent in
            pg ← setInputValue B (page st) textarea newValue;
            Returned (true, mkInjector pg (trackIds (injectedMemoryIds st) memories))
      end
  end.

Definition addSingleMemory (st : Injector) (memory : MemoryBlock)
    : Outcome (bool * Injector) :=
  match detectPlatform (page st) with
  | None => Returned (false, st)
  | Some platform =>
      match getTextarea B (page st) (Some platform) with
      | None => Returned (false, st)
      | Some textarea =>
          if truthy (blockId memory) && bool_decide (blockId memory ∈ injectedMemoryIds st)
          then Returned (false, st)
          else
            let currentContent := getInputValue B (page st) (Some textarea) in
            if includes MEMORY_HEADER currentContent then
              let footerIndex := indexOf MEMORY_FOOTER currentContent in
              if negb (footerIndex =? -1) then
                let label := orElse (blockLabel memory) (lit "Memory") in
                let v := orElse (blockValue memory) [] in
                let memoryEntry := nl ++ lit "[" ++ label ++ lit "]" ++ nl ++ v ++ nl in
                let newContent :=
                  substring currentContent 0 footerIndex
                  ++ memoryEntry
                  ++ substringFrom currentContent footerIndex in
                pg ← setInputValue B (page st) textarea newContent;
                Returned (true, mkInjector pg
                                  (if truthy (blockId memory)
                                   then injectedMemoryIds st ∪ {[ blockId memory ]}
                                   else injectedMemoryIds st))
              else Returned (false, st)
            else injectMemories st [memory]
      end
  end.

(** The set of injected ids is cleared after the editor is written: when the
    write raises, the set stays as it is. *)
Definition clearMemoriesFromInput (st : Injector) : Outcome Injector :=
  match detectPlatform (page st) with
  | None => Returned st
  | Some platform =>
      match getTextarea B (page st) (Some platform) with
      | None => Returned st
      | Some textarea =>
          let cleanContent := getContentWithoutMemories B (page st) MEMORY_HEADER in
          pg ← setInputValue B (page st) textarea (trim cleanContent);
          Returned (mkInjector pg ∅)
      end
  end.

Definition extractUserMessage (pg : Page) : jsstring :=
  getContentWithoutMemories B pg MEMORY_HEADER.

Definition resetInjectionState (st : Injector) : Injector :=
  mkInjector (page st) ∅.

End MemoryInjection.

(* ------------------------------------------------------------------------- *)
(** ** universal-injector.ts *)
(* ------------------------------------------------------------------------- *)

Inductive Role : Type := user | assistant.

Record ChatMessage : Type := mkChat {
  role : Role;
  content : jsstring
}.

Record SyncPayload : Type := mkPayload {
  userMessage : jsstring;
  context : option (list ChatMessage);
  timestamp : Z;
  url : jsstring
}.

(** Callbacks handed to [setTimeout]. *)
Inductive Task : Type :=
| TaskMount      (* mountButtonOnEditor *)
| TaskRemount.   (* mountButtonOnEditor(); addSendListeners() *)

(** The module-level state of the content script, with the state of the
    injection module it imports.  [buttonHost] holds the identity of the button
    element; [detached] keeps the subtrees the engine removed from the document,
    which [buttonHost] may still point into. *)
Record Engine : Type := mkEngine {
  inj : Injector;
  platform : option Platform;
  buttonHost : option nat;
  detached : list Node;
  nextSerial : nat;
  inputValueCopy : jsstring;
  buttonWatcherStarted : bool;
  mutationObserver : bool;
  buttonWatcherInterval : bool;
  lastUrl : jsstring;
  timers : list (Z * Task);
  outbox : list SyncPayload
}.

Definition epage (e : Engine) : Page := page (inj e).
Definition edoc (e : Engine) : Node := doc (epage e).

Definition setInj (e : Engine) (i : Injector) : Engine :=
  mkEngine i (platform e) (buttonHost e) (detached e) (nextSerial e) (inputValueCopy e)
           (buttonWatcherStarted e) (mutationObserver e) (buttonWatcherInterval e)
           (lastUrl e) (timers e) (outbox e).

Definition setPage (e : Engine) (pg : Page) : Engine :=
  setInj e (mkInjector pg (injectedMemoryIds (inj e))).

Definition setDoc (e : Engine) (d : Node) : Engine := setPage e (withDoc (epage e) d).

Definition emitE (e : Engine) (x : Effect) : Engine := setPage e (emit (epage e) x).

Definition setButtonHost (e : Engine) (b : option nat) : Engine :=
  mkEngine (inj e) (platform e) b (detached e) (nextSerial e) (inputValueCopy e)
           (buttonWatcherStarted e) (mutationObserver e) (buttonWatcherInterval e)
           (lastUrl e) (timers e) (outbox e).

Definition setDetached (e : Engine) (l : list Node) : Engine :=
  mkEngine (inj e) (platform e) (buttonHost e) l (nextSerial e) (inputValueCopy e)
           (buttonWatcherStarted e) (mutationObserver e) (buttonWatcherInterval e)
           (lastUrl e) (timers e) (outbox e).

Definition setNextSerial (e : Engine) (n : nat) : Engine :=
  mkEngine (inj e) (platform e) (buttonHost e) (detached e) n (inputValueCopy e)
           (buttonWatcherStarted e) (mutationObserver e) (buttonWatcherInterval e)
           (lastUrl e) (timers e) (outbox e).

Definition setInputValueCopy (e : Engine) (s : jsstring) : Engine :=
  mkEngine (inj e) (platform e) (buttonHost e) (detached e) (nextSerial e) s
           (buttonWatcherStarted e) (mutationObserver e) (buttonWatcherInterval e)
           (lastUrl e) (timers e) (outbox e).

Definition setWatcher (e : Engine) (started observer interval : bool) : Engine :=
  mkEngine (inj e) (platform e) (buttonHost e) (detached e) (nextSerial e) (inputValueCopy e)
           started observer interval (lastUrl e) (timers e) (outbox e).

Definition setLastUrl (e : Engine) (u : jsstring) : Engine :=
  mkEngine (inj e) (platform e) (buttonHost e) (detached e) (nextSerial e) (inputValueCopy e)
           (buttonWatcherStarted e) (mutationObserver e) (buttonWatcherInterval e)
           u (timers e) (outbox e).

(** [setTimeout(task, delay)] *)
Definition setTimeout (e : Engine) (task : Task) (delay : Z) : Engine :=
  mkEngine (inj e) (platform e) (buttonHost e) (detached e) (nextSerial e) (inputValueCopy e)
           (buttonWatcherStarted e) (mutationObserver e) (buttonWatcherInterval e)
           (lastUrl e) (timers e ++ [(delay, task)]) (outbox e).

Definition send (e : Engine) (m : SyncPayload) : Engine :=
  mkEngine (inj e) (platform e) (buttonHost e) (detached e) (nextSerial e) (inputValueCopy e)
           (buttonWatcherStarted e) (mutationObserver e) (buttonWatcherInterval e)
           (lastUrl e) (timers e) (outbox e ++ [m]).

(** A call either returns or throws (an invalid selector outside a [try], a
    property read on [null], a refused insertion); the module state reached when
    the exception is raised stays. *)
Inductive Result (A : Type) : Type :=
| Ok (a : A)
| Throws (e : Engine).
Arguments Ok {A} a.
Arguments Throws {A} e.

#[global] Instance Result_bind : MBind Result :=
  fun A C k r => match r with
                 | Ok a => k a
                 | Throws e => Throws e
                 end.

(** *** Tree edits *)

Definition insertKid (new : Node) (i : nat) (n : Node) : Node :=
  match n with
  | Elem a kids => Elem a (take i kids ++ new :: drop i kids)
  | Text d => Text d
  end.

Definition appendKid (new : Node) (n : Node) : Node :=
  match n with
  | Elem a kids => Elem a (kids ++ [new])
  | Text d => Text d
  end.

Definition removeKid (i : nat) (n : Node) : Node :=
  match n with
  | Elem a kids => Elem a (delete i kids)
  | Text d => Text d
  end.

(** [parent.insertBefore(new, ref)] for [ref] a child of [parent]. *)
Definition insertBefore (d : Node) (ref : path) (new : Node) : Node :=
  updateAt (insertKid new (List.last ref 0%nat)) d (removelast ref).

(** [parent.insertBefore(new, ref.nextSibling)] *)
Definition insertAfter (d : Node) (ref : path) (new : Node) : Node :=
  updateAt (insertKid new (S (List.last ref 0%nat))) d (removelast ref).

(** [parent.appendChild(new)] *)
Definition appendChild (d : Node) (parent : path) (new : Node) : Node :=
  updateAt (appendKid new) d parent.

(** [parent.insertBefore(new, parent.firstChild)] *)
Definition prependChild (d : Node) (parent : path) (new : Node) : Node :=
  updateAt (insertKid new 0%nat) d parent.

(** [el.remove()] *)
Definition removeNode (d : Node) (el : path) : Node :=
  match el with
  | [] => d
  | _ => updateAt (removeKid (List.last el 0%nat)) d (removelast el)
  end.

Definition addStyle (w : StyleWrite) (a : Attrs) : Attrs :=
  mkAttrs (serial a) (tagName a) (idAttr a) (classList a) (contentEditable a)
          (attributes a) (value a) (valueDirty a) (styleWrites a ++ [w]) (hasCleanup a)
          (lettaListener a) (lettaKeyListener a).

Definition styleAt (d : Node) (el : path) (w : StyleWrite) : Node :=
  updateAt (mapAttrs (addStyle w)) d el.

Definition isElem (n : Node) : bool :=
  match n with Elem _ _ => true | Text _ => false end.

Definition tagIs (tags : list jsstring) (n : Node) : bool :=
  match n with
  | Elem a _ => bool_decide (tagName a ∈ tags)
  | Text _ => false
  end.

Fixpoint findIndex {A} (f : A -> bool) (l : list A) : option nat :=
  match l with
  | [] => None
  | x :: l' => if f x then Some 0%nat else S <$> findIndex f l'
  end.

(** [document.body]: the first [body] or [frameset] child of the [html]
    document element. *)
Definition documentBody (d : Node) : option path :=
  match d with
  | Elem _ kids =>
      match findIndex isElem kids with
      | Some i =>
          match kids !! i with
          | Some (Elem a hk) =>
              if eqb (tagName a) (lit "html")
              then (fun j => [i; j]) <$> findIndex (tagIs [lit "body"; lit "frameset"]) hk
              else None
          | _ => None
          end
      | None => None
      end
  | Text _ => None
  end.

(** The element and its ancestors, nearest first (down to the document root). *)
Definition ancestorsOrSelf (p : path) : list path :=
  List.map (fun k => take k p) (rev (seq 0 (S (length p)))).

Definition serialAt (d : Node) (p : path) : option nat :=
  match attrsAt d p with
  | Some a => serial a
  | None => None
  end.

(** Position of the element with the given identity in a subtree. *)
Definition findSerial (paths : list path) (d : Node) (s : nat) : option path :=
  List.find (fun p => bool_decide (serialAt d p = Some s)) paths.

Section UniversalInjector.

Context (B : Browser).

(** [document.querySelector] outside a [try] block. *)
Definition queryR (e : Engine) (sel : jsstring) : Result (option path) :=
  match querySelector B (edoc e) sel with
  | QThrows => Throws e
  | QNull => Ok None
  | QElem p => Ok (Some p)
  end.

(** [a || b || ...] over [document.querySelector] calls: the later ones are
    evaluated only while the earlier ones return [null]. *)
Fixpoint firstQuery (e : Engine) (sels : list jsstring) : Result (option path) :=
  match sels with
  | [] => Ok None
  | sel :: rest =>
      r ← queryR e sel;
      match r with
      | Some p => Ok (Some p)
      | None => firstQuery e rest
      end
  end.

(** [el.closest(sel)] *)
Definition closestR (e : Engine) (el : path) (sel : jsstring) : Result (option path) :=
  if selectorValid B sel then
    Ok (List.find (fun q => bool_decide (q ≠ []) && selectorMatches B sel (edoc e) q)
                  (ancestorsOrSelf el))
  else Throws e.

Definition isProperPrefix (p q : path) : bool :=
  bool_decide (take (length p) q = p) && (length p <? length q)%nat.

(** [el.querySelector(sel)]: the first matching descendant of [el]. *)
Definition queryWithinR (e : Engine) (el : path) (sel : jsstring) : Result (option path) :=
  if selectorValid B sel then
    Ok (List.find (fun q => isProperPrefix el q && selectorMatches B sel (edoc e) q)
                  (docPaths (edoc e)))
  else Throws e.

Fixpoint firstQueryWithin (e : Engine) (el : path) (sels : list jsstring)
    : Result (option path) :=
  match sels with
  | [] => Ok None
  | sel :: rest =>
      r ← queryWithinR e el sel;
      match r with
      | Some p => Ok (Some p)
      | None => firstQueryWithin e el rest
      end
  end.

Definition orParent (form : option path) (editor : path) : option path :=
  match form with
  | Some f => Some f
  | None => parentElement editor
  end.

Definition deriveAnchor (e : Engine) (p : Platform) (editor : path) : Result (option path) :=
  match p with
  | chatgpt =>
      form ← closestR e editor (lit "form");
      toolbar ← match form with
                | Some f =>
                    firstQueryWithin e f
                      [ litq "[data-testid=`composer-trailing-actions`]";
                        lit ".composer-trailing-actions";
                        lit ".items-center.gap-1\.5";
                        lit ".items-center.gap-2" ]
                | None => Ok None
                end;
      match toolbar with
      | Some t => Ok (Some t)
      | None => Ok (orParent form editor)
      end
  | claude =>
      form ← closestR e editor (lit "form");
      Ok (orParent form editor)
  | gemini =>
      toolbox ← queryR e (lit "toolbox-drawer .toolbox-drawer-container");
      match toolbox with
      | Some t => Ok (Some t)
      | None => form ← closestR e editor (lit "form"); Ok (orParent form editor)
      end
  | perplexity =>
      form ← closestR e editor (lit "form");
      Ok (orParent form editor)
  end.

Definition getAnchor (e : Engine) (platform : option Platform) : Result (option path) :=
  let p := match platform with Some p => Some p | None => detectPlatform (epage e) end in
  match p with
  | None => Ok None
  | Some p =>
      let editor := getTextarea B (epage e) (Some p) in
      derived ← match editor with
                | Some ed =>
                    d ← deriveAnchor e p ed;
                    Ok (match d with
                        | Some a => if isVisible B (edoc e) a then Some a else None
                        | None => None
                        end)
                | None => Ok None
                end;
      match derived with
      | Some a => Ok (Some a)
      | None =>
          match fst (selectorLoop B (edoc e) (FALLBACK_ANCHORS p)) with
          | Some el => Ok (Some el)
          | None =>
              match editor with
              | Some ed => form ← closestR e ed (lit "form"); Ok (orParent form ed)
              | None => Ok None
              end
          end
      end
  end.

(** *** The control *)

Definition ICON_BUTTON_ID : jsstring := lit "letta-icon-button".
Definition FLOATING_ID : jsstring := lit "letta-floating-container".

Definition svgPath (d : jsstring) : Node :=
  Elem (mkAttrs None (lit "path") [] [] (lit "inherit") [(lit "d", d)] [] false [] false false
          false) [].

(** The fragment of the logo assigned to [button.innerHTML].  (In the style
    strings below the line breaks and indentation of the template literals are
    collapsed to single spaces.) *)
Definition logoSvg : list Node :=
  [ Text (nl ++ lit "    ");
    Elem (mkAttrs None (lit "svg") [] [] (lit "inherit")
            [(lit "width", lit "16"); (lit "height", lit "16");
             (lit "viewBox", lit "0 0 22 22"); (lit "fill", lit "#000000")]
            [] false [] false false false)
         [ Text (nl ++ lit "      ");
           svgPath (lit "M13.2017 8.80036H8.80133V13.2002H13.2017V8.80036Z");
           Text (nl ++ lit "      ");
           svgPath (lit "M17.6019 2.99742V0H4.40033V2.99742C4.40033 3.77228 3.77267 4.39988 2.99773 4.39988H0V17.6001H2.99773C3.77267 17.6001 4.40033 18.2277 4.40033 19.0026V22H17.6019V19.0026C17.6019 18.2277 18.2296 17.6001 19.0045 17.6001H22.0023V4.39988H19.0045C18.2296 4.39988 17.6019 3.77228 17.6019 2.99742ZM17.6019 16.1971C17.6019 16.9719 16.9743 17.5995 16.1993 17.5995H5.80355C5.0286 17.5995 4.40094 16.9719 4.40094 16.1971V5.80234C4.40094 5.02747 5.0286 4.39988 5.80355 4.39988H16.1993C16.9743 4.39988 17.6019 5.02747 17.6019 5.80234V16.1971Z");
           Text (nl ++ lit "    ") ];
    Text (nl ++ lit "  ") ].

Definition buttonStyle : jsstring :=
  lit "display: flex !important; align-items: center !important; justify-content: center !important; width: 24px !important; height: 24px !important; border-radius: 6px !important; background: rgba(128, 128, 128, 0.2) !important; border: none !important; cursor: pointer !important; transition: all 0.15s ease !important; padding: 2px !important;".

Definition lettaButton (s : nat) : Node :=
  Elem (mkAttrs (Some s) (lit "button") ICON_BUTTON_ID [] (lit "inherit")
          [ (lit "id", ICON_BUTTON_ID); (lit "type", lit "button");
            (lit "title", lit "Add Letta Memory");
            (lit "aria-label", lit "Add Letta memories to your prompt") ]
          [] false [SetCssText buttonStyle] false false false)
       logoSvg.

Definition lettaRoot (s : nat) (button : Node) : Node :=
  Elem (mkAttrs (Some s) (lit "span") [] [] (lit "inherit") [] [] false
          [SetCssText (lit "position: relative; display: inline-flex; flex-shrink: 0;")]
          false false false)
       [button].

(** [createLettaButton]: the wrapper [root] holding the [button]; the second
    component is the identity of the button.  (The hover and click listeners of
    the button are not document state.) *)
Definition createLettaButton (e : Engine) : Node * nat * Engine :=
  let s := nextSerial e in
  (lettaRoot s (lettaButton (S s)), S s, setNextSerial e (S (S s))).

(** Run the [_cleanup] closure of a wrapper when it has one.  (The pending
    animation frame it cancels exists only between a scroll event and the next
    frame, which are not modelled.) *)
Definition runCleanup (e : Engine) (a : Attrs) : Engine :=
  if hasCleanup a
  then emitE (emitE e (WindowListenerRemoved (serial a) (lit "scroll")))
             (WindowListenerRemoved (serial a) (lit "resize"))
  else e.

Definition detach (e : Engine) (el : path) (n : Node) : Engine :=
  setDetached (setDoc e (removeNode (edoc e) el)) (detached e ++ [n]).

(** [buttonHost.parentElement] for a button that is no longer in the document. *)
Fixpoint detachedParent (trees : list Node) (b : nat) : option Attrs :=
  match trees with
  | [] => None
  | t :: rest =>
      match findSerial (elemPaths t) t b with
      | Some [] => None
      | Some pb => attrsAt t (removelast pb)
      | None => detachedParent rest b
      end
  end.

Definition removeUI (e : Engine) : Engine :=
  let e :=
    match getElementById (edoc e) FLOATING_ID with
    | Some floatCont =>
        match nodeAt (edoc e) floatCont with
        | Some (Elem a _ as c) => detach (runCleanup e a) floatCont c
        | _ => e
        end
    | None => e
    end in
  match buttonHost e with
  | Some b =>
      let e :=
        match findSerial (docPaths (edoc e)) (edoc e) b with
        | Some pb =>
            match parentElement pb with
            | Some root =>
                match nodeAt (edoc e) root with
                | Some (Elem a _ as r) => detach (runCleanup e a) root r
                | _ => e
                end
            | None => e
            end
        | None =>
            match detachedParent (detached e) b with
            | Some a => runCleanup e a
            | None => e
            end
        end in
      setButtonHost e None
  | None => e
  end.

(** Create the control, put its wrapper into the document with [place] and
    record the button in [buttonHost]. *)
Definition mountWith (e : Engine) (dress : Node -> Node) (place : Node -> Node -> Node)
    : Engine :=
  let '(root, button, e) := createLettaButton e in
  setButtonHost (setDoc e (place (edoc e) (dress root))) (Some button).

Definition flexRow : StyleWrite :=
  AppendCssText (lit " display: flex !important; flex-direction: row !important; align-items: center !important; gap: 8px !important; ").

Definition mountChatGPTButton (e : Engine) : Result (bool * Engine) :=
  plusButton ← queryR e (litq "button[data-testid=`composer-plus-btn`]");
  first ← match plusButton with
          | Some pb =>
              plusButtonParent ← closestR e pb (lit "span.flex");
              leadingContainer ← closestR e pb (litq "div[class*=`leading`]");
              match plusButtonParent, plusButtonParent ≫= parentElement with
              | Some pbp, Some par =>
                  Ok (Some (mountWith e id
                              (fun d root => styleAt (insertAfter d pbp root) par flexRow)))
              | _, _ =>
                  match leadingContainer with
                  | Some lc => Ok (Some (mountWith e id (fun d root => appendChild d lc root)))
                  | None => Ok None
                  end
              end
          | None => Ok None
          end;
  match first with
  | Some e' => Ok (true, e')
  | None =>
      sendButton ← queryR e (lit "#composer-submit-button");
      match sendButton, sendButton ≫= parentElement with
      | Some sb, Some _ => Ok (true, mountWith e id (fun d root => insertBefore d sb root))
      | _, _ => Ok (false, e)
      end
  end.

Definition mountClaudeButton (e : Engine) : Result (bool * Engine) :=
  sendButton ← firstQuery e [ litq "button[aria-label=`Send Message`]";
                               litq "button[aria-label=`Send message`]" ];
  match sendButton, sendButton ≫= parentElement with
  | Some sb, Some _ => Ok (true, mountWith e id (fun d root => insertBefore d sb root))
  | _, _ =>
      toolsTrigger ← queryR e (lit "#input-tools-menu-trigger");
      match toolsTrigger, toolsTrigger ≫= parentElement with
      | Some trig, Some _ => Ok (true, mountWith e id (fun d root => insertAfter d trig root))
      | _, _ => Ok (false, e)
      end
  end.

Definition mountGeminiButton (e : Engine) : Result (bool * Engine) :=
  mainArea ← queryR e (lit ".text-input-field-main-area");
  match mainArea, mainArea ≫= parentElement with
  | Some ma, Some par =>
      Ok (true, mountWith e
                  (mapAttrs (addStyle (SetProp (lit "marginRight") (lit "8px"))))
                  (fun d root =>
                     styleAt (styleAt (insertBefore d ma root) par
                                      (SetProp (lit "display") (lit "flex")))
                             par (SetProp (lit "alignItems") (lit "center"))))
  | _, _ =>
      toolbox ← queryR e (lit "toolbox-drawer .toolbox-drawer-container");
      match toolbox with
      | Some tb => Ok (true, mountWith e id (fun d root => appendChild d tb root))
      | None =>
          let sendButton := getSendButton B (epage e) (platform e) in
          match sendButton, sendButton ≫= parentElement with
          | Some sb, Some _ =>
              Ok (true, mountWith e
                          (mapAttrs (addStyle (SetProp (lit "marginRight") (lit "4px"))))
                          (fun d root => insertBefore d sb root))
          | _, _ => Ok (false, e)
          end
      end
  end.

(** The elements visited by [while (current && current !== document.body)]. *)
Fixpoint upToBody (body : option path) (chain : list path) : list path :=
  match chain with
  | [] => []
  | q :: rest =>
      if bool_decide (q = []) || bool_decide (Some q = body) then []
      else q :: upToBody body rest
  end.

Definition flexAncestor (d : Node) (inputEl : path) : option path :=
  List.find (fun q => eqb (fst (computedStyle B d q)) (lit "flex"))
            (upToBody (documentBody d) (ancestorsOrSelf inputEl)).

Definition maxQ (a b : Q) : Q := if Qle_bool a b then b else a.

(** The wrapper turned into the fixed-position container placed from the
    rectangle of the input. *)
Definition floatingRoot (rect : Rect) (root : Node) : Node :=
  match root with
  | Elem a kids =>
      Elem (mkAttrs (serial a) (tagName a) FLOATING_ID (classList a) (contentEditable a)
              ((lit "id", FLOATING_ID) :: attributes a) (value a) (valueDirty a)
              [ SetCssText (lit " position: fixed; z-index: 10000; display: flex; gap: 4px; ");
                SetPx (lit "top") (maxQ 10 (rectTop rect - 45));
                SetPx (lit "left") (maxQ 10 (rectLeft rect + 8)) ]
              true (lettaListener a) (lettaKeyListener a))
           kids
  | Text d => Text d
  end.

Definition mountPerplexityButton (e : Engine) : Result (bool * Engine) :=
  studio ← queryR e (litq "div[data-testid=`search-mode-studio`]");
  group ← match studio with
          | Some st => closestR e st (litq "[role=`radiogroup`]")
          | None => Ok None
          end;
  match group with
  | Some g =>
      match parentElement g with
      | Some row =>
          let flex d :=
            styleAt (styleAt (styleAt d row (SetProp (lit "display") (lit "flex")))
                             row (SetProp (lit "alignItems") (lit "center")))
                    row (SetProp (lit "gap") (lit "8px")) in
          Ok (true, mountWith e id (fun d root => flex (insertAfter d g root)))
      | None =>
          (* the group is the document element: the insertion is refused *)
          Throws (snd (createLettaButton e))
      end
  | None =>
      controlsRow ← queryR e (lit "div.gap-xs.flex.items-center");
      match controlsRow with
      | Some cr => Ok (true, mountWith e id (fun d root => appendChild d cr root))
      | None =>
          inputEl ← firstQuery e
                      [ litq "div#ask-input[contenteditable=`true`]";
                        lit "textarea#ask-input";
                        litq "div[contenteditable=`true`][aria-placeholder^=`Ask`]";
                        litq "textarea[placeholder^=`Ask`]";
                        lit "textarea" ];
          match inputEl with
          | Some ie =>
              match flexAncestor (edoc e) ie with
              | Some current =>
                  Ok (true, mountWith e id
                              (fun d root =>
                                 styleAt (prependChild d current root) current
                                         (AppendCssText (lit "display: flex !important; align-items: center !important; gap: 8px !important;"))))
              | None =>
                  let '(root, button, e) := createLettaButton e in
                  let root := floatingRoot (boundingRect B (edoc e) ie) root in
                  let owner := Some (pred button) in
                  let e := emitE (emitE e (WindowListenerAdded owner (lit "scroll")))
                                 (WindowListenerAdded owner (lit "resize")) in
                  match documentBody (edoc e) with
                  | Some body =>
                      Ok (true, setButtonHost (setDoc e (appendChild (edoc e) body root))
                                              (Some button))
                  | None => Throws e
                  end
              end
          | None => Ok (false, e)
          end
      end
  end.

Definition mountGenericButton (e : Engine) : Result (bool * Engine) :=
  let sendButton := getSendButton B (epage e) (platform e) in
  match sendButton, sendButton ≫= parentElement with
  | Some sb, Some _ => Ok (true, mountWith e id (fun d root => insertBefore d sb root))
  | _, _ =>
      anchor ← getAnchor e (platform e);
      match anchor with
      | Some a => Ok (true, mountWith e id (fun d root => appendChild d a root))
      | None => Ok (false, e)
      end
  end.

(** The test both [mountButtonOnEditor] and the watcher make: is the icon button
    or the floating container in the document. *)
Definition controlPresent (d : Node) : bool :=
  bool_decide (is_Some (getElementById d ICON_BUTTON_ID))
  || bool_decide (is_Some (getElementById d FLOATING_ID)).

(** [startButtonWatcher]: the observer is created, then attached to
    [document.body] (a [TypeError] when there is none), then the interval is
    set. *)
Definition startButtonWatcher (e : Engine) : Result Engine :=
  let e := setWatcher e (buttonWatcherStarted e) true (buttonWatcherInterval e) in
  match documentBody (edoc e) with
  | Some _ => Ok (setWatcher e (buttonWatcherStarted e) true true)
  | None => Throws e
  end.

Definition mountButtonOnEditor (e : Engine) : Result Engine :=
  if controlPresent (edoc e) then Ok e
  else
    let e := match buttonHost e with Some _ => removeUI e | None => e end in
    '(success, e) ← match platform e with
                    | Some chatgpt => mountChatGPTButton e
                    | Some claude => mountClaudeButton e
                    | Some gemini => mountGeminiButton e
                    | Some perplexity => mountPerplexityButton e
                    | None => mountGenericButton e
                    end;
    let e := if success : bool then e else setTimeout e TaskMount 1000 in
    if buttonWatcherStarted e then Ok e
    else startButtonWatcher
           (setWatcher e true (mutationObserver e) (buttonWatcherInterval e)).

(** The callback of the mutation observer and of the 2000 ms interval. *)
Definition watcherTick (e : Engine) : Result Engine :=
  if negb (controlPresent (edoc e)) then
    let e := match buttonHost e with Some _ => removeUI e | None => e end in
    mountButtonOnEditor e
  else Ok e.

Definition markListener (a : Attrs) : Attrs :=
  mkAttrs (serial a) (tagName a) (idAttr a) (classList a) (contentEditable a)
          (attributes a) (value a) (valueDirty a) (styleWrites a) (hasCleanup a) true
          (lettaKeyListener a).

Definition markKeyListener (a : Attrs) : Attrs :=
  mkAttrs (serial a) (tagName a) (idAttr a) (classList a) (contentEditable a)
          (attributes a) (value a) (valueDirty a) (styleWrites a) (hasCleanup a)
          (lettaListener a) true.

Definition addSendListeners (e : Engine) : Engine :=
  let e :=
    match getSendButton B (epage e) (platform e) with
    | Some sb =>
        match attrsAt (edoc e) sb with
        | Some a => if lettaListener a then e
                    else setDoc e (updateAt (mapAttrs markListener) (edoc e) sb)
        | None => e
        end
    | None => e
    end in
  match getTextarea B (epage e) (platform e) with
  | Some ta =>
      match attrsAt (edoc e) ta with
      | Some a => if lettaKeyListener a then e
                  else setDoc e (updateAt (mapAttrs markKeyListener) (edoc e) ta)
      | None => e
      end
  | None => e
  end.

(** *** Message capture *)

Definition MESSAGE_SELECTORS (p : Platform) : jsstring * jsstring :=
  match p with
  | chatgpt => (lit "[data-message-author-role='user']",
                lit "[data-message-author-role='assistant']")
  | claude => (lit ".font-user-message", lit ".font-claude-message")
  | gemini => (lit ".query-content, .user-query",
               lit ".model-response-text, .response-container")
  | perplexity => (lit "[data-testid='user-message'], .prose.user",
                   lit "[data-testid='assistant-message'], .prose:not(.user)")
  end.

(** The comparator handed to [sort]: [-1] when [b] follows [a] in the document
    (which includes [b] inside [a]), [1] when it precedes, [0] for the same
    element. *)
Fixpoint comparePosition (a b : path) : Z :=
  match a, b with
  | [], [] => 0
  | [], _ :: _ => -1
  | _ :: _, [] => 1
  | i :: a', j :: b' =>
      if (i <? j)%nat then -1
      else if (j <? i)%nat then 1
      else comparePosition a' b'
  end.

(** [Array.prototype.sort] with a comparator: a stable sort. *)
Fixpoint insertSorted {A} (cmp : A -> A -> Z) (x : A) (l : list A) : list A :=
  match l with
  | [] => [x]
  | y :: l' => if cmp x y >? 0 then y :: insertSorted cmp x l' else x :: y :: l'
  end.

Definition sortBy {A} (cmp : A -> A -> Z) (l : list A) : list A :=
  fold_right (insertSorted cmp) [] l.

Definition messageOf (d : Node) (x : path * Role) : option ChatMessage :=
  let content := match nodeAt d (fst x) with
                 | Some n => trim (textContent n)
                 | None => []
                 end in
  if truthy content then Some (mkChat (snd x) (slice content 0 500)) else None.

Definition getRecentMessages (e : Engine) (count : Z) : Result (list ChatMessage) :=
  match platform e with
  | None => Ok []
  | Some p =>
      let selectors := MESSAGE_SELECTORS p in
      match querySelectorAll B (edoc e) (fst selectors) with
      | None => Throws e
      | Some userElements =>
          match querySelectorAll B (edoc e) (snd selectors) with
          | None => Throws e
          | Some assistantElements =>
              let allElements :=
                List.map (fun el => (el, user)) userElements
                ++ List.map (fun el => (el, assistant)) assistantElements in
              let allElements :=
                sortBy (fun a b => comparePosition (fst a) (fst b)) allElements in
              let recent := sliceFrom allElements (- count) in
              Ok (omap (messageOf (edoc e)) recent)
          end
      end
  end.

Definition syncToBackground (e : Engine) (now : Z) (userMessage : jsstring)
    (context : list ChatMessage) : Engine :=
  send e (mkPayload userMessage (Some context) now (href (epage e))).

Definition captureAndSync (e : Engine) (now : Z) : Result Engine :=
  let message := extractUserMessage B (epage e) in
  let message := if truthy message then message else inputValueCopy e in
  if negb (truthy (trim message)) then Ok e
  else
    context ← getRecentMessages e 2;
    Ok (setInputValueCopy (syncToBackground e now (trim message) context) []).

(** *** URL monitoring *)

(** The callback of the 500 ms interval set by [setupUrlMonitoring]. *)
Definition urlTick (e : Engine) : Engine :=
  if bool_decide (href (epage e) ≠ lastUrl e) then
    let e := setLastUrl e (href (epage e)) in
    let e := removeUI e in
    let e := setInj e (resetInjectionState (inj e)) in
    setTimeout e TaskRemount 500
  else e.

Definition runTask (e : Engine) (t : Task) : Result Engine :=
  match t with
  | TaskMount => mountButtonOnEditor e
  | TaskRemount => e ← mountButtonOnEditor e; Ok (addSendListeners e)
  end.

End UniversalInjector.

(* ------------------------------------------------------------------------- *)
(** ** background.ts *)
(* ------------------------------------------------------------------------- *)

Module Background.

Definition SYNC_COOLDOWN_MS : Z := 2000.

Definition CONTEXT_PATTERNS : list jsstring :=
  [ lit "<memory>";
    lit "<user_context>";
    lit "LETTA MEMORY CONTEXT";
    [55358%N; 56800%N] ++ lit " Letta";   (* U+1F9E0 as its surrogate pair *)
    lit "[persona]";
    lit "[human]" ].

Record Settings : Type := mkSettings {
  apiKey : jsstring;
  agentId : jsstring;
  captureTargets : list Platform
}.

Record State : Type := mkState {
  lastSyncTime : Z;
  lastCapturedHash : option jsstring
}.

Record Response : Type := mkResponse {
  success : bool;
  error : option jsstring
}.

(** A request handed to [LettaAPIService.captureMessages]. *)
Record Capture : Type := mkCapture {
  captureKey : jsstring;
  captureAgent : jsstring;
  captureMessages : list ChatMessage;
  capturePlatform : Platform
}.

Definition detectPlatform (url : jsstring) : option Platform :=
  if negb (truthy url) then None
  else if includes (lit "chatgpt.com") url || includes (lit "chat.openai.com") url
  then Some chatgpt
  else if includes (lit "claude.ai") url then Some claude
  else if includes (lit "perplexity.ai") url then Some perplexity
  else if includes (lit "gemini.google.com") url then Some gemini
  else None.

Definition fail (msg : string) : Response := mkResponse false (Some (lit msg)).

(** [handleSync] runs in three stretches separated by its two [await]s; other
    invocations may run in between, so each stretch reads the module state as it
    is when the stretch starts. *)

(** Up to [await getSettings()]: [None] when the function goes on. *)
Definition rateCheck (st : State) (now : Z) : option Response :=
  if now - lastSyncTime st <? SYNC_COOLDOWN_MS then Some (fail "Rate limited")
  else None.

(** From the settings to [await apiService.captureMessages(...)]: either a
    response, or the request to make and the hash to remember on success. *)
Definition validate (st : State) (now : Z) (settings : Settings) (payload : SyncPayload)
    : (Response + Capture * jsstring) * State :=
  if negb (truthy (apiKey settings)) || negb (truthy (agentId settings))
  then (inl (fail "Not configured"), st)
  else
    match detectPlatform (url payload) with
    | None => (inl (fail "Unknown platform"), st)
    | Some platform =>
        if negb (bool_decide (platform ∈ captureTargets settings))
        then (inl (fail "Capture disabled"), st)
        else if existsb (fun pattern => includes pattern (userMessage payload)) CONTEXT_PATTERNS
        then (inl (fail "Contains Letta context"), st)
        else if negb (truthy (trim (userMessage payload)))
        then (inl (fail "Empty message"), st)
        else
          let msgHash := slice (userMessage payload) 0 200 in
          if bool_decide (Some msgHash = lastCapturedHash st)
          then (inl (fail "Duplicate message"), st)
          else
            let st := mkState now (lastCapturedHash st) in
            let messages :=
              match context payload with Some c => c | None => [] end
              ++ [mkChat user (userMessage payload)] in
            (inr (mkCapture (apiKey settings) (agentId settings) messages platform, msgHash),
             st)
    end.

(** After the remote call: [None] when it returned, the message of the error it
    threw otherwise. *)
Definition afterCapture (st : State) (msgHash : jsstring) (thrown : option jsstring)
    : Response * State :=
  match thrown with
  | None => (mkResponse true None, mkState (lastSyncTime st) (Some msgHash))
  | Some message => (mkResponse false (Some message), st)
  end.

(** [handleSync] when no other invocation runs during its [await]s: the
    response, the remote calls made and the state left. *)
Definition handleSync (st : State) (now : Z) (settings : Settings) (payload : SyncPayload)
    (thrown : option jsstring) : Response * list Capture * State :=
  match rateCheck st now with
  | Some r => (r, [], st)
  | None =>
      match validate st now settings payload with
      | (inl r, st) => (r, [], st)
      | (inr (request, msgHash), st) =>
          let '(r, st) := afterCapture st msgHash thrown in
          (r, [request], st)
      end
  end.

End Background.

(* ------------------------------------------------------------------------- *)
(** ** Fixtures *)
(* ------------------------------------------------------------------------- *)

(** A small browser for the examples: an element matches exactly the selectors
    listed in its [match] attributes, every element is rendered 100 by 20 unless
    it carries a [hidden] attribute, its computed display is its [display]
    attribute, and [innerText] is the text content. *)
Module Fixture.

Definition matchesAttr (sel : jsstring) (d : Node) (p : path) : bool :=
  match attrsAt d p with
  | Some a => bool_decide ((lit "match", sel) ∈ attributes a)
  | None => false
  end.

Definition rectOf (d : Node) (p : path) : Rect :=
  match attrsAt d p with
  | Some a =>
      if bool_decide (is_Some (getAttribute a (lit "hidden")))
      then mkRect 0 0 0 0 else mkRect 300 40 100 20
  | None => mkRect 0 0 0 0
  end.

Definition styleOf (d : Node) (p : path) : jsstring * jsstring :=
  match attrsAt d p with
  | Some a =>
      (match getAttribute a (lit "display") with Some v => v | None => lit "block" end,
       lit "visible")
  | None => (lit "block", lit "visible")
  end.

Definition browser : Browser :=
  mkBrowser (fun _ => true) matchesAttr rectOf styleOf textContent (fun _ _ => []).

(** A host element of the given tag matching the given selectors. *)
Definition el (tag : string) (sels : list jsstring) (kids : list Node) : Node :=
  Elem (mkAttrs None (lit tag) [] [] (lit "inherit")
          (List.map (fun s => (lit "match", s)) sels) [] false [] false false false)
       kids.

(** A [textarea] the user has typed [v] into. *)
Definition textarea (sels : list jsstring) (v : jsstring) : Node :=
  Elem (mkAttrs None (lit "textarea") [] [] (lit "inherit")
          (List.map (fun s => (lit "match", s)) sels) v true [] false false false)
       [].

(** An [input] element holding [v]. *)
Definition input (sels : list jsstring) (v : jsstring) : Node :=
  Elem (mkAttrs None (lit "input") [] [] (lit "inherit")
          (List.map (fun s => (lit "match", s)) sels) v true [] false false false)
       [].

Definition document (bodyKids : list Node) : Node :=
  Elem (freshAttrs []) [el "html" [] [el "head" [] []; el "body" [] bodyKids]].

Definition pageOf (host : string) (bodyKids : list Node) : Page :=
  mkPage (lit host) (lit "https://" ++ lit host ++ lit "/") (document bodyKids) [].

Definition facts : MemoryBlock := mkBlock [] (lit "facts") (lit "Uses a laptop").

(** ChatGPT with an editor that is a plain text field. *)
Definition chatPage (v : jsstring) : Page :=
  pageOf "chatgpt.com"
    [el "form" [] [textarea [lit "#prompt-textarea"; lit "textarea"] v;
                   el "button" [lit "#composer-submit-button"] []]].

(** ChatGPT with an editor that is an [input] element (it carries the id the
    first selector of the list asks for). *)
Definition inputPage (v : jsstring) : Page :=
  pageOf "chatgpt.com" [el "form" [] [input [lit "#prompt-textarea"] v]].

Definition engineOf (pg : Page) (plat : option Platform) : Engine :=
  mkEngine (mkInjector pg ∅) plat None [] 0 [] false false false (href pg) [] [].

Definition userSel : jsstring := lit "[data-message-author-role='user']".
Definition assistantSel : jsstring := lit "[data-message-author-role='assistant']".

(** A ChatGPT conversation of four turns with [hello] typed in the editor. *)
Definition conversation : Page :=
  pageOf "chatgpt.com"
    [el "div" [userSel] [Text (lit "first question")];
     el "div" [assistantSel] [Text (lit "first answer")];
     el "div" [userSel] [Text (lit "  second question ")];
     el "div" [assistantSel] [Text (concat (replicate 60 (lit "0123456789")))];
     el "form" [] [textarea [lit "#prompt-textarea"; lit "textarea"] (lit "hello");
                   el "button" [lit "#composer-submit-button"] []]].

Definition afterCapture : Engine :=
  match captureAndSync browser (engineOf conversation (Some chatgpt)) 1700000000000 with
  | Ok e => e
  | Throws e => e
  end.

(** A supported page on which nothing the mounting strategies look for exists. *)
Definition bare : Page := pageOf "chatgpt.com" [el "div" [] [Text (lit "loading")]].

(** Perplexity with nothing but its input: the strategy falls back to the
    floating container. *)
Definition askPage : Page :=
  pageOf "www.perplexity.ai" [el "div" [] [textarea [lit "textarea#ask-input"] []]].

Definition mountOnce (e : Engine) : Engine :=
  match mountButtonOnEditor browser e with
  | Ok e' => e'
  | Throws e' => e'
  end.

(** The conversation view replaced, on navigation, by a view that is still
    loading. *)
Definition loadingView : Node := document [el "div" [] [Text (lit "loading")]].

End Fixture.

(* ------------------------------------------------------------------------- *)
(** ** Vocabulary of the statements *)
(* ------------------------------------------------------------------------- *)

(** The lines of a text, each followed by the separator. *)
Definition terminated (c : N) (ps : list jsstring) : jsstring :=
  concat (List.map (fun p => p ++ [c]) ps).

(** The lines one block contributes to the injected text. *)
Definition section (m : MemoryBlock) : list jsstring :=
  if truthy (trim (orElse (blockValue m) []))
  then [lit "[" ++ orElse (blockLabel m) (lit "Memory") ++ lit "]";
        orElse (blockValue m) []; []]
  else [].

Definition markerFree (s : jsstring) : Prop :=
  includes MEMORY_HEADER s = false /\ includes MEMORY_FOOTER s = false.


Definition scenarioWritten : jsstring :=
  MEMORY_HEADER ++ nl ++ nl ++ lit "[facts]" ++ nl ++ lit "Uses a laptop" ++ nl ++ nl
  ++ MEMORY_FOOTER ++ nl.

(** A [textarea] that is not content-editable and is no ProseMirror root: on a
    platform other than Claude it is written and read through its value. *)
Definition plainTextarea (a : Attrs) : Prop :=
  tagName a = lit "textarea"
  /\ isContentEditable a = false
  /\ (lit "ProseMirror" ∉ classList a).

(** The editors on which [setInputValue] ends in [setTextareaValue] with an
    element that is no [textarea]: an [input] element that is not
    content-editable, on a page of a platform other than Claude. *)
Definition inputField (pg : Page) (a : Attrs) : Prop :=
  detectPlatform pg <> Some claude
  /\ isContentEditable a = false
  /\ tagName a = lit "input".

(** The occurrences of a needle, by exhaustive search over the start indices. *)
Definition noOccurrenceFrom (n s : jsstring) (k : nat) : bool :=
  forallb (fun j => negb (startsWith n (drop j s))) (seq k (S (length s) - k)).

Definition malformedPage : Page :=
  Fixture.chatPage (MEMORY_HEADER ++ nl ++ lit "[facts]" ++ nl ++ lit "x").

Section Vocabulary.

Context (B : Browser).

(** Present and visible: non-zero rendered width and height, computed display
    not [none], computed visibility not [hidden]. *)
Definition Visible (d : Node) (el : path) : Prop :=
  (0 < rectWidth (boundingRect B d el))%Q
  /\ (0 < rectHeight (boundingRect B d el))%Q
  /\ fst (computedStyle B d el) <> lit "none"
  /\ snd (computedStyle B d el) <> lit "hidden".

(** A selector is passed over when the query throws, finds nothing, or finds an
    element that is not visible. *)
Definition Rejected (d : Node) (sel : jsstring) : Prop :=
  forall el, querySelector B d sel = QElem el -> ~ Visible d el.

(** What the loop over an ordered selector list returns, and which selectors it
    evaluated. *)
Inductive Located (d : Node) (sels : list jsstring) : option path * list jsstring -> Prop :=
| located_first (pre post : list jsstring) (sel : jsstring) (el : path) :
    sels = pre ++ sel :: post ->
    Forall (Rejected d) pre ->
    querySelector B d sel = QElem el ->
    Visible d el ->
    Located d sels (Some el, pre ++ [sel])
| located_none :
    Forall (Rejected d) sels ->
    Located d sels (None, sels).




End Vocabulary.

Arguments located_first {B d sels}.
Arguments located_none {B d sels}.


(** Induction on a document tree, with the hypothesis for every child. *)
Fixpoint Node_ind' (P : Node -> Prop)
    (HT : forall d, P (Text d))
    (HE : forall a kids, Forall P kids -> P (Elem a kids))
    (n : Node) {struct n} : P n :=
  match n with
  | Text d => HT d
  | Elem a kids =>
      HE a kids
         ((fix go (ks : list Node) : Forall P ks :=
             match ks with
             | [] => @List.Forall_nil _ P
             | k :: ks' => @List.Forall_cons _ P k ks' (Node_ind' P HT HE k) (go ks')
             end) kids)
  end.

(** The number of elements of a subtree whose attributes satisfy [P]. *)
Fixpoint count (P : Attrs -> bool) (n : Node) : nat :=
  match n with
  | Text _ => 0%nat
  | Elem a kids => ((if P a then 1 else 0) + list_sum (List.map (count P) kids))%nat
  end.

(** The same for the elements of the document (the root is no element). *)
Definition countDoc (P : Attrs -> bool) (d : Node) : nat :=
  match d with
  | Text _ => 0%nat
  | Elem _ kids => list_sum (List.map (count P) kids)
  end.

Definition isIcon (a : Attrs) : bool := eqb (idAttr a) ICON_BUTTON_ID.
Definition isFloating (a : Attrs) : bool := eqb (idAttr a) FLOATING_ID.
Definition hasSerial (s : nat) (a : Attrs) : bool := bool_decide (serial a = Some s).

(** The number of controls (icon buttons) present in the document. *)
Definition controls (d : Node) : nat := countDoc isIcon d.

(** No element of the tree carries an identity the engine has yet to hand out. *)
Fixpoint serialsBelow (n : nat) (t : Node) : bool :=
  match t with
  | Text _ => true
  | Elem a kids =>
      match serial a with Some s => (s <? n)%nat | None => true end
      && forallb (serialsBelow n) kids
  end.

Definition SerialsFresh (e : Engine) : Prop :=
  serialsBelow (nextSerial e) (edoc e) = true.

(** A path is that of an element of the document. *)
Definition ValidElem (d : Node) (p : path) : Prop :=
  p <> [] /\ exists a ks, nodeAt d p = Some (Elem a ks).

(** The test of a search among the elements of the document, on the attributes
    of the element at a position. *)
Definition testAt (d : Node) (P : Attrs -> bool) (p : path) : bool :=
  match attrsAt d p with
  | Some a => P a
  | None => false
  end.

(** A test on attributes that does not look at the inline style. *)
Definition StyleBlind (P : Attrs -> bool) : Prop :=
  forall w a, P (addStyle w a) = P a.

(** The wrapper made by [createLettaButton] with identity [s], possibly turned
    into the floating container. *)
Definition RootLike (s : nat) (root : Node) : Prop :=
  exists a, root = Elem a [lettaButton (S s)]
            /\ serial a = Some s
            /\ (idAttr a = [] \/ idAttr a = FLOATING_ID).

(** The edits a mounting strategy makes to the element it mounts into: the
    wrapper becomes one of its children, and styles are written to it. *)
Inductive Placement (root : Node) : (Node -> Node) -> Prop :=
| place_insert (i : nat) : Placement root (insertKid root i)
| place_append : Placement root (appendKid root)
| place_style (w : StyleWrite) (F : Node -> Node) :
    Placement root F -> Placement root (fun n => mapAttrs (addStyle w) (F n)).

(** The state a successful strategy leaves: two identities taken, the effects
    [fx] emitted, the new document, the button recorded. *)
Definition mountedState (e : Engine) (fx : list Effect) (d' : Node) : Engine :=
  setButtonHost
    (setDoc (fold_left emitE fx (setNextSerial e (S (S (nextSerial e))))) d')
    (Some (S (nextSerial e))).

Definition Mounted (e e' : Engine) : Prop :=
  exists par root F fx,
    ValidElem (edoc e) par
    /\ RootLike (nextSerial e) root
    /\ Placement root F
    /\ e' = mountedState e fx (updateAt F (edoc e) par).

(** What a mounting strategy returns: failure with the state untouched, or
    success with the control mounted. *)
Definition StrategyOk (e : Engine) (r : bool) (e' : Engine) : Prop :=
  (r = false /\ e' = e) \/ (r = true /\ Mounted e e').

(** No top-level node of the document has the identity [b]. *)
Definition TopFree (b : nat) (d : Node) : Prop :=
  forall j a ks, nodeAt d [j] = Some (Elem a ks) -> serial a <> Some b.

(** An icon button that is not the one with identity [b]. *)
Definition strayIcon (b : nat) (a : Attrs) : bool := isIcon a && negb (hasSerial b a).

(** The control in the document, if any, is the one the engine tracks: every
    icon button is the element [buttonHost] points to, which is one element and
    not a top-level node, and there is at most one floating container. *)
Definition Tracked (e : Engine) : Prop :=
  (countDoc isFloating (edoc e) <= 1)%nat
  /\ match buttonHost e with
     | Some b => countDoc (strayIcon b) (edoc e) = 0%nat
                 /\ (countDoc (hasSerial b) (edoc e) <= 1)%nat
                 /\ TopFree b (edoc e)
     | None => countDoc isIcon (edoc e) = 0%nat
     end.

(** The page address changes (client-side navigation). *)
Definition navigate (e : Engine) (address : jsstring) : Engine :=
  setPage e (mkPage (hostname (epage e)) address (edoc e) (effects (epage e))).


(** The identity of a node, when it is an element that has one. *)
Definition nodeSerial (n : Node) : option nat :=
  match n with
  | Elem a _ => serial a
  | Text _ => None
  end.


(** The first half of [removeUI]: the floating container found by its id. *)
Definition removeFloating (e : Engine) : Engine :=
  match getElementById (edoc e) FLOATING_ID with
  | Some floatCont =>
      match nodeAt (edoc e) floatCont with
      | Some (Elem a _ as c) => detach (runCleanup e a) floatCont c
      | _ => e
      end
  | None => e
  end.


(** The state [mountButtonOnEditor] hands to the platform strategy. *)
Definition beforeMount (e : Engine) : Engine :=
  match buttonHost e with
  | Some _ => removeUI e
  | None => e
  end.

(* ------------------------------------------------------------------------- *)
(** ** Further functions of the injection module and of the content script *)
(* ------------------------------------------------------------------------- *)

Section SendPath.

Context (B : Browser).

(* utils/memory-injection.ts *)
Definition hasMemoriesInjected (pg : Page) : bool :=
  match getTextarea B pg None with
  | None => false
  | Some textarea => includes MEMORY_HEADER (getInputValue B pg (Some textarea))
  end.

(* universal-injector.ts *)

(** The callback [handleSend] and [handleKeydown] hand to [setTimeout]:
    [captureAndSync(); clearMemoriesFromInput()].  An exception raised by the
    capture leaves the editor as it is; one raised by the clearing leaves the
    state the capture reached. *)
Definition sendCallback (e : Engine) (now : Z) : Result Engine :=
  e ← captureAndSync B e now;
  match clearMemoriesFromInput B (inj e) with
  | Returned i => Ok (setInj e i)
  | TypeError => Throws e
  end.

(** [handleSend] and [handleKeydown]: the state they leave, and the delays of
    the timers they set for [sendCallback]. *)
Definition handleSend (e : Engine) : Engine * list Z :=
  let e := setInputValueCopy e (extractUserMessage B (epage e)) in
  (e, [100]).

Definition handleKeydown (e : Engine) (key : jsstring) (shiftKey : bool) : Engine * list Z :=
  let e := setInputValueCopy e (extractUserMessage B (epage e)) in
  if eqb key (lit "Enter") && negb shiftKey then (e, [100]) else (e, []).

End SendPath.

(* ------------------------------------------------------------------------- *)
(** ** Vocabulary of the further statements *)
(* ------------------------------------------------------------------------- *)

(** The entity written for one code unit by the three chained replacements of
    [setClaudeInputValue]. *)
Definition escapeChar (c : N) : jsstring :=
  if N.eqb c 38 then lit "&amp;"
  else if N.eqb c 60 then lit "&lt;"
  else if N.eqb c 62 then lit "&gt;"
  else [c].

(** The lines of a value that are not blank, one after the other with nothing
    between them. *)
Definition shownLines (v : jsstring) : jsstring :=
  concat (List.map (fun line => if eqb (trim line) [] then [] else line) (splitLines v)).

(** A string without carriage return: what a [textarea] reads back as it was
    written. *)
Definition crFree (s : jsstring) : Prop := 13%N ∉ s.

(** A content-editable element that is neither a ProseMirror root nor a
    paragraph. *)
Definition richField (a : Attrs) : Prop :=
  isContentEditable a = true
  /\ (lit "ProseMirror" ∉ classList a)
  /\ tagName a <> lit "p".

(** The memory entry [addSingleMemory] splices in, as lines. *)
Definition entryLines (m : MemoryBlock) : list jsstring :=
  [[]; lit "[" ++ orElse (blockLabel m) (lit "Memory") ++ lit "]"; orElse (blockValue m) []].

(** The text one block with a non-blank value contributes to the injected
    block: the bracketed label, the value and an empty line. *)
Definition sectionText (m : MemoryBlock) : jsstring :=
  lit "[" ++ orElse (blockLabel m) (lit "Memory") ++ lit "]" ++ nl
  ++ blockValue m ++ nl ++ nl.

Definition nonBlank (m : MemoryBlock) : bool := truthy (trim (blockValue m)).

(** Inline styles written one after the other. *)
Definition addStyles (ws : list StyleWrite) (a : Attrs) : Attrs :=
  fold_left (fun a w => addStyle w a) ws a.

(** The two window listeners the floating fallback registers, and the two
    removals its teardown closure makes. *)
Definition listenersAdded (owner : option nat) : list Effect :=
  [WindowListenerAdded owner (lit "scroll"); WindowListenerAdded owner (lit "resize")].

Definition listenersRemoved (owner : option nat) : list Effect :=
  [WindowListenerRemoved owner (lit "scroll"); WindowListenerRemoved owner (lit "resize")].

(** The state the floating fallback of [mountPerplexityButton] leaves: the
    wrapper, turned into the floating container placed from the rectangle of
    the input [ie], is the last child of [body]. *)
Definition floatingState (B : Browser) (e : Engine) (body ie : path) : Engine :=
  mountedState e (listenersAdded (Some (nextSerial e)))
    (updateAt
       (appendKid (floatingRoot (boundingRect B (edoc e) ie)
                     (lettaRoot (nextSerial e) (lettaButton (S (nextSerial e))))))
       (edoc e) body).

(* ------------------------------------------------------------------------- *)
(** ** utils/storage.ts *)
(* ------------------------------------------------------------------------- *)

Module Storage.

(** The values the settings hold. *)
Inductive Json : Type :=
| JStr (s : jsstring)
| JNum (n : Z)
| JBool (b : bool)
| JList (l : list jsstring).

(** An object is the map of its own properties by name,
    [gmap (list N) Json]. *)

(** [{ ...a, ...b }] *)
Definition spread (a b : gmap (list N) Json) : gmap (list N) Json := b ∪ a.

Definition SETTINGS_KEY : jsstring := lit "letta_settings".

(* constants.ts: the labels of DEFAULT_MEMORY_BLOCKS *)
Definition DEFAULT_ENABLED_BLOCKS : list jsstring :=
  [lit "user_context"; lit "active_topics"; lit "facts"; lit "conversation_patterns"].

(* types.ts *)
Definition DEFAULT_SETTINGS : gmap (list N) Json :=
  list_to_map
    [ (lit "apiKey", JStr []);
      (lit "baseUrl", JStr (lit "https://api.letta.com"));
      (lit "agentId", JStr []);
      (lit "agentName", JStr []);
      (lit "captureTargets", JList [lit "chatgpt"]);
      (lit "autoInject", JBool true);
      (lit "injectPosition", JStr (lit "before"));
      (lit "maxContextLength", JNum 2000);
      (lit "enabledBlocks", JList DEFAULT_ENABLED_BLOCKS);
      (lit "sleeptimeFrequency", JNum 5);
      (lit "debug", JBool false) ].

(** [chrome.storage.sync] and [chrome.storage.local].  The callbacks of the
    storage calls run in the order the calls are made; each function below is
    the state change of one call that runs to its end alone. *)
Record Store : Type := mkStore {
  sync : gmap (list N) (gmap (list N) Json);
  local : gmap (list N) Json
}.

Definition getSettings (st : Store) : gmap (list N) Json :=
  let stored := match sync st !! SETTINGS_KEY with Some o => o | None => ∅ end in
  spread DEFAULT_SETTINGS stored.

Definition saveSettings (st : Store) (updates : gmap (list N) Json)
    : gmap (list N) Json * Store :=
  let current := getSettings st in
  let updated := spread current updates in
  (updated, mkStore (<[SETTINGS_KEY := updated]> (sync st)) (local st)).

Definition resetSettings (st : Store) : gmap (list N) Json * Store :=
  (DEFAULT_SETTINGS, mkStore (<[SETTINGS_KEY := DEFAULT_SETTINGS]> (sync st)) (local st)).

Definition clearAllExtensionData (st : Store) : Store :=
  mkStore (delete SETTINGS_KEY (sync st)) (delete (lit "onboardingComplete") (local st)).

(** The object [exportSettings] hands to [JSON.stringify]. *)
Definition exportSettings (st : Store) : gmap (list N) Json :=
  let settings := getSettings st in
  spread settings {[ lit "apiKey" := JStr [] ]}.

(** The legacy view (types.ts, [StoredData]): a field is [None] where the
    property is [undefined]. *)
Record StoredData : Type := mkStored {
  lettaApiKey : option Json;
  agentId : option Json;
  agentName : option Json;
  messageInterval : option Json;
  selectedBlocks : option Json
}.

(** The object returned has no [messageInterval] property. *)
Definition getStoredData (st : Store) : StoredData :=
  let settings := getSettings st in
  mkStored (settings !! lit "apiKey") (settings !! lit "agentId")
           (settings !! lit "agentName") None (settings !! lit "enabledBlocks").

Definition setField (name : jsstring) (v : option Json) (updates : gmap (list N) Json)
    : gmap (list N) Json :=
  match v with
  | Some v => <[name := v]> updates
  | None => updates
  end.

(** [data.messageInterval] is not read. *)
Definition setStoredData (st : Store) (data : StoredData) : Store :=
  let updates := ∅ in
  let updates := setField (lit "apiKey") (lettaApiKey data) updates in
  let updates := setField (lit "agentId") (agentId data) updates in
  let updates := setField (lit "agentName") (agentName data) updates in
  let updates := setField (lit "enabledBlocks") (selectedBlocks data) updates in
  snd (saveSettings st updates).

(** A field after an update that may leave it undefined. *)
Definition orKeep (new old : option Json) : option Json :=
  match new with Some v => Some v | None => old end.

Definition resetField (keys : list jsstring) (key name : jsstring) (v : Json)
    (updates : gmap (list N) Json) : gmap (list N) Json :=
  if bool_decide (key ∈ keys) then <[name := v]> updates else updates.

Definition removeStoredData (st : Store) (keys : list jsstring) : Store :=
  let updates := ∅ in
  let updates := resetField keys (lit "lettaApiKey") (lit "apiKey") (JStr []) updates in
  let updates := resetField keys (lit "agentId") (lit "agentId") (JStr []) updates in
  let updates := resetField keys (lit "agentName") (lit "agentName") (JStr []) updates in
  let updates := resetField keys (lit "selectedBlocks") (lit "enabledBlocks") (JList [])
                   updates in
  snd (saveSettings st updates).

End Storage.

(* ------------------------------------------------------------------------- *)
(** ** Further fixtures *)
(* ------------------------------------------------------------------------- *)

Module Sample.

Definition topic : MemoryBlock := mkBlock (lit "b2") (lit "topics") (lit "Rocq").

(** The ChatGPT page whose plain text field holds the text, and the state of
    the injection module on it. *)
Definition typed (v : jsstring) : Injector := mkInjector (Fixture.chatPage v) ∅.

(** The same with a block already in the field, in front of [ hello]. *)
Definition injected : Injector :=
  typed (formatMemoriesForInjection [Fixture.facts] ++ lit " hello").

(** The state [injectMemories] leaves on the empty field for [topic]. *)
Definition afterInject : Injector :=
  match injectMemories Fixture.browser (typed []) [topic] with
  | Returned (_, st') => st'
  | TypeError => typed []
  end.

(** The attributes of the text field of [Fixture.chatPage]. *)
Definition field (v : jsstring) : Attrs :=
  match attrsAt (doc (Fixture.chatPage v)) [0; 1; 0; 0]%nat with
  | Some a => a
  | None => freshAttrs []
  end.

(** A content-editable [div] on a Gemini page. *)
Definition editableAttrs : Attrs :=
  mkAttrs None (lit "div") [] [] (lit "true") [] [] false [] false false false.

Definition richPage : Page :=
  Fixture.pageOf "gemini.google.com" [Elem editableAttrs []].

(** The state the ChatGPT strategy leaves on [Fixture.chatPage]. *)
Definition placed : Engine :=
  match mountChatGPTButton Fixture.browser
          (Fixture.engineOf (Fixture.chatPage []) (Some chatgpt)) with
  | Ok (_, e') => e'
  | Throws e' => e'
  end.

Definition settings : Background.Settings :=
  Background.mkSettings (lit "key") (lit "agent-1") [chatgpt].

Definition payload : SyncPayload :=
  mkPayload (lit "hello") None 5000 (lit "https://chatgpt.com/c/1").

Definition idle : Background.State := Background.mkState 0 None.

End Sample.

(* ------------------------------------------------------------------------- *)
(** ** Strings: searching and trimming *)
(* ------------------------------------------------------------------------- *)

Arguments lit : simpl never.
Arguments litq : simpl never.
Arguments MEMORY_HEADER : simpl never.
Arguments MEMORY_FOOTER : simpl never.

Section StringFacts.

Implicit Types (n p s x z : jsstring) (c : N).

Lemma eqb_refl s : eqb s s = true.
Proof. unfold eqb. by apply bool_decide_eq_true_2. Qed.

Lemma eqb_eq s z : eqb s z = true <-> s = z.
Proof. unfold eqb. apply bool_decide_eq_true. Qed.

Lemma startsWith_app n s : startsWith n (n ++ s) = true.
Proof.
  induction n as [|a n IH]; simpl; [done|].
  by rewrite N.eqb_refl.
Qed.

Lemma startsWith_nil_r n : n ≠ [] -> startsWith n [] = false.
Proof. by destruct n. Qed.

(** A needle that starts in [y] and does not contain the separator [c] cannot
    run across it. *)
Lemma startsWith_before_sep n c y z :
  c ∉ n -> startsWith n (y ++ c :: z) = true -> startsWith n y = true.
Proof.
  revert y. induction n as [|a n IH]; intros y Hc H; [done|].
  destruct y as [|b y]; simpl in *.
  - apply andb_true_iff in H as [H _]. apply N.eqb_eq in H. subst.
    exfalso. apply Hc. left.
  - apply andb_true_iff in H as [H1 H2]. rewrite H1. simpl.
    apply IH; [|done]. intros ?. apply Hc. by right.
Qed.

Lemma indexOf_lower n s : -1 <= indexOf n s.
Proof.
  induction s as [|b s IH]; simpl.
  - destruct (startsWith n []); lia.
  - destruct (startsWith n (b :: s)); [lia|].
    destruct (indexOf n s <? 0) eqn:E; [lia|]. apply Z.ltb_ge in E. lia.
Qed.

Lemma indexOf_upper n s : indexOf n s <= Z.of_nat (length s).
Proof.
  induction s as [|b s IH]; simpl length.
  - simpl. destruct (startsWith n []); lia.
  - cbn [indexOf]. destruct (startsWith n (b :: s)); [lia|].
    destruct (indexOf n s <? 0) eqn:E; lia.
Qed.

Lemma indexOf_cons n b s :
  indexOf n (b :: s) =
  if startsWith n (b :: s) then 0
  else if indexOf n s <? 0 then -1 else indexOf n s + 1.
Proof. done. Qed.

Lemma indexOf_prefix n s : indexOf n (n ++ s) = 0.
Proof.
  pose proof (startsWith_app n s) as H.
  destruct (n ++ s) eqn:E; simpl; by rewrite H.
Qed.

Lemma includes_false n s : includes n s = false <-> indexOf n s = -1.
Proof.
  unfold includes. rewrite negb_false_iff. apply Z.eqb_eq.
Qed.

Lemma includes_true n s : includes n s = true <-> 0 <= indexOf n s.
Proof.
  unfold includes. rewrite negb_true_iff, Z.eqb_neq.
  pose proof (indexOf_lower n s). lia.
Qed.

Lemma includes_cons_false n b s :
  includes n (b :: s) = false -> startsWith n (b :: s) = false /\ includes n s = false.
Proof.
  rewrite !includes_false, indexOf_cons.
  pose proof (indexOf_lower n s).
  destruct (startsWith n (b :: s)); [lia|].
  destruct (indexOf n s <? 0) eqn:E; [|lia].
  apply Z.ltb_lt in E. split; [done|lia].
Qed.

(** Searching across a piece that holds no occurrence and the separator that
    follows it. *)
Lemma indexOf_skip_piece n c p z :
  n ≠ [] -> c ∉ n -> includes n p = false ->
  indexOf n (p ++ c :: z) =
  if indexOf n z <? 0 then -1 else Z.of_nat (length p) + 1 + indexOf n z.
Proof.
  intros Hn Hc. induction p as [|h p IH]; intros Hp.
  - simpl app. rewrite indexOf_cons.
    destruct (startsWith n (c :: z)) eqn:E.
    + destruct n as [|a n]; [done|]. simpl in E.
      apply andb_true_iff in E as [E _]. apply N.eqb_eq in E. subst.
      exfalso. apply Hc. left.
    + simpl length. destruct (indexOf n z <? 0); lia.
  - apply includes_cons_false in Hp as [Hs Hp].
    simpl app. rewrite indexOf_cons.
    destruct (startsWith n (h :: p ++ c :: z)) eqn:E.
    + apply (startsWith_before_sep n c (h :: p) z Hc) in E. congruence.
    + rewrite (IH Hp). simpl length.
      pose proof (indexOf_lower n z).
      destruct (indexOf n z <? 0) eqn:E2; [done|].
      apply Z.ltb_ge in E2.
      destruct (_ <? 0) eqn:E3; [apply Z.ltb_lt in E3; lia|lia].
Qed.

Lemma includes_piece_sep n c p z :
  n ≠ [] -> c ∉ n -> includes n p = false ->
  includes n (p ++ c :: z) = includes n z.
Proof.
  intros Hn Hc Hp. unfold includes.
  rewrite (indexOf_skip_piece n c p z Hn Hc Hp).
  pose proof (indexOf_lower n z).
  destruct (indexOf n z <? 0) eqn:E.
  - apply Z.ltb_lt in E. replace (indexOf n z) with (-1) by lia. done.
  - apply Z.ltb_ge in E.
    cbv iota.
    destruct (indexOf n z =? -1) eqn:E1; [apply Z.eqb_eq in E1; lia|].
    apply negb_true_iff, Z.eqb_neq. lia.
Qed.

Lemma indexOf_after_pieces n c ps rest :
  n ≠ [] -> c ∉ n -> Forall (fun p => includes n p = false) ps ->
  indexOf n (terminated c ps ++ n ++ rest) = Z.of_nat (length (terminated c ps)).
Proof.
  intros Hn Hc. induction 1 as [|p ps Hp Hps IH]; unfold terminated in *; simpl.
  - apply indexOf_prefix.
  - rewrite <- !app_assoc. simpl.
    rewrite (indexOf_skip_piece n c p _ Hn Hc Hp), IH.
    destruct (_ <? 0) eqn:E; [apply Z.ltb_lt in E; lia|].
    rewrite !length_app. simpl. lia.
Qed.

Lemma join_cons sep p (ps : list jsstring) :
  ps ≠ [] -> join sep (p :: ps) = p ++ sep ++ join sep ps.
Proof. by destruct ps. Qed.

Lemma join_snoc sep (ps : list jsstring) x :
  join sep (ps ++ [x]) = concat (List.map (fun p => p ++ sep) ps) ++ x.
Proof.
  induction ps as [|p ps IH]; [done|].
  simpl app. rewrite join_cons by (by destruct ps).
  rewrite IH. simpl. by rewrite <- !app_assoc.
Qed.

Lemma substring_0 s k :
  0 <= k <= Z.of_nat (length s) -> substring s 0 k = take (Z.to_nat k) s.
Proof.
  intros H. unfold substring, clamp. cbv zeta.
  set (L := Z.of_nat (length s)) in *.
  replace (Z.max 0 (Z.min 0 L)) with 0 by lia.
  replace (Z.max 0 (Z.min k L)) with k by lia.
  replace (Z.min 0 k) with 0 by lia.
  replace (Z.max 0 k) with k by lia.
  by rewrite Z.sub_0_r.
Qed.

Lemma substringFrom_drop s k :
  0 <= k <= Z.of_nat (length s) -> substringFrom s k = drop (Z.to_nat k) s.
Proof.
  intros H. unfold substringFrom, substring, clamp. cbv zeta.
  set (L := Z.of_nat (length s)) in *.
  replace (Z.max 0 (Z.min L L)) with L by lia.
  replace (Z.max 0 (Z.min k L)) with k by lia.
  replace (Z.min k L) with k by lia.
  replace (Z.max k L) with L by lia.
  apply take_ge. rewrite length_drop. lia.
Qed.

Lemma trim_white_cons c s : isWhite c = true -> trim (c :: s) = trim s.
Proof. intros H. unfold trim. simpl. by rewrite H. Qed.

End StringFacts.

(* ------------------------------------------------------------------------- *)
(** ** The marker protocol *)
(* ------------------------------------------------------------------------- *)

Lemma format_fold (ms : list MemoryBlock) (acc : list jsstring) :
  fold_left
    (fun lines memory =>
       let label := orElse (blockLabel memory) (lit "Memory") in
       let v := orElse (blockValue memory) [] in
       if truthy (trim v)
       then lines ++ [lit "[" ++ label ++ lit "]"; v; []]
       else lines) ms acc
  = acc ++ concat (List.map section ms).
Proof.
  revert acc. induction ms as [|m ms IH]; intros acc; simpl.
  - by rewrite app_nil_r.
  - rewrite IH. unfold section at 2.
    destruct (truthy _); simpl; [by rewrite <- app_assoc|done].
Qed.

Lemma terminated_app c (a b : list jsstring) :
  terminated c (a ++ b) = terminated c a ++ terminated c b.
Proof. unfold terminated. by rewrite List.map_app, concat_app. Qed.

(** The injected text: header, blank line, the sections, footer, each followed
    by a line break. *)
Lemma format_shape (ms : list MemoryBlock) :
  ms ≠ [] ->
  formatMemoriesForInjection ms
  = terminated NL ([MEMORY_HEADER; []] ++ concat (List.map section ms))
    ++ MEMORY_FOOTER ++ [NL].
Proof.
  intros Hms. unfold formatMemoriesForInjection.
  destruct ms as [|m ms]; [done|].
  cbv zeta. rewrite join_snoc, format_fold.
  change (concat (List.map (fun p => p ++ nl) ?l)) with (terminated NL l).
  rewrite app_nil_r, terminated_app.
  unfold terminated at 2. cbn [concat List.map].
  by rewrite !app_nil_r.
Qed.

Lemma footer_not_nil : MEMORY_FOOTER ≠ [].
Proof. done. Qed.

Lemma footer_no_char (c : N) :
  (c = NL \/ c = 91%N \/ c = 93%N) -> c ∉ MEMORY_FOOTER.
Proof.
  intros H Hin. apply list_elem_of_In in Hin.
  vm_compute in Hin. unfold NL in H. intuition subst; discriminate.
Qed.

Lemma section_no_footer (m : MemoryBlock) :
  includes MEMORY_FOOTER (blockLabel m) = false ->
  includes MEMORY_FOOTER (blockValue m) = false ->
  Forall (fun p => includes MEMORY_FOOTER p = false) (section m).
Proof.
  intros Hl Hv. unfold section. destruct (truthy _); [|constructor].
  apply Forall_cons_2; [|apply Forall_cons_2; [|apply Forall_cons_2; [|apply Forall_nil_2]]].
  - change (lit "[" ++ ?l ++ lit "]") with ([] ++ 91%N :: (l ++ 93%N :: [])).
    rewrite includes_piece_sep;
      [|apply footer_not_nil|apply footer_no_char; auto|done].
    rewrite includes_piece_sep;
      [done|apply footer_not_nil|apply footer_no_char; auto|].
    unfold orElse. by destruct (truthy (blockLabel m)).
  - unfold orElse. by destruct (truthy (blockValue m)).
  - done.
Qed.

Lemma pieces_no_footer (ms : list MemoryBlock) :
  Forall (fun m => includes MEMORY_FOOTER (blockLabel m) = false
                   /\ includes MEMORY_FOOTER (blockValue m) = false) ms ->
  Forall (fun p => includes MEMORY_FOOTER p = false)
         ([MEMORY_HEADER; []] ++ concat (List.map section ms)).
Proof.
  intros H. apply Forall_app. split.
  { apply Forall_cons_2; [done|apply Forall_cons_2; [done|apply Forall_nil_2]]. }
  induction H as [|m ms [Hl Hv] _ IH]; simpl; [constructor|].
  apply Forall_app. split; [by apply section_no_footer|done].
Qed.

Lemma terminated_cons c p (ps : list jsstring) :
  terminated c (p :: ps) = p ++ [c] ++ terminated c ps.
Proof. unfold terminated. cbn [List.map concat]. by rewrite <- app_assoc. Qed.

Lemma terminated_header_length (ps : list jsstring) :
  (0 < length (terminated NL ([MEMORY_HEADER; []] ++ ps)))%nat.
Proof.
  rewrite <- app_comm_cons, terminated_cons, !length_app. cbn [length]. lia.
Qed.

(** Stripping the markers from an injected block followed by any text gives the
    text, trimmed. *)
Lemma stripContent_format (ms : list MemoryBlock) (T : jsstring) :
  ms ≠ [] ->
  Forall (fun m => includes MEMORY_FOOTER (blockLabel m) = false
                   /\ includes MEMORY_FOOTER (blockValue m) = false) ms ->
  stripContent MEMORY_HEADER (formatMemoriesForInjection ms ++ T) = trim T.
Proof.
  intros Hms Hfree. rewrite (format_shape ms Hms).
  set (P := [MEMORY_HEADER; []] ++ concat (List.map section ms)).
  set (X := terminated NL P).
  assert (Hend : indexOf MEMORY_FOOTER ((X ++ MEMORY_FOOTER ++ [NL]) ++ T)
                 = Z.of_nat (length X)).
  { rewrite <- !app_assoc.
    apply indexOf_after_pieces;
      [apply footer_not_nil|apply footer_no_char; auto|by apply pieces_no_footer]. }
  assert (Hstart : indexOf MEMORY_HEADER ((X ++ MEMORY_FOOTER ++ [NL]) ++ T) = 0).
  { unfold X, P. rewrite <- app_comm_cons, terminated_cons, <- !app_assoc.
    apply indexOf_prefix. }
  assert (HX : (0 < length X)%nat) by apply terminated_header_length.
  unfold stripContent. cbv zeta.
  rewrite eqb_refl.
  rewrite Hstart, Hend. simpl negb.
  replace (Z.of_nat (length X) =? -1) with false by (symmetry; apply Z.eqb_neq; lia).
  replace (Z.of_nat (length X) >? 0) with true by (symmetry; apply Z.gtb_lt; lia).
  simpl andb. cbv iota.
  rewrite substring_0 by lia. simpl take.
  rewrite substringFrom_drop by (rewrite !length_app; cbn [length]; lia).
  rewrite <- Nat2Z.inj_add, Nat2Z.id, <- !app_assoc.
  assert (Hd : drop (length X + length MEMORY_FOOTER)
                    (X ++ MEMORY_FOOTER ++ [NL] ++ T) = NL :: T).
  { rewrite drop_app_add. by rewrite drop_app_length. }
  rewrite Hd. by apply trim_white_cons.
Qed.

Lemma stripContent_no_header (content : jsstring) :
  includes MEMORY_HEADER content = false ->
  stripContent MEMORY_HEADER content = trim content.
Proof.
  intros H. apply includes_false in H.
  unfold stripContent. cbv zeta. by rewrite eqb_refl, H.
Qed.

(** C1. For blocks whose labels and values hold no marker literal and a user
    text [T] holding none, the marker-based removal of
    [getContentWithoutMemories], applied to an editor whose content is
    [formatMemoriesForInjection blocks ++ T], returns [T.trim()]. *)
Theorem strip_splice_roundtrip (B : Browser) (pg : Page) (el : path)
    (blocks : list MemoryBlock) (T : jsstring) :
  Forall (fun m => markerFree (blockLabel m) /\ markerFree (blockValue m)) blocks ->
  markerFree T ->
  getTextarea B pg None = Some el ->
  getInputValue B pg (Some el) = formatMemoriesForInjection blocks ++ T ->
  getContentWithoutMemories B pg MEMORY_HEADER = trim T.
Proof.
  intros Hb [HT _] Hel Hv. unfold getContentWithoutMemories. rewrite Hel, Hv.
  destruct blocks as [|m ms].
  - simpl app. by apply stripContent_no_header.
  - apply stripContent_format; [done|].
    eapply Forall_impl; [exact Hb|]. intros x [[_ ?] [_ ?]]. done.
Qed.

Lemma strip_splice_roundtrip_witness :
  getContentWithoutMemories Fixture.browser
    (Fixture.chatPage (formatMemoriesForInjection [Fixture.facts] ++ lit "hello"))
    MEMORY_HEADER
  = trim (lit "hello").
Proof.
  apply (strip_splice_roundtrip Fixture.browser _ [0; 1; 0; 0]%nat
           [Fixture.facts] (lit "hello")).
  - apply Forall_cons_2; [|apply Forall_nil_2].
    split; split; vm_compute; reflexivity.
  - split; vm_compute; reflexivity.
  - vm_compute; reflexivity.
  - vm_compute; reflexivity.
Defined.

Lemma getTextarea_detected (B : Browser) (pg : Page) (p : Platform) :
  detectPlatform pg = Some p ->
  getTextarea B pg None = getTextarea B pg (Some p).
Proof. intros H. unfold getTextarea, getTextareaQ. by rewrite H. Qed.

Lemma nodeAt_updateAt (f : Node -> Node) (d : Node) (p : path) (n : Node) :
  nodeAt d p = Some n -> nodeAt (updateAt f d p) p = Some (f n).
Proof.
  revert d. induction p as [|i p IH]; intros d; simpl.
  - by intros [= ->].
  - destruct d as [|a kids]; [done|].
    destruct (kids !! i) as [k|] eqn:Hk; [|done].
    intros Hn. rewrite list_lookup_alter, Hk. simpl.
    rewrite decide_True by done. by apply IH.
Qed.

Lemma attrsAt_elem (d : Node) (p : path) (a : Attrs) :
  attrsAt d p = Some a -> exists kids, nodeAt d p = Some (Elem a kids).
Proof.
  unfold attrsAt. destruct (nodeAt d p) as [[|a' kids]|]; [done| |done].
  intros [= ->]. by exists kids.
Qed.

Lemma bind_returned {A C} (a : A) (k : A -> Outcome C) : (Returned a ≫= k) = k a.
Proof. done. Qed.

Lemma bind_raised {A C} (k : A -> Outcome C) : (TypeError ≫= k) = TypeError.
Proof. done. Qed.

Ltac rsimpl_outcome := repeat (rewrite ?bind_returned, ?bind_raised in *); cbv beta.

Lemma normalizeNewlines_cons (c : N) (rest : jsstring) :
  normalizeNewlines (c :: rest)
  = if N.eqb c 13 then
      match rest with
      | c' :: rest' =>
          if N.eqb c' 10 then NL :: normalizeNewlines rest'
          else NL :: normalizeNewlines rest
      | [] => [NL]
      end
    else c :: normalizeNewlines rest.
Proof. done. Qed.

Lemma normalizeNewlines_no_cr (s : jsstring) : 13%N ∉ normalizeNewlines s.
Proof.
  assert (H : forall n s, (length s <= n)%nat -> 13%N ∉ normalizeNewlines s).
  { clear s. induction n as [|n IH]; intros s Hlen.
    - destruct s; [apply not_elem_of_nil|simpl in Hlen; lia].
    - destruct s as [|c rest]; [apply not_elem_of_nil|]. simpl in Hlen.
      rewrite normalizeNewlines_cons.
      destruct (N.eqb c 13) eqn:Ec.
      + destruct rest as [|c' rest'].
        * intros [[=]|H]%elem_of_cons. by apply elem_of_nil in H.
        * simpl in Hlen. destruct (N.eqb c' 10);
            intros [[=]|H]%elem_of_cons; revert H; apply IH; simpl; lia.
      + apply N.eqb_neq in Ec. intros [Heq|H]%elem_of_cons; [congruence|].
        revert H. apply IH. lia. }
  by apply (H (length s)).
Qed.

Lemma normalizeNewlines_fixed (s : jsstring) : 13%N ∉ s -> normalizeNewlines s = s.
Proof.
  induction s as [|c rest IH]; [done|]. intros Hc.
  apply not_elem_of_cons in Hc as [Hc Hrest]. rewrite normalizeNewlines_cons.
  destruct (N.eqb c 13) eqn:Ec; [apply N.eqb_eq in Ec; congruence|].
  by rewrite IH.
Qed.

(** [setInputValue] raises exactly on an [input] element that is not
    content-editable, outside Claude. *)
Lemma setInputValue_raises (B : Browser) (pg : Page) (el : path) (a : Attrs) (v : jsstring) :
  attrsAt (doc pg) el = Some a ->
  setInputValue B pg el v = TypeError <-> inputField pg a.
Proof.
  intros Ha. unfold setInputValue, inputField. rewrite Ha. cbv zeta.
  destruct (decide (detectPlatform pg = Some claude)) as [Hcl|Hcl].
  { rewrite bool_decide_eq_true_2 by done. split; [done|]. by intros [? _]. }
  rewrite bool_decide_eq_false_2 by done.
  destruct (isContentEditable a) eqn:Hce.
  { destruct (bool_decide _ && true); (split; [done|]); by intros (_ & ? & _). }
  rewrite andb_false_r. unfold setTextareaValue, isTextField.
  destruct (eqb (tagName a) (lit "textarea")) eqn:Et.
  { apply eqb_eq in Et. simpl. split; [done|]. intros (_ & _ & Hi).
    rewrite Hi in Et. discriminate. }
  simpl. destruct (eqb (tagName a) (lit "input")) eqn:Ei.
  - apply eqb_eq in Ei. done.
  - split; [done|]. intros (_ & _ & Hi). rewrite Hi in Ei. discriminate.
Qed.

(** Writing a plain [textarea] (on a platform other than Claude) and reading
    it. *)
Lemma plain_write_read (B : Browser) (pg : Page) (el : path) (a : Attrs) (v : jsstring) :
  attrsAt (doc pg) el = Some a ->
  plainTextarea a ->
  detectPlatform pg <> Some claude ->
  exists pg',
    setInputValue B pg el v = Returned pg'
    /\ attrsAt (doc pg') el = Some (setValueAttr v a)
    /\ getInputValue B pg' (Some el) = normalizeNewlines v
    /\ effects pg'
       = effects pg ++ [Dispatched el (lit "input"); Dispatched el (lit "change"); Focused el]
    /\ hostname pg' = hostname pg.
Proof.
  intros Ha (Htag & Hce & Hpm) Hcl.
  assert (Htf : isTextField a = true) by (unfold isTextField; by rewrite Htag).
  destruct (attrsAt_elem _ _ _ Ha) as [kids Hn].
  eexists. split.
  { unfold setInputValue. rewrite Ha. cbv zeta.
    rewrite bool_decide_eq_false_2 by done. rewrite Hce, andb_false_r, Htf.
    unfold setTextareaValue. rewrite Htag. reflexivity. }
  assert (Hn' : nodeAt (updateAt (mapAttrs (setValueAttr v)) (doc pg) el) el
                = Some (Elem (setValueAttr v a) kids))
    by (by rewrite (nodeAt_updateAt _ _ _ _ Hn)).
  split; [|split; [|split]].
  - unfold attrsAt. simpl. by rewrite Hn'.
  - unfold getInputValue. simpl. rewrite Hn'.
    rewrite bool_decide_eq_false_2 by done.
    change (tagName (setValueAttr v a)) with (tagName a).
    change (isContentEditable (setValueAttr v a)) with (isContentEditable a).
    change (isTextField (setValueAttr v a)) with (isTextField a).
    rewrite Hce, Htf. unfold fieldValue.
    change (tagName (setValueAttr v a)) with (tagName a).
    by rewrite Htag.
  - simpl. by rewrite <- !app_assoc.
  - done.
Qed.




(** On the same page with an [input] element as editor the write raises, and
    [injectMemories] with it. *)
Example scenario_input_example :
  setInputValue Fixture.browser (Fixture.inputPage []) [0; 1; 0; 0]%nat scenarioWritten
  = TypeError
  /\ injectMemories Fixture.browser (mkInjector (Fixture.inputPage []) ∅) [Fixture.facts]
     = TypeError.
Proof. split; vm_compute; reflexivity. Qed.

(** An index returned by [indexOf] is the place of an occurrence. *)
Lemma indexOf_occurrence (n s : jsstring) :
  0 <= indexOf n s -> startsWith n (drop (Z.to_nat (indexOf n s)) s) = true.
Proof.
  induction s as [|b s IH].
  - simpl. destruct (startsWith n []) eqn:E; [done|lia].
  - rewrite indexOf_cons. destruct (startsWith n (b :: s)) eqn:E; [done|].
    destruct (indexOf n s <? 0) eqn:E2; [lia|]. apply Z.ltb_ge in E2. intros _.
    replace (Z.to_nat (indexOf n s + 1)) with (S (Z.to_nat (indexOf n s))) by lia.
    simpl drop. by apply IH.
Qed.

Lemma stripContent_malformed (content : jsstring) :
  includes MEMORY_HEADER content = true ->
  (forall j : nat, indexOf MEMORY_HEADER content < Z.of_nat j ->
                   startsWith MEMORY_FOOTER (drop j content) = false) ->
  stripContent MEMORY_HEADER content
  = trim (take (Z.to_nat (indexOf MEMORY_HEADER content)) content).
Proof.
  intros Hh Hf. apply includes_true in Hh.
  pose proof (indexOf_upper MEMORY_HEADER content) as Hup.
  unfold stripContent. cbv zeta. rewrite eqb_refl.
  replace (indexOf MEMORY_HEADER content =? -1) with false
    by (symmetry; apply Z.eqb_neq; lia).
  simpl negb. cbv iota.
  set (endIdx := indexOf MEMORY_FOOTER content).
  assert (Hcond : negb (endIdx =? -1) && (endIdx >? indexOf MEMORY_HEADER content) = false).
  { destruct (endIdx =? -1) eqn:E1; [done|]. simpl.
    apply Z.eqb_neq in E1. pose proof (indexOf_lower MEMORY_FOOTER content).
    destruct (endIdx >? indexOf MEMORY_HEADER content) eqn:E2; [|done].
    apply Z.gtb_lt in E2.
    assert (0 <= endIdx) as Hpos by (unfold endIdx in *; lia).
    pose proof (indexOf_occurrence MEMORY_FOOTER content Hpos) as Hocc.
    fold endIdx in Hocc.
    rewrite (Hf (Z.to_nat endIdx)) in Hocc; [done|]. lia. }
  rewrite Hcond. by rewrite substring_0 by lia.
Qed.

(** C6. When the header occurs in the editor content and no footer occurs after
    it, [getContentWithoutMemories] with the standard header returns the trimmed
    text that precedes the header.  (The function is total: it returns a string
    on every page and raises nothing.) *)
Theorem strip_truncates_without_footer (B : Browser) (pg : Page) (el : path)
    (content : jsstring) :
  getTextarea B pg None = Some el ->
  getInputValue B pg (Some el) = content ->
  includes MEMORY_HEADER content = true ->
  (forall j : nat, indexOf MEMORY_HEADER content < Z.of_nat j ->
                   startsWith MEMORY_FOOTER (drop j content) = false) ->
  getContentWithoutMemories B pg MEMORY_HEADER
  = trim (take (Z.to_nat (indexOf MEMORY_HEADER content)) content).
Proof.
  intros Hel Hv Hh Hf. unfold getContentWithoutMemories. rewrite Hel, Hv.
  by apply stripContent_malformed.
Qed.

Lemma noOccurrenceFrom_spec (n s : jsstring) (k : nat) :
  n ≠ [] -> noOccurrenceFrom n s k = true ->
  forall j : nat, (k <= j)%nat -> startsWith n (drop j s) = false.
Proof.
  intros Hn H j Hj. unfold noOccurrenceFrom in H.
  rewrite forallb_forall in H.
  destruct (decide (j <= length s)%nat) as [Hle|Hgt].
  - apply negb_true_iff, H, in_seq. lia.
  - rewrite drop_ge by lia. by apply startsWith_nil_r.
Qed.

Lemma strip_truncates_without_footer_witness :
  getContentWithoutMemories Fixture.browser
    (Fixture.chatPage (lit "draft " ++ MEMORY_HEADER ++ nl ++ lit "[facts]" ++ nl ++ lit "x"))
    MEMORY_HEADER
  = lit "draft".
Proof.
  apply (strip_truncates_without_footer Fixture.browser _ [0; 1; 0; 0]%nat
           (lit "draft " ++ MEMORY_HEADER ++ nl ++ lit "[facts]" ++ nl ++ lit "x")).
  - vm_compute; reflexivity.
  - vm_compute; reflexivity.
  - vm_compute; reflexivity.
  - intros j Hj. apply (noOccurrenceFrom_spec MEMORY_FOOTER _ 7%nat).
    + discriminate.
    + vm_compute; reflexivity.
    + change (indexOf MEMORY_HEADER _) with 6 in Hj. lia.
Defined.

(* ------------------------------------------------------------------------- *)
(** ** Adding one block *)
(* ------------------------------------------------------------------------- *)

(** C3. When the editor content holds the header and no footer,
    [addSingleMemory] returns [false] and leaves the whole state as it was: the
    page (document and the events that [setInputValue] would dispatch) and the
    set of injected ids. *)
Theorem addSingleMemory_malformed_noop (B : Browser) (st : Injector)
    (memory : MemoryBlock) :
  (forall p el,
      detectPlatform (page st) = Some p ->
      getTextarea B (page st) (Some p) = Some el ->
      includes MEMORY_HEADER (getInputValue B (page st) (Some el)) = true
      /\ includes MEMORY_FOOTER (getInputValue B (page st) (Some el)) = false) ->
  addSingleMemory B st memory = Returned (false, st).
Proof.
  intros H. unfold addSingleMemory.
  destruct (detectPlatform (page st)) as [p|] eqn:Hp; [|done].
  destruct (getTextarea B (page st) (Some p)) as [el|] eqn:Hel; [|done].
  destruct (H p el eq_refl Hel) as [Hh Hf].
  destruct (truthy (blockId memory) && _); [done|].
  cbv zeta. rewrite Hh. apply includes_false in Hf. by rewrite Hf.
Qed.

Lemma addSingleMemory_malformed_noop_witness :
  addSingleMemory Fixture.browser (mkInjector malformedPage ∅) Fixture.facts
  = Returned (false, mkInjector malformedPage ∅).
Proof.
  apply (addSingleMemory_malformed_noop Fixture.browser (mkInjector malformedPage ∅)).
  intros p el Hp Hel.
  assert (p = chatgpt) as -> by (vm_compute in Hp; congruence).
  assert (el = [0; 1; 0; 0]%nat) as -> by (vm_compute in Hel; congruence).
  split; vm_compute; reflexivity.
Defined.

(** C7. With no header in the editor content and an empty set of injected ids,
    [addSingleMemory memory] is [injectMemories [memory]]: the same result, the
    same page and the same set of injected ids. *)
Theorem addSingleMemory_fresh_is_inject (B : Browser) (st : Injector)
    (memory : MemoryBlock) :
  injectedMemoryIds st = ∅ ->
  (forall p el,
      detectPlatform (page st) = Some p ->
      getTextarea B (page st) (Some p) = Some el ->
      includes MEMORY_HEADER (getInputValue B (page st) (Some el)) = false) ->
  addSingleMemory B st memory = injectMemories B st [memory].
Proof.
  intros Hids H. unfold addSingleMemory.
  destruct (detectPlatform (page st)) as [p|] eqn:Hp.
  2: { unfold injectMemories. by rewrite Hp. }
  destruct (getTextarea B (page st) (Some p)) as [el|] eqn:Hel.
  2: { unfold injectMemories. by rewrite Hp, Hel. }
  rewrite Hids.
  replace (bool_decide (blockId memory ∈ (∅ : gset (list N)))) with false.
  2: { symmetry. apply bool_decide_eq_false. set_solver. }
  rewrite andb_false_r. cbv zeta. by rewrite (H p el eq_refl Hel).
Qed.

Lemma addSingleMemory_fresh_is_inject_witness :
  addSingleMemory Fixture.browser (mkInjector (Fixture.chatPage []) ∅) Fixture.facts
  = injectMemories Fixture.browser (mkInjector (Fixture.chatPage []) ∅) [Fixture.facts].
Proof.
  apply (addSingleMemory_fresh_is_inject Fixture.browser
           (mkInjector (Fixture.chatPage []) ∅)).
  - reflexivity.
  - intros p el Hp Hel.
    assert (p = chatgpt) as -> by (vm_compute in Hp; congruence).
    assert (el = [0; 1; 0; 0]%nat) as -> by (vm_compute in Hel; congruence).
    vm_compute; reflexivity.
Defined.

(* ------------------------------------------------------------------------- *)
(** ** The surface locator *)
(* ------------------------------------------------------------------------- *)

Section Locator.

Context (B : Browser).

Lemma Qpos_spec (q : Q) : Qpos q = true <-> (0 < q)%Q.
Proof.
  unfold Qpos. rewrite negb_true_iff. split.
  - intros H. apply Qnot_le_lt. intros Hle. apply Qle_bool_iff in Hle. congruence.
  - intros H. destruct (Qle_bool q 0) eqn:E; [|done].
    apply Qle_bool_iff in E. exfalso. by apply (Qlt_not_le _ _ H).
Qed.

Lemma eqb_neq (a b : jsstring) : negb (eqb a b) = true <-> a <> b.
Proof.
  unfold eqb. rewrite negb_true_iff. apply bool_decide_eq_false.
Qed.

Lemma isVisible_spec (d : Node) (el : path) :
  isVisible B d el = true <-> Visible B d el.
Proof.
  unfold isVisible, Visible. cbv zeta.
  rewrite !andb_true_iff, !Qpos_spec, !eqb_neq. tauto.
Qed.

Lemma selectorLoop_located (d : Node) (sels : list jsstring) :
  Located B d sels (selectorLoop B d sels).
Proof.
  induction sels as [|sel rest IH]; simpl.
  - apply located_none. constructor.
  - assert (Hstep : Rejected B d sel ->
                    Located B d (sel :: rest)
                      (fst (selectorLoop B d rest), sel :: snd (selectorLoop B d rest))).
    { intros Hrej. destruct (selectorLoop B d rest) as [r ev]. simpl.
      inversion IH as [pre post s el Hs Hpre Hq Hv|Hall]; subst.
      - apply (located_first (sel :: pre) post s el);
          [done|by constructor|done|done].
      - apply located_none. by constructor. }
    destruct (querySelector B d sel) as [| |el] eqn:Hq.
    + apply Hstep. intros el' Hel'. congruence.
    + apply Hstep. intros el' Hel'. congruence.
    + destruct (isVisible B d el) eqn:Hv.
      * apply (located_first [] rest sel el); [done|constructor|done|].
        by apply isVisible_spec.
      * apply Hstep. intros el' Hel' Hvis. rewrite Hq in Hel'. injection Hel' as <-.
        apply isVisible_spec in Hvis. congruence.
Qed.

(** C5. On each platform, [getTextarea] and [getSendButton] walk the ordered
    selector list of the platform and return the element found by the first
    selector whose match is visible (non-zero width and height, display not
    [none], visibility not [hidden]); the selectors evaluated are exactly those
    up to that one, all the earlier ones having thrown, found nothing or found
    an invisible element; when every selector is passed over the result is
    [null] and the whole list has been evaluated. *)
Theorem locate_first_visible (pg : Page) (p : Platform) :
  Located B (doc pg) (TEXTAREA_SELECTORS p) (getTextareaQ B pg (Some p))
  /\ getTextarea B pg (Some p) = fst (getTextareaQ B pg (Some p))
  /\ Located B (doc pg) (SEND_BUTTON_SELECTORS p) (getSendButtonQ B pg (Some p))
  /\ getSendButton B pg (Some p) = fst (getSendButtonQ B pg (Some p)).
Proof.
  repeat split; apply selectorLoop_located.
Qed.

End Locator.

(* ------------------------------------------------------------------------- *)
(** ** Recent messages *)
(* ------------------------------------------------------------------------- *)

Section Sorting.

Context {A : Type} (cmp : A -> A -> Z).

Hypothesis cmp_flip : forall x y, cmp x y > 0 -> cmp y x <= 0.
Hypothesis cmp_trans : forall x y z, cmp x y <= 0 -> cmp y z <= 0 -> cmp x z <= 0.





End Sorting.






Section RecentMessages.

Context (B : Browser).




End RecentMessages.


(** On the fixture conversation the emitted context is the third and the fourth
    turn, the fourth cut to 500 code units. *)
Example capture_context_example :
  outbox Fixture.afterCapture
  = [mkPayload (lit "hello")
       (Some [mkChat user (lit "second question");
              mkChat assistant (concat (replicate 50 (lit "0123456789")))])
       1700000000000 (lit "https://chatgpt.com/")].
Proof. vm_compute; reflexivity. Qed.

(* ------------------------------------------------------------------------- *)
(** ** The background capture handler *)
(* ------------------------------------------------------------------------- *)

Module BackgroundFacts.

Import Background.

Lemma validate_rejects (st st' : State) (now : Z) (settings : Settings)
    (payload : SyncPayload) (r : Response) :
  validate st now settings payload = (inl r, st') ->
  success r = false /\ st' = st.
Proof.
  unfold validate.
  repeat match goal with
         | |- context [if ?c then _ else _] => destruct c
         | |- context [match ?c with Some _ => _ | None => _ end] => destruct c
         end; intros [= <- <-]; done.
Qed.

Lemma validate_passes (st st' : State) (now : Z) (settings : Settings)
    (payload : SyncPayload) (request : Capture) (h : jsstring) :
  validate st now settings payload = (inr (request, h), st') ->
  st' = mkState now (lastCapturedHash st)
  /\ h = slice (userMessage payload) 0 200
  /\ lastCapturedHash st <> Some h.
Proof.
  unfold validate.
  destruct (negb _ || negb _); [done|].
  destruct (detectPlatform _); [|done].
  destruct (negb (bool_decide _)); [done|].
  destruct (existsb _ _); [done|].
  destruct (negb (truthy _)); [done|].
  cbv zeta.
  destruct (bool_decide _) eqn:E; [done|].
  apply bool_decide_eq_false in E.
  intros [= _ <- <-]. split; [done|]. split; [done|].
  intros Heq. apply E. by rewrite Heq.
Qed.

Lemma validate_duplicate (st : State) (now : Z) (settings : Settings)
    (payload : SyncPayload) :
  lastCapturedHash st = Some (slice (userMessage payload) 0 200) ->
  exists r, validate st now settings payload = (inl r, st) /\ success r = false.
Proof.
  intros Hdup. unfold validate.
  destruct (negb _ || negb _); [by eexists|].
  destruct (detectPlatform _); [|by eexists].
  destruct (negb (bool_decide _)); [by eexists|].
  destruct (existsb _ _); [by eexists|].
  destruct (negb (truthy _)); [by eexists|].
  cbv zeta. rewrite Hdup. rewrite bool_decide_eq_true_2 by done. by eexists.
Qed.

(** C10. [handleSync] answers [success = false], makes no remote call and
    leaves the state as it was for a payload that arrives less than 2000 ms
    after [lastSyncTime], and for one whose first 200 code units are
    [lastCapturedHash]; [lastSyncTime] is set, to the arrival time, exactly when
    every validation check has passed (when the remote call is made), so a
    rejected payload leaves it unchanged.  The same holds stretch by stretch
    when other invocations run during the [await]s: the stretch up to the
    settings rejects on the rate limit without touching the state, and the
    validation stretch changes the state only when it ends in the remote
    call. *)
Theorem handleSync_rejections (st : State) (now : Z) (settings : Settings)
    (payload : SyncPayload) (thrown : option jsstring) :
  let '(r, calls, st') := handleSync st now settings payload thrown in
  (now - lastSyncTime st < SYNC_COOLDOWN_MS ->
     success r = false /\ calls = [] /\ st' = st)
  /\ (lastCapturedHash st = Some (slice (userMessage payload) 0 200) ->
        success r = false /\ calls = [] /\ st' = st)
  /\ (calls = [] -> success r = false /\ st' = st)
  /\ (calls <> [] -> lastSyncTime st' = now /\ SYNC_COOLDOWN_MS <= now - lastSyncTime st)
  /\ (now - lastSyncTime st < SYNC_COOLDOWN_MS -> rateCheck st now <> None)
  /\ (forall st1 r1 st2, validate st1 now settings payload = (inl r1, st2) ->
        success r1 = false /\ st2 = st1)
  /\ (forall st1, lastCapturedHash st1 = Some (slice (userMessage payload) 0 200) ->
        exists r1, validate st1 now settings payload = (inl r1, st1) /\ success r1 = false).
Proof.
  assert (Hrej : forall st1 r1 st2, validate st1 now settings payload = (inl r1, st2) ->
                                    success r1 = false /\ st2 = st1)
    by (intros ? ? ?; apply validate_rejects).
  assert (Hdup : forall st1,
             lastCapturedHash st1 = Some (slice (userMessage payload) 0 200) ->
             exists r1, validate st1 now settings payload = (inl r1, st1)
                        /\ success r1 = false)
    by (intros ?; apply validate_duplicate).
  unfold handleSync, rateCheck.
  destruct (now - lastSyncTime st <? SYNC_COOLDOWN_MS) eqn:Hrate.
  - apply Z.ltb_lt in Hrate.
    repeat match goal with |- _ /\ _ => split end; try assumption; try done.
  - apply Z.ltb_ge in Hrate.
    destruct (validate st now settings payload) as [[r|[request h]] st1] eqn:Hv.
    + destruct (Hrej _ _ _ Hv) as [Hr ->].
      repeat match goal with |- _ /\ _ => split end; try assumption; try done.
      intros ?. lia.
    + pose proof Hv as Hv'. apply validate_passes in Hv' as (-> & -> & Hne).
      unfold afterCapture. destruct thrown as [msg|]; cbn [success lastSyncTime].
      all: repeat match goal with |- _ /\ _ => split end; try assumption; try done.
      all: try (intros ?; lia).
      all: try (intros Hd; destruct (Hdup st Hd) as (r1 & Hr1 & _); congruence).
Qed.

End BackgroundFacts.

(* ------------------------------------------------------------------------- *)
(** ** Document trees: paths and counting *)
(* ------------------------------------------------------------------------- *)

Section Trees.

Implicit Types (d n k : Node) (p q : path) (P : Attrs -> bool).

Lemma kidsPaths_spec (f : Node -> list path) (j : nat) (ks : list Node) (p : path) :
  p ∈ kidsPaths f j ks <->
  exists i k q, ks !! i = Some k /\ q ∈ f k /\ p = (j + i)%nat :: q.
Proof.
  revert j. induction ks as [|k ks IH]; intros j; simpl.
  - split; [by intros ?%elem_of_nil|]. by intros (i & ? & ? & ? & _).
  - rewrite elem_of_app, IH. split.
    + intros [H|(i & k' & q & Hk & Hq & ->)].
      * apply list_elem_of_In, in_map_iff in H as (q & <- & Hq).
        exists 0%nat, k, q. rewrite Nat.add_0_r. by rewrite <- list_elem_of_In in Hq.
      * exists (S i), k', q. split; [done|]. split; [done|]. f_equal. lia.
    + intros (i & k' & q & Hk & Hq & ->). destruct i as [|i]; simpl in Hk.
      * injection Hk as ->. left. rewrite Nat.add_0_r.
        apply list_elem_of_In, in_map. by apply list_elem_of_In.
      * right. exists i, k', q. split; [done|]. split; [done|]. f_equal. lia.
Qed.

Lemma elemPaths_valid n p :
  p ∈ elemPaths n -> exists a ks, nodeAt n p = Some (Elem a ks).
Proof.
  revert p. induction n as [|a kids IH] using Node_ind'; intros p Hp; simpl in Hp.
  - by apply elem_of_nil in Hp.
  - apply elem_of_cons in Hp as [->|Hp]; [by eexists _, _|].
    apply kidsPaths_spec in Hp as (i & k & q & Hk & Hq & ->). simpl. rewrite Hk.
    rewrite Forall_forall in IH. apply IH; [|done].
    by eapply list_elem_of_lookup_2.
Qed.

Lemma elemPaths_complete n p a ks :
  nodeAt n p = Some (Elem a ks) -> p ∈ elemPaths n.
Proof.
  revert n. induction p as [|i p IH]; intros n H.
  - simpl in H. injection H as ->. simpl. left.
  - destruct n as [|a0 kids]; simpl in H; [done|].
    destruct (kids !! i) as [k|] eqn:Hk; [|done].
    simpl. right. apply kidsPaths_spec. exists i, k, p. eauto.
Qed.

Lemma docPaths_valid d p :
  p ∈ docPaths d -> p <> [] /\ exists a ks, nodeAt d p = Some (Elem a ks).
Proof.
  destruct d as [|a0 kids]; simpl; [by intros ?%elem_of_nil|].
  intros (i & k & q & Hk & Hq & ->)%kidsPaths_spec. split; [done|].
  simpl. rewrite Hk. by apply elemPaths_valid.
Qed.

Lemma docPaths_complete d p a ks :
  p <> [] -> nodeAt d p = Some (Elem a ks) -> p ∈ docPaths d.
Proof.
  intros Hp H. destruct p as [|i p]; [done|].
  destruct d as [|a0 kids]; simpl in H; [done|].
  destruct (kids !! i) as [k|] eqn:Hk; [|done].
  simpl. apply kidsPaths_spec. exists i, k, p.
  split; [done|]. split; [by eapply elemPaths_complete|done].
Qed.

Lemma nodeAt_app d p q : nodeAt d (p ++ q) = nodeAt d p ≫= fun n => nodeAt n q.
Proof.
  revert d. induction p as [|i p IH]; intros d; simpl; [done|].
  destruct d as [|a kids]; [done|]. destruct (kids !! i); [apply IH|done].
Qed.

Lemma nodeAt_prefix_elem d p q n :
  nodeAt d (p ++ q) = Some n -> q <> [] -> exists a ks, nodeAt d p = Some (Elem a ks).
Proof.
  rewrite nodeAt_app. destruct (nodeAt d p) as [m|]; simpl; [|done].
  intros H Hq. destruct q as [|i q]; [done|].
  destruct m as [|a ks]; simpl in H; [done|]. by eexists _, _.
Qed.

Lemma path_snoc p : p <> [] -> p = removelast p ++ [List.last p 0%nat].
Proof. intros H. by apply app_removelast_last. Qed.

Lemma ValidElem_parent d p par :
  ValidElem d p -> parentElement p = Some par -> ValidElem d par.
Proof.
  intros [Hp (a & ks & H)] Hpar.
  destruct p as [|i [|j p]]; simpl in Hpar; try done.
  injection Hpar as <-. split.
  - by destruct p.
  - rewrite (path_snoc (i :: j :: p)) in H by done.
    eapply nodeAt_prefix_elem; [exact H|done].
Qed.

Lemma ValidElem_take d p (j : nat) :
  ValidElem d p -> take j p <> [] -> ValidElem d (take j p).
Proof.
  intros [Hp (a & ks & H)] Hj. split; [done|].
  destruct (decide (length p <= j)%nat) as [Hle|Hgt].
  - rewrite take_ge by done. eauto.
  - rewrite <- (take_drop j p) in H.
    eapply nodeAt_prefix_elem; [exact H|].
    intros Hd. apply (f_equal length) in Hd. rewrite length_drop in Hd. simpl in Hd. lia.
Qed.

End Trees.

Section Counting.

Implicit Types (d n k : Node) (p q : path) (P : Attrs -> bool) (c : Node -> nat).

Lemma list_sum_alter c (g : Node -> Node) (i : nat) (ks : list Node) k :
  ks !! i = Some k ->
  (list_sum (List.map c (alter g i ks)) + c k
   = list_sum (List.map c ks) + c (g k))%nat.
Proof.
  revert i. induction ks as [|x ks IH]; intros [|i] H; simpl in *; try done.
  - injection H as ->. lia.
  - specialize (IH i H). change (list_alter g i ks) with (alter g i ks). lia.
Qed.

Lemma list_sum_delete c (i : nat) (ks : list Node) k :
  ks !! i = Some k ->
  (list_sum (List.map c (delete i ks)) + c k = list_sum (List.map c ks))%nat.
Proof.
  revert i. induction ks as [|x ks IH]; intros [|i] H; simpl in *; try done.
  - injection H as ->. lia.
  - specialize (IH i H). change (list_delete i ks) with (delete i ks). lia.
Qed.

Lemma list_sum_insert c (i : nat) (ks : list Node) (x : Node) :
  list_sum (List.map c (take i ks ++ x :: drop i ks))
  = (list_sum (List.map c ks) + c x)%nat.
Proof.
  rewrite <- (take_drop i ks) at 3.
  rewrite !List.map_app, !list_sum_app. simpl. lia.
Qed.

Lemma list_sum_lookup_le c (i : nat) (ks : list Node) k :
  ks !! i = Some k -> (c k <= list_sum (List.map c ks))%nat.
Proof. intros H. pose proof (list_sum_delete c i ks k H). lia. Qed.

Lemma count_updateAt P (f : Node -> Node) d p n :
  nodeAt d p = Some n ->
  (count P (updateAt f d p) + count P n = count P d + count P (f n))%nat.
Proof.
  revert d. induction p as [|i p IH]; intros d H; simpl in H.
  - injection H as ->. simpl. lia.
  - destruct d as [|a kids]; [done|].
    destruct (kids !! i) as [k|] eqn:Hk; [|done].
    specialize (IH k H). cbn [updateAt count].
    pose proof (list_sum_alter (count P) (fun k => updateAt f k p) i kids k Hk) as Hs.
    cbv beta in Hs. lia.
Qed.

Lemma countDoc_updateAt P (f : Node -> Node) d p n :
  p <> [] -> nodeAt d p = Some n ->
  (countDoc P (updateAt f d p) + count P n = countDoc P d + count P (f n))%nat.
Proof.
  intros Hp H. pose proof (count_updateAt P f d p n H) as Hc.
  destruct p as [|i p]; [done|]. destruct d as [|a kids]; [done|].
  cbn [updateAt count countDoc] in *. lia.
Qed.

Lemma count_zero_at P n p a ks :
  count P n = 0%nat -> nodeAt n p = Some (Elem a ks) -> P a = false.
Proof.
  revert n. induction p as [|i p IH]; intros n Hc H; simpl in H.
  - injection H as ->. simpl in Hc. destruct (P a); [lia|done].
  - destruct n as [|a0 kids]; [done|].
    destruct (kids !! i) as [k|] eqn:Hk; [|done].
    apply (IH k); [|done]. simpl in Hc.
    pose proof (list_sum_lookup_le (count P) i kids k Hk). lia.
Qed.

Lemma list_sum_pos c (ks : list Node) :
  (0 < list_sum (List.map c ks))%nat -> exists i k, ks !! i = Some k /\ (0 < c k)%nat.
Proof.
  induction ks as [|x ks IH]; simpl; [lia|]. intros H.
  destruct (decide (0 < c x)%nat) as [Hx|Hx].
  - by exists 0%nat, x.
  - destruct IH as (i & k & Hk & Hc); [lia|]. by exists (S i), k.
Qed.

Lemma count_pos_exists P n :
  (0 < count P n)%nat -> exists p a ks, nodeAt n p = Some (Elem a ks) /\ P a = true.
Proof.
  induction n as [|a kids IH] using Node_ind'; simpl; [lia|]. intros H.
  destruct (P a) eqn:Ha.
  - by exists [], a, kids.
  - apply list_sum_pos in H as (i & k & Hk & Hc).
    rewrite Forall_forall in IH.
    destruct (IH k (list_elem_of_lookup_2 _ _ _ Hk) Hc) as (p & a' & ks & Hp & Ha').
    exists (i :: p), a', ks. simpl. by rewrite Hk.
Qed.

Lemma countDoc_zero_at P d p a ks :
  countDoc P d = 0%nat -> p <> [] -> nodeAt d p = Some (Elem a ks) -> P a = false.
Proof.
  intros Hc Hp H. destruct p as [|i p]; [done|]. destruct d as [|a0 kids]; [done|].
  simpl in H, Hc. destruct (kids !! i) as [k|] eqn:Hk; [|done].
  apply (count_zero_at P k p a ks); [|done].
  pose proof (list_sum_lookup_le (count P) i kids k Hk). lia.
Qed.

Lemma countDoc_pos_exists P d :
  (0 < countDoc P d)%nat ->
  exists p a ks, p <> [] /\ nodeAt d p = Some (Elem a ks) /\ P a = true.
Proof.
  destruct d as [|a0 kids]; simpl; [lia|]. intros H.
  apply list_sum_pos in H as (i & k & Hk & Hc).
  apply count_pos_exists in Hc as (p & a & ks & Hp & Ha).
  exists (i :: p), a, ks. simpl. by rewrite Hk.
Qed.

Lemma count_at_pos P n p a ks :
  nodeAt n p = Some (Elem a ks) -> P a = true -> (0 < count P n)%nat.
Proof.
  intros H Ha. destruct (count P n) eqn:E; [|lia].
  pose proof (count_zero_at P n p a ks E H). congruence.
Qed.

Lemma find_doc_none P d :
  countDoc P d = 0%nat -> List.find (testAt d P) (docPaths d) = None.
Proof.
  intros Hc. destruct (List.find _ _) as [p|] eqn:E; [|done].
  apply find_some in E as [Hin Ht]. apply list_elem_of_In, docPaths_valid in Hin.
  destruct Hin as [Hp (a & ks & Hn)]. unfold testAt, attrsAt in Ht. rewrite Hn in Ht.
  rewrite (countDoc_zero_at P d p a ks Hc Hp Hn) in Ht. done.
Qed.

Lemma find_doc_some P d :
  (0 < countDoc P d)%nat -> is_Some (List.find (testAt d P) (docPaths d)).
Proof.
  intros (p & a & ks & Hp & Hn & Ha)%countDoc_pos_exists.
  destruct (List.find _ _) as [q|] eqn:E; [by eexists|].
  pose proof (find_none _ _ E p) as Hnone.
  unfold testAt, attrsAt in Hnone. rewrite Hn, Ha in Hnone.
  assert (In p (docPaths d)) by (apply list_elem_of_In; by eapply docPaths_complete).
  by specialize (Hnone H).
Qed.

Lemma find_doc_spec P d p :
  List.find (testAt d P) (docPaths d) = Some p ->
  ValidElem d p /\ exists a ks, nodeAt d p = Some (Elem a ks) /\ P a = true.
Proof.
  intros E. apply find_some in E as [Hin Ht].
  apply list_elem_of_In, docPaths_valid in Hin. split; [done|].
  destruct Hin as [Hp (a & ks & Hn)]. unfold testAt, attrsAt in Ht. rewrite Hn in Ht.
  by exists a, ks.
Qed.

Lemma getElementById_test d (id : jsstring) :
  getElementById d id = List.find (testAt d (fun a => eqb (idAttr a) id)) (docPaths d).
Proof. done. Qed.

Lemma find_ext' {A} (f g : A -> bool) (l : list A) :
  (forall x, f x = g x) -> List.find f l = List.find g l.
Proof.
  intros H. induction l as [|x l IH]; simpl; [done|]. by rewrite H, IH.
Qed.

Lemma findSerial_test d (s : nat) :
  findSerial (docPaths d) d s = List.find (testAt d (hasSerial s)) (docPaths d).
Proof.
  unfold findSerial. apply find_ext'. intros p. unfold testAt, serialAt, hasSerial.
  destruct (attrsAt d p) as [a|]; [done|]. by apply bool_decide_eq_false_2.
Qed.

End Counting.

Lemma bind_ok {A C} (a : A) (k : A -> Result C) : (Ok a ≫= k) = k a.
Proof. done. Qed.

Lemma bind_throws {A C} (e : Engine) (k : A -> Result C) : (Throws e ≫= k) = Throws e.
Proof. done. Qed.

Ltac rsimpl := repeat (rewrite ?bind_ok, ?bind_throws); cbv beta.

Section Validity.

Context (B : Browser).

Lemma querySelector_valid (d : Node) (sel : jsstring) (p : path) :
  querySelector B d sel = QElem p -> ValidElem d p.
Proof.
  unfold querySelector. destruct (selectorValid B sel); [|done].
  destruct (List.find _ _) as [q|] eqn:E; [|done]. intros [= <-].
  apply find_some in E as [Hin _]. by apply docPaths_valid, list_elem_of_In.
Qed.

Lemma queryR_valid (e : Engine) (sel : jsstring) (p : path) :
  queryR B e sel = Ok (Some p) -> ValidElem (edoc e) p.
Proof.
  unfold queryR. destruct (querySelector B (edoc e) sel) eqn:E; try done.
  intros [= <-]. by eapply querySelector_valid.
Qed.

Lemma firstQuery_valid (e : Engine) (sels : list jsstring) (p : path) :
  firstQuery B e sels = Ok (Some p) -> ValidElem (edoc e) p.
Proof.
  induction sels as [|sel sels IH]; simpl; [done|].
  destruct (queryR B e sel) as [[q|]|] eqn:E; simpl; try done.
  intros [= <-]. by eapply queryR_valid.
Qed.

Lemma ancestorsOrSelf_take (p q : path) :
  q ∈ ancestorsOrSelf p -> exists j, q = take j p.
Proof.
  unfold ancestorsOrSelf. intros H%list_elem_of_In%in_map_iff.
  destruct H as (j & <- & _). by exists j.
Qed.

Lemma closestR_valid (e : Engine) (el : path) (sel : jsstring) (q : path) :
  ValidElem (edoc e) el -> closestR B e el sel = Ok (Some q) -> ValidElem (edoc e) q.
Proof.
  intros Hel. unfold closestR. destruct (selectorValid B sel); [|done].
  destruct (List.find _ _) as [r|] eqn:E; [|done]. intros [= <-].
  apply find_some in E as [Hin Ht].
  apply andb_true_iff in Ht as [Hne _]. apply bool_decide_eq_true in Hne.
  apply list_elem_of_In, ancestorsOrSelf_take in Hin as [j ->].
  by apply ValidElem_take.
Qed.

Lemma queryWithinR_valid (e : Engine) (el : path) (sel : jsstring) (q : path) :
  queryWithinR B e el sel = Ok (Some q) -> ValidElem (edoc e) q.
Proof.
  unfold queryWithinR. destruct (selectorValid B sel); [|done].
  destruct (List.find _ _) as [r|] eqn:E; [|done]. intros [= <-].
  apply find_some in E as [Hin _]. by apply docPaths_valid, list_elem_of_In.
Qed.

Lemma firstQueryWithin_valid (e : Engine) (el : path) (sels : list jsstring) (p : path) :
  firstQueryWithin B e el sels = Ok (Some p) -> ValidElem (edoc e) p.
Proof.
  induction sels as [|sel sels IH]; simpl; [done|].
  destruct (queryWithinR B e el sel) as [[q|]|] eqn:E; simpl; try done.
  intros [= <-]. by eapply queryWithinR_valid.
Qed.

Lemma selectorLoop_valid (d : Node) (sels : list jsstring) (p : path) :
  fst (selectorLoop B d sels) = Some p -> ValidElem d p.
Proof.
  pose proof (selectorLoop_located B d sels) as H.
  destruct (selectorLoop B d sels) as [r ev]. simpl. intros ->.
  inversion H; subst. by eapply querySelector_valid.
Qed.

Lemma getSendButton_valid (pg : Page) (plat : option Platform) (p : path) :
  getSendButton B pg plat = Some p -> ValidElem (doc pg) p.
Proof.
  unfold getSendButton, getSendButtonQ.
  destruct (match plat with Some _ => _ | None => _ end); [|done].
  apply selectorLoop_valid.
Qed.

Lemma getTextarea_valid (pg : Page) (plat : option Platform) (p : path) :
  getTextarea B pg plat = Some p -> ValidElem (doc pg) p.
Proof.
  unfold getTextarea, getTextareaQ.
  destruct (match plat with Some _ => _ | None => _ end); [|done].
  apply selectorLoop_valid.
Qed.

Lemma orParent_valid (d : Node) (form : option path) (editor q : path) :
  ValidElem d editor -> (forall f, form = Some f -> ValidElem d f) ->
  orParent form editor = Some q -> ValidElem d q.
Proof.
  intros He Hf. unfold orParent. destruct form as [f|].
  - intros [= <-]. by apply Hf.
  - by apply ValidElem_parent.
Qed.

Lemma closest_orParent_valid (e : Engine) (editor : path) (sel : jsstring) (q : path) :
  ValidElem (edoc e) editor ->
  (form ← closestR B e editor sel; Ok (orParent form editor)) = Ok (Some q) ->
  ValidElem (edoc e) q.
Proof.
  intros He. destruct (closestR B e editor sel) as [form|] eqn:E; rsimpl; [|done].
  intros [= H]. eapply orParent_valid; [done| |exact H].
  intros f ->. by eapply closestR_valid.
Qed.

Lemma deriveAnchor_valid (e : Engine) (p : Platform) (editor q : path) :
  ValidElem (edoc e) editor ->
  deriveAnchor B e p editor = Ok (Some q) -> ValidElem (edoc e) q.
Proof.
  intros He. destruct p; unfold deriveAnchor.
  - destruct (closestR B e editor (lit "form")) as [form|] eqn:E; rsimpl; [|done].
    destruct form as [f|].
    + destruct (firstQueryWithin B e f _) as [[t|]|] eqn:Et; rsimpl; try done.
      * intros [= <-]. by eapply firstQueryWithin_valid.
      * intros [= <-]. by eapply closestR_valid.
    + rsimpl. intros [= H]. by eapply ValidElem_parent.
  - by apply closest_orParent_valid.
  - destruct (queryR B e _) as [[t|]|] eqn:Et; rsimpl; try done.
    + intros [= <-]. by eapply queryR_valid.
    + by apply closest_orParent_valid.
  - by apply closest_orParent_valid.
Qed.

Lemma getAnchor_valid (e : Engine) (plat : option Platform) (q : path) :
  getAnchor B e plat = Ok (Some q) -> ValidElem (edoc e) q.
Proof.
  unfold getAnchor.
  destruct (match plat with Some _ => _ | None => _ end) as [p|]; [|done].
  cbv zeta.
  destruct (getTextarea B (epage e) (Some p)) as [ed|] eqn:Hed.
  - assert (ValidElem (edoc e) ed) as Hv by (by eapply getTextarea_valid).
    destruct (deriveAnchor B e p ed) as [[a|]|] eqn:Hd; rsimpl; try done.
    + destruct (isVisible B (edoc e) a).
      * intros [= <-]. by eapply deriveAnchor_valid.
      * destruct (fst (selectorLoop B (edoc e) (FALLBACK_ANCHORS p))) as [el|] eqn:Hs.
        -- intros [= <-]. by eapply selectorLoop_valid.
        -- by apply closest_orParent_valid.
    + destruct (fst (selectorLoop B (edoc e) (FALLBACK_ANCHORS p))) as [el|] eqn:Hs.
      * intros [= <-]. by eapply selectorLoop_valid.
      * by apply closest_orParent_valid.
  - rsimpl.
    destruct (fst (selectorLoop B (edoc e) (FALLBACK_ANCHORS p))) as [el|] eqn:Hs; [|done].
    intros [= <-]. by eapply selectorLoop_valid.
Qed.

Lemma upToBody_sub (body : option path) (chain : list path) (q : path) :
  q ∈ upToBody body chain -> q ∈ chain /\ q <> [].
Proof.
  induction chain as [|c chain IH]; simpl; [by intros ?%elem_of_nil|].
  destruct (bool_decide (c = [])) eqn:E1; simpl; [by intros ?%elem_of_nil|].
  destruct (bool_decide (Some c = body)); [by intros ?%elem_of_nil|].
  apply bool_decide_eq_false in E1.
  intros [->|H]%elem_of_cons.
  - split; [left|done].
  - destruct (IH H). split; [by right|done].
Qed.

Lemma flexAncestor_valid (d : Node) (ie q : path) :
  ValidElem d ie -> flexAncestor B d ie = Some q -> ValidElem d q.
Proof.
  intros Hv. unfold flexAncestor. intros E. apply find_some in E as [Hin _].
  apply list_elem_of_In, upToBody_sub in Hin as [Hin Hne].
  apply ancestorsOrSelf_take in Hin as [j ->]. by apply ValidElem_take.
Qed.

Lemma findIndex_lookup {A} (f : A -> bool) (l : list A) (i : nat) :
  findIndex f l = Some i -> exists x, l !! i = Some x /\ f x = true.
Proof.
  revert i. induction l as [|x l IH]; intros i; simpl; [done|].
  destruct (f x) eqn:E.
  - intros [= <-]. by exists x.
  - destruct (findIndex f l) as [j|]; simpl; [|done].
    intros [= <-]. by apply IH.
Qed.

Lemma documentBody_valid (d : Node) (b : path) :
  documentBody d = Some b -> ValidElem d b.
Proof.
  unfold documentBody. destruct d as [|a0 kids]; [done|].
  destruct (findIndex isElem kids) as [i|] eqn:Ei; [|done].
  destruct (kids !! i) as [[|a hk]|] eqn:Hk; try done.
  destruct (eqb (tagName a) (lit "html")); [|done].
  destruct (findIndex _ hk) as [j|] eqn:Ej; simpl; [|done].
  intros [= <-]. split; [done|]. simpl. rewrite Hk.
  apply findIndex_lookup in Ej as (x & Hx & Ht). rewrite Hx.
  destruct x as [|ax kx]; [done|]. by eexists _, _.
Qed.

End Validity.

Section Placing.

Lemma parentElement_removelast (ref par : path) :
  parentElement ref = Some par -> par = removelast ref.
Proof.
  destruct ref as [|a [|b l]]; unfold parentElement; intros H; try done.
  by injection H.
Qed.

Lemma updateAt_compose (f g : Node -> Node) (d : Node) (p : path) :
  updateAt g (updateAt f d p) p = updateAt (fun n => g (f n)) d p.
Proof.
  revert d. induction p as [|i p IH]; intros d; simpl; [done|].
  destruct d as [|a kids]; [done|]. f_equal.
  rewrite list_alter_alter_eq. apply list_alter_ext; [|done].
  intros k _. apply IH.
Qed.

Lemma styleAt_placed (F : Node -> Node) (d : Node) (par : path) (w : StyleWrite) :
  styleAt (updateAt F d par) par w = updateAt (fun n => mapAttrs (addStyle w) (F n)) d par.
Proof. unfold styleAt. apply updateAt_compose. Qed.

Lemma RootLike_plain (s : nat) : RootLike s (lettaRoot s (lettaButton (S s))).
Proof. eexists. split; [reflexivity|]. split; [done|by left]. Qed.

Lemma RootLike_styled (s : nat) (w : StyleWrite) :
  RootLike s (mapAttrs (addStyle w) (lettaRoot s (lettaButton (S s)))).
Proof. eexists. split; [reflexivity|]. split; [done|by left]. Qed.

Lemma RootLike_floating (s : nat) (r : Rect) :
  RootLike s (floatingRoot r (lettaRoot s (lettaButton (S s)))).
Proof. eexists. split; [reflexivity|]. split; [done|by right]. Qed.

(** What [mountWith] leaves when its placement is an edit of a valid element. *)
Lemma mountWith_mounted (e : Engine) (dress : Node -> Node)
    (place : Node -> Node -> Node) (par : path) (F : Node -> Node -> Node) :
  ValidElem (edoc e) par ->
  RootLike (nextSerial e) (dress (lettaRoot (nextSerial e) (lettaButton (S (nextSerial e))))) ->
  (forall d root, place d root = updateAt (F root) d par) ->
  (forall root, Placement root (F root)) ->
  Mounted e (mountWith e dress place).
Proof.
  intros Hv Hr Hp HF. unfold Mounted.
  exists par, (dress (lettaRoot (nextSerial e) (lettaButton (S (nextSerial e))))),
    (F (dress (lettaRoot (nextSerial e) (lettaButton (S (nextSerial e)))))), [].
  split; [done|]. split; [done|]. split; [apply HF|].
  unfold mountWith, createLettaButton, mountedState. simpl fold_left.
  by rewrite Hp.
Qed.

Lemma mounted_insertBefore (e : Engine) (dress : Node -> Node) (ref par : path) :
  ValidElem (edoc e) ref -> parentElement ref = Some par ->
  RootLike (nextSerial e) (dress (lettaRoot (nextSerial e) (lettaButton (S (nextSerial e))))) ->
  Mounted e (mountWith e dress (fun d root => insertBefore d ref root)).
Proof.
  intros Hv Hpar Hr.
  apply (mountWith_mounted e dress _ (removelast ref)
           (fun root => insertKid root (List.last ref 0%nat))); try done.
  - rewrite <- (parentElement_removelast ref par Hpar). by eapply ValidElem_parent.
  - intros root. constructor.
Qed.

Lemma mounted_insertAfter (e : Engine) (dress : Node -> Node) (ref par : path) :
  ValidElem (edoc e) ref -> parentElement ref = Some par ->
  RootLike (nextSerial e) (dress (lettaRoot (nextSerial e) (lettaButton (S (nextSerial e))))) ->
  Mounted e (mountWith e dress (fun d root => insertAfter d ref root)).
Proof.
  intros Hv Hpar Hr.
  apply (mountWith_mounted e dress _ (removelast ref)
           (fun root => insertKid root (S (List.last ref 0%nat)))); try done.
  - rewrite <- (parentElement_removelast ref par Hpar). by eapply ValidElem_parent.
  - intros root. constructor.
Qed.

Lemma mounted_appendChild (e : Engine) (dress : Node -> Node) (par : path) :
  ValidElem (edoc e) par ->
  RootLike (nextSerial e) (dress (lettaRoot (nextSerial e) (lettaButton (S (nextSerial e))))) ->
  Mounted e (mountWith e dress (fun d root => appendChild d par root)).
Proof.
  intros Hv Hr.
  apply (mountWith_mounted e dress _ par (fun root => appendKid root)); try done.
  intros root. constructor.
Qed.

End Placing.

Section Strategies.

Context (B : Browser).

Lemma styles_placed (root : Node) (styles : list StyleWrite) (F : Node -> Node)
    (d : Node) (par : path) :
  Placement root F ->
  exists F', Placement root F'
             /\ fold_left (fun d w => styleAt d par w) styles (updateAt F d par)
                = updateAt F' d par.
Proof.
  revert F. induction styles as [|w styles IH]; intros F HF; simpl.
  - by exists F.
  - rewrite styleAt_placed. apply IH. by constructor.
Qed.

Lemma mountWith_mounted_styles (e : Engine) (dress : Node -> Node)
    (place : Node -> Node -> Node) (par : path) (F : Node -> Node -> Node)
    (styles : list StyleWrite) :
  ValidElem (edoc e) par ->
  RootLike (nextSerial e) (dress (lettaRoot (nextSerial e) (lettaButton (S (nextSerial e))))) ->
  (forall d root, place d root
                  = fold_left (fun d w => styleAt d par w) styles (updateAt (F root) d par)) ->
  (forall root, Placement root (F root)) ->
  Mounted e (mountWith e dress place).
Proof.
  intros Hv Hr Hp HF. unfold Mounted.
  set (root := dress (lettaRoot (nextSerial e) (lettaButton (S (nextSerial e))))) in *.
  destruct (styles_placed root styles (F root) (edoc e) par (HF root)) as (F' & HF' & Heq).
  exists par, root, F', [].
  split; [done|]. split; [done|]. split; [done|].
  unfold mountWith, createLettaButton, mountedState. simpl fold_left.
  fold root. by rewrite Hp, <- Heq.
Qed.

Lemma mountChatGPTButton_spec (e e' : Engine) (r : bool) :
  mountChatGPTButton B e = Ok (r, e') -> StrategyOk e r e'.
Proof.
  unfold mountChatGPTButton, StrategyOk.
  assert (Hsecond :
    (sendButton ← queryR B e (lit "#composer-submit-button");
     match sendButton, sendButton ≫= parentElement with
     | Some sb, Some _ =>
         Ok (true, mountWith e id (fun d root => insertBefore d sb root))
     | _, _ => Ok (false, e)
     end) = Ok (r, e') ->
    r = false /\ e' = e \/ r = true /\ Mounted e e').
  { destruct (queryR B e (lit "#composer-submit-button")) as [[sb|]|] eqn:Hsb; rsimpl;
      try done.
    - simpl. destruct (parentElement sb) as [par|] eqn:Hpar.
      + intros [= <- <-]. right. split; [done|].
        eapply mounted_insertBefore; [by eapply queryR_valid|done|apply RootLike_plain].
      + intros [= <- <-]. by left.
    - intros [= <- <-]. by left. }
  destruct (queryR B e (litq "button[data-testid=`composer-plus-btn`]"))
    as [[pb|]|] eqn:Hpb; rsimpl; try done.
  assert (ValidElem (edoc e) pb) as Hv by (by eapply queryR_valid).
  destruct (closestR B e pb (lit "span.flex")) as [plusButtonParent|] eqn:Hc1; rsimpl;
    [|done].
  destruct (closestR B e pb (litq "div[class*=`leading`]")) as [leadingContainer|] eqn:Hc2;
    rsimpl; [|done].
  destruct plusButtonParent as [pbp|]; simpl.
  - destruct (parentElement pbp) as [par|] eqn:Hpar.
    + rsimpl. intros [= <- <-]. right. split; [done|].
      apply (mountWith_mounted_styles e id _ par
               (fun root => insertKid root (S (List.last pbp 0%nat))) [flexRow]).
      * eapply ValidElem_parent; [|done]. by eapply closestR_valid.
      * apply RootLike_plain.
      * intros d root. simpl. unfold insertAfter.
        by rewrite (parentElement_removelast pbp par Hpar).
      * intros root. constructor.
    + destruct leadingContainer as [lc|]; rsimpl; [|done].
      intros [= <- <-]. right. split; [done|].
      apply mounted_appendChild; [by eapply closestR_valid|apply RootLike_plain].
  - destruct leadingContainer as [lc|]; rsimpl; [|done].
    intros [= <- <-]. right. split; [done|].
    apply mounted_appendChild; [by eapply closestR_valid|apply RootLike_plain].
Qed.

Lemma mountClaudeButton_spec (e e' : Engine) (r : bool) :
  mountClaudeButton B e = Ok (r, e') -> StrategyOk e r e'.
Proof.
  unfold mountClaudeButton, StrategyOk.
  assert (Hsecond :
    (toolsTrigger ← queryR B e (lit "#input-tools-menu-trigger");
     match toolsTrigger, toolsTrigger ≫= parentElement with
     | Some trig, Some _ =>
         Ok (true, mountWith e id (fun d root => insertAfter d trig root))
     | _, _ => Ok (false, e)
     end) = Ok (r, e') ->
    r = false /\ e' = e \/ r = true /\ Mounted e e').
  { destruct (queryR B e (lit "#input-tools-menu-trigger")) as [[trig|]|] eqn:Ht; rsimpl;
      try done.
    - simpl. destruct (parentElement trig) as [par|] eqn:Hpar.
      + intros [= <- <-]. right. split; [done|].
        eapply mounted_insertAfter; [by eapply queryR_valid|done|apply RootLike_plain].
      + intros [= <- <-]. by left.
    - intros [= <- <-]. by left. }
  destruct (firstQuery B e _) as [[sb|]|] eqn:Hsb; rsimpl; try done.
  simpl. destruct (parentElement sb) as [par|] eqn:Hpar; [|done].
  intros [= <- <-]. right. split; [done|].
  eapply mounted_insertBefore; [by eapply firstQuery_valid|done|apply RootLike_plain].
Qed.

Lemma mountGeminiButton_spec (e e' : Engine) (r : bool) :
  mountGeminiButton B e = Ok (r, e') -> StrategyOk e r e'.
Proof.
  unfold mountGeminiButton, StrategyOk.
  assert (Hrest :
    (toolbox ← queryR B e (lit "toolbox-drawer .toolbox-drawer-container");
     match toolbox with
     | Some tb => Ok (true, mountWith e id (fun d root => appendChild d tb root))
     | None =>
         let sendButton := getSendButton B (epage e) (platform e) in
         match sendButton, sendButton ≫= parentElement with
         | Some sb, Some _ =>
             Ok (true, mountWith e
                         (mapAttrs (addStyle (SetProp (lit "marginRight") (lit "4px"))))
                         (fun d root => insertBefore d sb root))
         | _, _ => Ok (false, e)
         end
     end) = Ok (r, e') ->
    r = false /\ e' = e \/ r = true /\ Mounted e e').
  { destruct (queryR B e (lit "toolbox-drawer .toolbox-drawer-container"))
      as [[tb|]|] eqn:Ht; rsimpl; try done.
    - intros [= <- <-]. right. split; [done|].
      apply mounted_appendChild; [by eapply queryR_valid|apply RootLike_plain].
    - cbv zeta. destruct (getSendButton B (epage e) (platform e)) as [sb|] eqn:Hsb.
      + simpl. destruct (parentElement sb) as [par|] eqn:Hpar.
        * intros [= <- <-]. right. split; [done|].
          eapply mounted_insertBefore;
            [by eapply (getSendButton_valid B (epage e))|done|apply RootLike_styled].
        * intros [= <- <-]. by left.
      + intros [= <- <-]. by left. }
  destruct (queryR B e (lit ".text-input-field-main-area")) as [[ma|]|] eqn:Hma; rsimpl;
    try done.
  simpl. destruct (parentElement ma) as [par|] eqn:Hpar; [|done].
  intros [= <- <-]. right. split; [done|].
  apply (mountWith_mounted_styles e _ _ par
           (fun root => insertKid root (List.last ma 0%nat))
           [SetProp (lit "display") (lit "flex"); SetProp (lit "alignItems") (lit "center")]).
  - eapply ValidElem_parent; [|done]. by eapply queryR_valid.
  - apply RootLike_styled.
  - intros d root. simpl. unfold insertBefore.
    by rewrite (parentElement_removelast ma par Hpar).
  - intros root. constructor.
Qed.

Lemma mountGenericButton_spec (e e' : Engine) (r : bool) :
  mountGenericButton B e = Ok (r, e') -> StrategyOk e r e'.
Proof.
  unfold mountGenericButton, StrategyOk. cbv zeta.
  assert (Hrest :
    (anchor ← getAnchor B e (platform e);
     match anchor with
     | Some a => Ok (true, mountWith e id (fun d root => appendChild d a root))
     | None => Ok (false, e)
     end) = Ok (r, e') ->
    r = false /\ e' = e \/ r = true /\ Mounted e e').
  { destruct (getAnchor B e (platform e)) as [[a|]|] eqn:Ha; rsimpl; try done.
    - intros [= <- <-]. right. split; [done|].
      apply mounted_appendChild; [by eapply getAnchor_valid|apply RootLike_plain].
    - intros [= <- <-]. by left. }
  destruct (getSendButton B (epage e) (platform e)) as [sb|] eqn:Hsb; [|done].
  simpl. destruct (parentElement sb) as [par|] eqn:Hpar; [|done].
  intros [= <- <-]. right. split; [done|].
  eapply mounted_insertBefore;
    [by eapply (getSendButton_valid B (epage e))|done|apply RootLike_plain].
Qed.

Lemma mountPerplexityButton_spec (e e' : Engine) (r : bool) :
  mountPerplexityButton B e = Ok (r, e') -> StrategyOk e r e'.
Proof.
  unfold mountPerplexityButton, StrategyOk.
  destruct (queryR B e (litq "div[data-testid=`search-mode-studio`]"))
    as [studio|] eqn:Hst; rsimpl; [|done].
  set (grp := match studio with
              | Some st => closestR B e st (litq "[role=`radiogroup`]")
              | None => Ok None
              end).
  assert (Hgrp : forall g, grp = Ok (Some g) -> ValidElem (edoc e) g).
  { intros g. unfold grp. destruct studio as [st|]; [|done].
    apply closestR_valid. by eapply queryR_valid. }
  destruct grp as [[g|]|] eqn:Hg; rsimpl; [| |done].
  - specialize (Hgrp g eq_refl).
    destruct (parentElement g) as [row|] eqn:Hrow; [|done].
    intros [= <- <-]. right. split; [done|].
    apply (mountWith_mounted_styles e id _ row
             (fun root => insertKid root (S (List.last g 0%nat)))
             [SetProp (lit "display") (lit "flex");
              SetProp (lit "alignItems") (lit "center");
              SetProp (lit "gap") (lit "8px")]).
    + by eapply ValidElem_parent.
    + apply RootLike_plain.
    + intros d root. simpl. unfold insertAfter.
      by rewrite (parentElement_removelast g row Hrow).
    + intros root. constructor.
  - destruct (queryR B e (lit "div.gap-xs.flex.items-center")) as [[cr|]|] eqn:Hcr;
      rsimpl; [| |done].
    + intros [= <- <-]. right. split; [done|].
      apply mounted_appendChild; [by eapply queryR_valid|apply RootLike_plain].
    + destruct (firstQuery B e _) as [[ie|]|] eqn:Hie; rsimpl; [| |done].
      * assert (ValidElem (edoc e) ie) as Hv by (by eapply firstQuery_valid).
        destruct (flexAncestor B (edoc e) ie) as [current|] eqn:Hflex.
        -- intros [= <- <-]. right. split; [done|].
           apply (mountWith_mounted_styles e id _ current
                    (fun root => insertKid root 0%nat)
                    [AppendCssText (lit "display: flex !important; align-items: center !important; gap: 8px !important;")]).
           ++ by eapply flexAncestor_valid.
           ++ apply RootLike_plain.
           ++ intros d root. done.
           ++ intros root. constructor.
        -- unfold createLettaButton. cbv beta iota zeta.
           change (edoc (emitE (emitE (setNextSerial e _) _) _)) with (edoc e).
           destruct (documentBody (edoc e)) as [body|] eqn:Hbody; [|done].
           intros [= <- <-]. right. split; [done|].
           eexists body, _, _, [_; _].
           split; [by apply documentBody_valid|].
           split; [apply RootLike_floating|].
           split; [apply place_append|]. reflexivity.
      * intros [= <- <-]. by left.
Qed.

Lemma strategy_spec (e e' : Engine) (r : bool) :
  match platform e with
  | Some chatgpt => mountChatGPTButton B e
  | Some claude => mountClaudeButton B e
  | Some gemini => mountGeminiButton B e
  | Some perplexity => mountPerplexityButton B e
  | None => mountGenericButton B e
  end = Ok (r, e') ->
  StrategyOk e r e'.
Proof.
  destruct (platform e) as [[]|].
  - apply mountChatGPTButton_spec.
  - apply mountClaudeButton_spec.
  - apply mountGeminiButton_spec.
  - apply mountPerplexityButton_spec.
  - apply mountGenericButton_spec.
Qed.

End Strategies.

Lemma delete_none {A} (l : list A) (i : nat) : l !! i = None -> delete i l = l.
Proof.
  revert i. induction l as [|x l IH]; intros [|i] H; simpl in *; try done.
  f_equal. by apply IH.
Qed.

Lemma alter_none {A} (f : A -> A) (l : list A) (i : nat) :
  l !! i = None -> alter f i l = l.
Proof.
  revert i. induction l as [|x l IH]; intros [|i] H; simpl in *; try done.
  f_equal. by apply IH.
Qed.

Section MountedFacts.

Implicit Types (P : Attrs -> bool) (e : Engine) (d : Node).

Lemma isIcon_blind : StyleBlind isIcon.
Proof. done. Qed.

Lemma isFloating_blind : StyleBlind isFloating.
Proof. done. Qed.

Lemma hasSerial_blind (s : nat) : StyleBlind (hasSerial s).
Proof. done. Qed.


Lemma list_sum_map_app (c : Node -> nat) (l1 l2 : list Node) :
  list_sum (List.map c (l1 ++ l2))
  = (list_sum (List.map c l1) + list_sum (List.map c l2))%nat.
Proof. by rewrite List.map_app, list_sum_app. Qed.

(** A placement keeps the element it edits an element with the same identity
    and adds the elements of the wrapper to it. *)
Lemma placement_effect P (root : Node) (F : Node -> Node) (a : Attrs) (ks : list Node) :
  Placement root F -> StyleBlind P ->
  exists a' ks', F (Elem a ks) = Elem a' ks'
                 /\ serial a' = serial a
                 /\ count P (Elem a' ks') = (count P (Elem a ks) + count P root)%nat.
Proof.
  intros HF HP. induction HF as [i| |w F HF IH].
  - eexists _, _. split; [reflexivity|]. split; [done|].
    cbn [count]. rewrite list_sum_insert. lia.
  - eexists _, _. split; [reflexivity|]. split; [done|].
    cbn [count]. rewrite list_sum_map_app. simpl. lia.
  - destruct IH as (a' & ks' & -> & Hs & Hc).
    eexists _, _. split; [reflexivity|]. split; [done|].
    cbn [count] in *. rewrite HP. lia.
Qed.

Lemma placement_text (root : Node) (F : Node -> Node) (t : jsstring) :
  Placement root F -> F (Text t) = Text t.
Proof. induction 1 as [i| |w F HF IH]; [done|done|]. by rewrite IH. Qed.

Lemma countDoc_placed P (d : Node) (par : path) (root : Node) (F : Node -> Node) :
  ValidElem d par -> Placement root F -> StyleBlind P ->
  countDoc P (updateAt F d par) = (countDoc P d + count P root)%nat.
Proof.
  intros [Hne (a & ks & Hn)] HF HP.
  pose proof (countDoc_updateAt P F d par _ Hne Hn) as H.
  destruct (placement_effect P root F a ks HF HP) as (a' & ks' & HF' & _ & Hc).
  rewrite HF' in H. lia.
Qed.

Lemma nodeSerial_updateAt (F : Node -> Node) (k : Node) (p : path) :
  (forall n, nodeSerial (F n) = nodeSerial n) ->
  nodeSerial (updateAt F k p) = nodeSerial k.
Proof.
  intros HF. destruct p as [|i p]; simpl; [apply HF|]. by destruct k.
Qed.

Lemma TopFree_updateAt (b : nat) (F : Node -> Node) (d : Node) (par : path) :
  par <> [] -> (forall n, nodeSerial (F n) = nodeSerial n) ->
  TopFree b d -> TopFree b (updateAt F d par).
Proof.
  intros Hne HF Hd j a ks H. destruct par as [|c par]; [done|].
  destruct d as [|a0 kids]; [done|]. simpl in H.
  destruct (decide (c = j)) as [->|Hcj].
  - rewrite list_lookup_alter_eq in H.
    destruct (kids !! j) as [k|] eqn:Hk; simpl in H; [|done].
    pose proof (nodeSerial_updateAt F k par HF) as Hs.
    destruct (updateAt F k par) as [|a1 k1] eqn:Hu; [done|]. injection H as <- <-.
    destruct k as [|ak kk]; simpl in Hs; [congruence|].
    rewrite Hs. apply (Hd j ak kk). simpl. by rewrite Hk.
  - rewrite list_lookup_alter_ne in H by done.
    apply (Hd j a ks). simpl. done.
Qed.

Lemma Placement_serial (root : Node) (F : Node -> Node) :
  Placement root F -> forall n, nodeSerial (F n) = nodeSerial n.
Proof.
  intros HF [t|a ks].
  - by rewrite (placement_text root F t HF).
  - destruct (placement_effect isIcon root F a ks HF isIcon_blind) as (a' & ks' & -> & Hs & _).
    done.
Qed.

Lemma TopFree_removeNode (b : nat) (d : Node) (p : path) :
  TopFree b d -> TopFree b (removeNode d p).
Proof.
  intros Hd. unfold removeNode. destruct p as [|i p]; [done|].
  generalize (List.last (i :: p) 0%nat) as l. intros l.
  destruct (removelast (i :: p)) as [|c par] eqn:Hr.
  - intros j a ks H. destruct d as [|a0 kids]; [done|].
    cbn [updateAt removeKid nodeAt] in H.
    destruct (decide (j < l)%nat).
    + rewrite list_lookup_delete_lt in H by done. apply (Hd j a ks). done.
    + rewrite list_lookup_delete_ge in H by lia. apply (Hd (S j) a ks). done.
  - apply TopFree_updateAt; [done| |done]. by intros [|? ?].
Qed.

Lemma countDoc_removeKid_at P (d : Node) (par : path) (l : nat) (am : Attrs)
    (km : list Node) (n : Node) :
  nodeAt d par = Some (Elem am km) -> km !! l = Some n ->
  (countDoc P (updateAt (removeKid l) d par) + count P n = countDoc P d)%nat.
Proof.
  intros Hm Hk. pose proof (list_sum_delete (count P) l km n Hk) as Hdel.
  destruct par as [|c par].
  - simpl in Hm. injection Hm as ->. simpl. done.
  - pose proof (countDoc_updateAt P (removeKid l) d (c :: par) _ ltac:(done) Hm) as Hu.
    cbn [removeKid count] in Hu. lia.
Qed.

Lemma nodeAt_split (d : Node) (par : path) (l : nat) (n : Node) :
  nodeAt d (par ++ [l]) = Some n ->
  exists am km, nodeAt d par = Some (Elem am km) /\ km !! l = Some n.
Proof.
  rewrite nodeAt_app. destruct (nodeAt d par) as [[|am km]|]; simpl; try done.
  destruct (km !! l) as [k|] eqn:Hk; [|done]. intros [= <-]. by exists am, km.
Qed.

Lemma removeNode_snoc (d : Node) (par : path) (l : nat) :
  removeNode d (par ++ [l]) = updateAt (removeKid l) d par.
Proof.
  unfold removeNode. destruct (par ++ [l]) as [|i p] eqn:E; [by destruct par|].
  rewrite <- E. by rewrite List.removelast_last, last_last.
Qed.

Lemma countDoc_removeNode P (d : Node) (p : path) (n : Node) :
  p <> [] -> nodeAt d p = Some n ->
  (countDoc P (removeNode d p) + count P n = countDoc P d)%nat.
Proof.
  intros Hne Hn. rewrite (path_snoc p Hne) in *.
  rewrite removeNode_snoc.
  apply nodeAt_split in Hn as (am & km & Hm & Hk).
  by eapply countDoc_removeKid_at.
Qed.

Lemma updateAt_missing (f : Node -> Node) (d : Node) (p : path) :
  nodeAt d p = None -> updateAt f d p = d.
Proof.
  revert d. induction p as [|c p IH]; intros d H; [done|].
  destruct d as [|a0 kids]; [done|]. simpl in *. f_equal.
  destruct (kids !! c) as [k|] eqn:Hk; [|by apply alter_none].
  rewrite <- (list_alter_id id kids c) at 2 by done.
  apply list_alter_ext; [|done]. intros x Hx. rewrite Hk in Hx. injection Hx as <-.
  by apply IH.
Qed.

Lemma countDoc_removeNode_le P (d : Node) (p : path) :
  (countDoc P (removeNode d p) <= countDoc P d)%nat.
Proof.
  destruct (decide (p = [])) as [->|Hne]; [done|].
  rewrite (path_snoc p Hne). rewrite removeNode_snoc.
  set (par := removelast p). set (l := List.last p 0%nat).
  destruct (nodeAt d par) as [[t|am km]|] eqn:Hm.
  - destruct par as [|c par']; [by (simpl in Hm; injection Hm as ->)|].
    pose proof (countDoc_updateAt P (removeKid l) d (c :: par') _ ltac:(done) Hm) as Hu.
    cbn [removeKid count] in Hu. lia.
  - destruct (km !! l) as [k|] eqn:Hk.
    + pose proof (countDoc_removeKid_at P d par l am km k Hm Hk). lia.
    + destruct par as [|c par'].
      * simpl in Hm. injection Hm as ->. simpl. by rewrite delete_none.
      * pose proof (countDoc_updateAt P (removeKid l) d (c :: par') _ ltac:(done) Hm) as Hu.
        cbn [removeKid count] in Hu. rewrite delete_none in Hu by done. lia.
  - by rewrite updateAt_missing.
Qed.

End MountedFacts.

Section RootCounts.

Implicit Types (P Q : Attrs -> bool).

Lemma count_mono P Q (n : Node) :
  (forall a, P a = true -> Q a = true) -> (count P n <= count Q n)%nat.
Proof.
  intros H. induction n as [|a kids IH] using Node_ind'; simpl; [lia|].
  assert (list_sum (List.map (count P) kids) <= list_sum (List.map (count Q) kids))%nat.
  { induction IH as [|k ks Hk _ IHks]; simpl; lia. }
  specialize (H a). destruct (P a), (Q a); try lia; by specialize (H eq_refl).
Qed.



Lemma logo_no_ids : list_sum (List.map (count isIcon) logoSvg) = 0%nat
                    /\ list_sum (List.map (count isFloating) logoSvg) = 0%nat.
Proof. split; vm_compute; reflexivity. Qed.

Lemma logo_no_serial (b : nat) : list_sum (List.map (count (hasSerial b)) logoSvg) = 0%nat.
Proof. reflexivity. Qed.

Lemma RootLike_counts (s : nat) (root : Node) :
  RootLike s root ->
  count isIcon root = 1%nat
  /\ (count isFloating root <= 1)%nat
  /\ count (strayIcon (S s)) root = 0%nat
  /\ count (hasSerial (S s)) root = 1%nat.
Proof.
  intros (a & -> & Hs & Hid).
  destruct logo_no_ids as [Hi Hf]. pose proof (logo_no_serial (S s)) as Hl.
  assert (Hstray : list_sum (List.map (count (strayIcon (S s))) logoSvg) = 0%nat).
  { assert (Hle : forall l, (list_sum (List.map (count (strayIcon (S s))) l)
                             <= list_sum (List.map (count isIcon) l))%nat).
    { induction l as [|k l IH]; simpl; [lia|].
      pose proof (count_mono (strayIcon (S s)) isIcon k) as Hk.
      assert (count (strayIcon (S s)) k <= count isIcon k)%nat; [|lia].
      apply Hk. unfold strayIcon. by intros a0 [? _]%andb_true_iff. }
    specialize (Hle logoSvg). lia. }
  assert (Hroot : isIcon a = false).
  { unfold isIcon. destruct Hid as [-> | ->]; vm_compute; reflexivity. }
  assert (Hrs : hasSerial (S s) a = false).
  { unfold hasSerial. rewrite Hs. apply bool_decide_eq_false_2. intros [= ?]. lia. }
  unfold lettaButton. cbn [count List.map list_sum].
  rewrite Hi, Hf, Hl, Hstray, Hroot, Hrs. unfold strayIcon. rewrite Hroot.
  cbn [andb].
  assert (Hb1 : forall x y z w v u, isIcon (mkAttrs x (lit "button") ICON_BUTTON_ID y z w v u
                                            [SetCssText buttonStyle] false false false) = true).
  { intros. unfold isIcon. simpl idAttr. apply eqb_refl. }
  rewrite !Hb1.
  assert (Hb2 : forall y z w v u t, hasSerial (S s) (mkAttrs (Some (S s)) (lit "button") y z w v u t
                                            [SetCssText buttonStyle] false false false) = true).
  { intros. unfold hasSerial. simpl serial. by apply bool_decide_eq_true_2. }
  rewrite !Hb2. cbn [negb andb].
  assert (Hb3 : forall x y z w v u, isFloating (mkAttrs x (lit "button") ICON_BUTTON_ID y z w v u
                                            [SetCssText buttonStyle] false false false) = false).
  { intros. vm_compute. reflexivity. }
  rewrite !Hb3.
  unfold list_sum. cbn [fold_right]. destruct (isFloating a); repeat split; lia.
Qed.

End RootCounts.

Section RemoveUI.

Implicit Types (P : Attrs -> bool) (e : Engine).

Lemma removeUI_keeps e :
  timers (removeUI e) = timers e
  /\ nextSerial (removeUI e) = nextSerial e
  /\ platform (removeUI e) = platform e
  /\ lastUrl (removeUI e) = lastUrl e
  /\ injectedMemoryIds (inj (removeUI e)) = injectedMemoryIds (inj e)
  /\ href (epage (removeUI e)) = href (epage e)
  /\ buttonWatcherStarted (removeUI e) = buttonWatcherStarted e
  /\ buttonHost (removeUI e) = None.
Proof.
  unfold removeUI, detach, runCleanup.
  repeat (case_match; simpl); repeat split; try done.
Qed.

Lemma edoc_runCleanup e a : edoc (runCleanup e a) = edoc e.
Proof. unfold runCleanup. by destruct (hasCleanup a). Qed.

Lemma buttonHost_runCleanup e a : buttonHost (runCleanup e a) = buttonHost e.
Proof. unfold runCleanup. by destruct (hasCleanup a). Qed.

Lemma edoc_detach e p n : edoc (detach e p n) = removeNode (edoc e) p.
Proof. done. Qed.

Lemma removeFloating_doc e :
  buttonHost (removeFloating e) = buttonHost e
  /\ ((countDoc isFloating (edoc e) <= 1)%nat ->
        countDoc isFloating (edoc (removeFloating e)) = 0%nat)
  /\ (forall P, countDoc P (edoc (removeFloating e)) <= countDoc P (edoc e))%nat
  /\ (forall b, TopFree b (edoc e) -> TopFree b (edoc (removeFloating e))).
Proof.
  unfold removeFloating.
  destruct (getElementById (edoc e) FLOATING_ID) as [fp|] eqn:Hfind.
  - apply (find_doc_spec isFloating) in Hfind as [[Hne _] (a & c & Hn & Ha)].
    rewrite Hn. rewrite !edoc_detach, !edoc_runCleanup.
    split; [simpl; apply buttonHost_runCleanup|].
    pose proof (countDoc_removeNode isFloating (edoc e) fp _ Hne Hn) as Hc.
    assert (0 < count isFloating (Elem a c))%nat by (simpl; rewrite Ha; lia).
    split; [lia|]. split.
    + intros P. apply countDoc_removeNode_le.
    + intros b. apply TopFree_removeNode.
  - split; [done|]. split; [|split; [done|done]].
    intros _. destruct (countDoc isFloating (edoc e)) eqn:E; [done|].
    destruct (find_doc_some isFloating (edoc e) ltac:(lia)) as [? Hs].
    unfold getElementById in Hfind. unfold testAt, isFloating in Hs.
    unfold hasId in Hfind. congruence.
Qed.

Lemma getElementById_none P (id : jsstring) (d : Node) :
  (forall a, P a = eqb (idAttr a) id) ->
  getElementById d id = None <-> countDoc P d = 0%nat.
Proof.
  intros HP.
  assert (Heq : getElementById d id = List.find (testAt d P) (docPaths d)).
  { unfold getElementById. apply find_ext'. intros p. unfold hasId, testAt.
    destruct (attrsAt d p); [by rewrite HP|done]. }
  rewrite Heq. split.
  - intros Hnone. destruct (countDoc P d) eqn:E; [done|].
    destruct (find_doc_some P d ltac:(lia)) as [? Hs]. congruence.
  - apply find_doc_none.
Qed.

Lemma controlPresent_false (d : Node) :
  controlPresent d = false <-> countDoc isIcon d = 0%nat /\ countDoc isFloating d = 0%nat.
Proof.
  unfold controlPresent.
  rewrite orb_false_iff, !bool_decide_eq_false, <- !eq_None_not_Some.
  by rewrite (getElementById_none isIcon), (getElementById_none isFloating).
Qed.

Lemma controlPresent_true (d : Node) :
  (0 < countDoc isIcon d)%nat -> controlPresent d = true.
Proof.
  intros H. destruct (controlPresent d) eqn:E; [done|].
  apply controlPresent_false in E. lia.
Qed.

Lemma removeUI_phases e :
  removeUI e
  = match buttonHost (removeFloating e) with
    | Some b =>
        setButtonHost
          (match findSerial (docPaths (edoc (removeFloating e))) (edoc (removeFloating e)) b with
           | Some pb =>
               match parentElement pb with
               | Some root =>
                   match nodeAt (edoc (removeFloating e)) root with
                   | Some (Elem a _ as r) => detach (runCleanup (removeFloating e) a) root r
                   | _ => removeFloating e
                   end
               | None => removeFloating e
               end
           | None =>
               match detachedParent (detached (removeFloating e)) b with
               | Some a => runCleanup (removeFloating e) a
               | None => removeFloating e
               end
           end) None
    | None => removeFloating e
    end.
Proof. done. Qed.


Lemma removeUI_count_le e P :
  (countDoc P (edoc (removeUI e)) <= countDoc P (edoc e))%nat.
Proof.
  rewrite removeUI_phases.
  destruct (removeFloating_doc e) as (_ & _ & Hle & _). specialize (Hle P).
  destruct (buttonHost (removeFloating e)) as [b|]; [|done].
  change (edoc (setButtonHost ?x None)) with (edoc x).
  repeat case_match; rewrite ?edoc_detach, ?edoc_runCleanup; try done.
  etransitivity; [apply countDoc_removeNode_le|done].
Qed.


End RemoveUI.

Section MountOutcome.

Context (B : Browser).

Lemma fold_emit_keeps (fx : list Effect) (e : Engine) :
  timers (fold_left emitE fx e) = timers e
  /\ buttonWatcherStarted (fold_left emitE fx e) = buttonWatcherStarted e
  /\ platform (fold_left emitE fx e) = platform e.
Proof.
  revert e. induction fx as [|x fx IH]; intros e; simpl; [done|].
  destruct (IH (emitE e x)) as (-> & -> & ->). done.
Qed.

Lemma mounted_facts (e e' : Engine) :
  Mounted e e' ->
  exists root,
    RootLike (nextSerial e) root
    /\ (forall P, StyleBlind P ->
          countDoc P (edoc e') = (countDoc P (edoc e) + count P root)%nat)
    /\ (forall b, TopFree b (edoc e) -> TopFree b (edoc e'))
    /\ buttonHost e' = Some (S (nextSerial e))
    /\ timers e' = timers e
    /\ buttonWatcherStarted e' = buttonWatcherStarted e.
Proof.
  intros (par & root & F & fx & Hv & Hr & HF & ->). exists root.
  split; [done|]. split; [|split; [|split; [done|]]].
  - intros P HP. change (edoc (mountedState e fx ?d)) with d.
    by apply countDoc_placed.
  - intros b Hb. change (edoc (mountedState e fx ?d)) with d.
    apply TopFree_updateAt; [apply Hv|by eapply Placement_serial|done].
  - unfold mountedState. simpl.
    destruct (fold_emit_keeps fx (setNextSerial e (S (S (nextSerial e))))) as (-> & -> & _).
    done.
Qed.

Lemma serialsBelow_count (n b : nat) (t : Node) :
  serialsBelow n t = true -> (n <= b)%nat -> count (hasSerial b) t = 0%nat.
Proof.
  intros H Hb. induction t as [|a kids IH] using Node_ind'; [done|].
  simpl in H. apply andb_true_iff in H as [Ha Hk]. simpl.
  assert (list_sum (List.map (count (hasSerial b)) kids) = 0%nat) as ->.
  { induction IH as [|k ks Hk1 _ IHks]; simpl in *; [done|].
    apply andb_true_iff in Hk as [Hk2 Hk3]. rewrite (Hk1 Hk2), (IHks Hk3). done. }
  unfold hasSerial. destruct (serial a) as [s|] eqn:Hs.
  - apply Nat.ltb_lt in Ha. rewrite bool_decide_eq_false_2; [done|]. intros [= ->]. lia.
  - by rewrite bool_decide_eq_false_2.
Qed.

Lemma fresh_countDoc (e : Engine) (b : nat) :
  SerialsFresh e -> (nextSerial e <= b)%nat -> countDoc (hasSerial b) (edoc e) = 0%nat.
Proof.
  intros H Hb. pose proof (serialsBelow_count _ b _ H Hb) as Hc.
  destruct (edoc e) as [|a kids]; [done|]. simpl in *. lia.
Qed.

Lemma TopFree_of_count (b : nat) (d : Node) :
  countDoc (hasSerial b) d = 0%nat -> TopFree b d.
Proof.
  intros Hc j a ks Hn Hs.
  pose proof (countDoc_zero_at (hasSerial b) d [j] a ks Hc ltac:(done) Hn) as Hf.
  unfold hasSerial in Hf. by apply bool_decide_eq_false in Hf.
Qed.

(** A successful strategy on a document without control leaves exactly one, and
    the state tracks it when the identity handed out is new. *)
Lemma mounted_one (e e' : Engine) :
  Mounted e e' ->
  countDoc isIcon (edoc e) = 0%nat ->
  controls (edoc e') = 1%nat.
Proof.
  intros (root & Hr & Hc & _)%mounted_facts Hi.
  apply RootLike_counts in Hr as (Hri & _).
  unfold controls. rewrite (Hc isIcon isIcon_blind). lia.
Qed.


Lemma beforeMount_facts (e : Engine) :
  (forall P, countDoc P (edoc (beforeMount e)) <= countDoc P (edoc e))%nat
  /\ nextSerial (beforeMount e) = nextSerial e
  /\ platform (beforeMount e) = platform e
  /\ (buttonHost e <> None -> buttonHost (beforeMount e) = None).
Proof.
  unfold beforeMount. destruct (buttonHost e) as [b|]; [|done].
  destruct (removeUI_keeps e) as (_ & Hn & Hp & _ & _ & _ & _ & Hb).
  split; [intros P; apply removeUI_count_le|done].
Qed.

Lemma startButtonWatcher_ok (e e' : Engine) :
  startButtonWatcher e = Ok e' ->
  edoc e' = edoc e /\ buttonHost e' = buttonHost e /\ timers e' = timers e.
Proof.
  unfold startButtonWatcher. cbv zeta.
  destruct (documentBody _); intros [= <-]. done.
Qed.

(** The shape of a run of [mountButtonOnEditor] on a document without control. *)
Lemma mount_run (e e1 : Engine) :
  controlPresent (edoc e) = false ->
  mountButtonOnEditor B e = Ok e1 ->
  exists success e',
    StrategyOk (beforeMount e) success e'
    /\ edoc e1 = edoc e'
    /\ buttonHost e1 = buttonHost e'
    /\ timers e1 = (if success then timers e' else timers e' ++ [(1000, TaskMount)]).
Proof.
  intros Hcp. unfold mountButtonOnEditor. rewrite Hcp.
  fold (beforeMount e). set (e0 := beforeMount e).
  assert (Hplat : platform e0 = platform (beforeMount e)) by done.
  destruct (match platform e0 with
            | Some chatgpt => mountChatGPTButton B e0
            | Some claude => mountClaudeButton B e0
            | Some gemini => mountGeminiButton B e0
            | Some perplexity => mountPerplexityButton B e0
            | None => mountGenericButton B e0
            end) as [[success e']|] eqn:Hstrat; rsimpl.
  2: { intros [=]. }
  apply strategy_spec in Hstrat. intros Hrest.
  exists success, e'. split; [done|].
  set (e2 := if success then e' else setTimeout e' TaskMount 1000) in *.
  assert (He2 : edoc e2 = edoc e' /\ buttonHost e2 = buttonHost e'
                /\ timers e2 = (if success then timers e' else timers e' ++ [(1000, TaskMount)])).
  { unfold e2. by destruct success. }
  destruct He2 as (Hd & Hb & Ht).
  destruct (buttonWatcherStarted e2).
  - injection Hrest as <-. done.
  - apply startButtonWatcher_ok in Hrest as (-> & -> & ->). done.
Qed.

End MountOutcome.

(* ------------------------------------------------------------------------- *)
(** ** Mounting the control *)
(* ------------------------------------------------------------------------- *)

(** C4, as the spec states it, fails on a supported page where none of the
    elements the strategies look for exists: two mounts in succession, with no
    change of the document, leave no control (and a retry scheduled). *)
Lemma mount_twice_counterexample :
  let e0 := Fixture.engineOf Fixture.bare (Some chatgpt) in
  let e1 := Fixture.mountOnce e0 in
  let e2 := Fixture.mountOnce e1 in
  mountButtonOnEditor Fixture.browser e0 = Ok e1
  /\ mountButtonOnEditor Fixture.browser e1 = Ok e2
  /\ edoc e1 = edoc e0 /\ edoc e2 = edoc e0
  /\ controls (edoc e2) = 0%nat
  /\ controls (edoc e2) <> 1%nat.
Proof.
  cbv zeta. repeat match goal with |- _ /\ _ => split end;
    try (vm_compute; reflexivity).
  vm_compute. discriminate.
Qed.

(** C4, amended. When the icon button or the floating container is in the
    document, [mountButtonOnEditor] returns without changing anything.  On a
    document without control, a mount that places it leaves exactly one icon
    button, and a following mount changes nothing; a mount that finds no
    placement leaves none and schedules a retry after 1000 ms. *)
Theorem mount_idempotent (B : Browser) (e : Engine) :
  (controlPresent (edoc e) = true -> mountButtonOnEditor B e = Ok e)
  /\ (controlPresent (edoc e) = false ->
      forall e1, mountButtonOnEditor B e = Ok e1 ->
        (controls (edoc e1) = 1%nat /\ mountButtonOnEditor B e1 = Ok e1)
        \/ (controls (edoc e1) = 0%nat
            /\ controlPresent (edoc e1) = false
            /\ exists older, timers e1 = older ++ [(1000, TaskMount)])).
Proof.
  split.
  - intros H. unfold mountButtonOnEditor. by rewrite H.
  - intros Hcp e1 Hrun.
    destruct (mount_run B e e1 Hcp Hrun) as (success & e' & Hok & Hd & _ & Ht).
    apply controlPresent_false in Hcp as [Hi Hf].
    destruct (beforeMount_facts e) as (Hle & _).
    assert (Hi0 : countDoc isIcon (edoc (beforeMount e)) = 0%nat)
      by (pose proof (Hle isIcon); lia).
    assert (Hf0 : countDoc isFloating (edoc (beforeMount e)) = 0%nat)
      by (pose proof (Hle isFloating); lia).
    destruct Hok as [[-> ->]|[-> Hm]].
    + right. rewrite Hd. unfold controls.
      split; [done|]. split; [by apply controlPresent_false|]. by eexists.
    + left. pose proof (mounted_one _ _ Hm Hi0) as Hone. rewrite <- Hd in Hone.
      split; [done|]. unfold mountButtonOnEditor.
      rewrite controlPresent_true; [done|]. unfold controls in Hone. lia.
Qed.

Lemma mount_idempotent_witness :
  mountButtonOnEditor Fixture.browser
    (Fixture.mountOnce (Fixture.engineOf (Fixture.chatPage []) (Some chatgpt)))
  = Ok (Fixture.mountOnce (Fixture.engineOf (Fixture.chatPage []) (Some chatgpt))).
Proof.
  apply (proj1 (mount_idempotent Fixture.browser
                  (Fixture.mountOnce (Fixture.engineOf (Fixture.chatPage []) (Some chatgpt))))).
  vm_compute; reflexivity.
Defined.

(** On the ChatGPT fixture the control is placed before the send button: one
    icon button after one mount, and the second mount returns the same state. *)
Example mount_twice_example :
  let e0 := Fixture.engineOf (Fixture.chatPage []) (Some chatgpt) in
  let e1 := Fixture.mountOnce e0 in
  mountButtonOnEditor Fixture.browser e0 = Ok e1
  /\ controls (edoc e1) = 1%nat
  /\ getElementById (edoc e1) ICON_BUTTON_ID = Some [0; 1; 0; 1; 0]%nat
  /\ mountButtonOnEditor Fixture.browser e1 = Ok e1.
Proof.
  cbv zeta. repeat match goal with |- _ /\ _ => split end; vm_compute; reflexivity.
Qed.

(* ------------------------------------------------------------------------- *)
(** ** The navigation monitor *)
(* ------------------------------------------------------------------------- *)

Section Navigation.

Context (B : Browser).





Lemma removeFloating_effects (e : Engine) (fp : path) (a : Attrs) (c : list Node) :
  getElementById (edoc e) FLOATING_ID = Some fp ->
  nodeAt (edoc e) fp = Some (Elem a c) ->
  hasCleanup a = true ->
  effects (epage (removeFloating e))
  = effects (epage e) ++ [WindowListenerRemoved (serial a) (lit "scroll");
                          WindowListenerRemoved (serial a) (lit "resize")].
Proof.
  intros Hf Hn Hc. unfold removeFloating, detach, runCleanup. rewrite Hf, Hn, Hc.
  simpl. by rewrite <- app_assoc.
Qed.





End Navigation.


(** The state of the counterexample is one the amended statement covers. *)
Example loading_state_tracked :
  Tracked (setDoc (navigate (Fixture.mountOnce
                               (Fixture.engineOf (Fixture.chatPage []) (Some chatgpt)))
                            (lit "https://chatgpt.com/c/2"))
                  Fixture.loadingView).
Proof.
  split; [vm_compute; lia|]. cbn [buttonHost setDoc setPage setInj navigate].
  change (buttonHost (Fixture.mountOnce
                        (Fixture.engineOf (Fixture.chatPage []) (Some chatgpt))))
    with (Some 1%nat).
  split; [vm_compute; reflexivity|]. split; [vm_compute; lia|].
  apply TopFree_of_count. vm_compute; reflexivity.
Qed.


(** The control is back before the 500 ms timer fires when the mutation
    observer runs its callback after the removal: on the ChatGPT fixture the
    callback mounts the control, and the task of the timer, run later, finds
    it and mounts nothing more. *)
Example navigation_watcher_example :
  let e1 := Fixture.mountOnce (Fixture.engineOf (Fixture.chatPage []) (Some chatgpt)) in
  let e' := urlTick (navigate e1 (lit "https://chatgpt.com/c/2")) in
  mutationObserver e' = true
  /\ controlPresent (edoc e') = false
  /\ exists ew,
       watcherTick Fixture.browser e' = Ok ew
       /\ controlPresent (edoc ew) = true
       /\ timers ew = [(500, TaskRemount)]
       /\ exists e2, runTask Fixture.browser ew TaskRemount = Ok e2
                     /\ controls (edoc e2) = 1%nat.
Proof.
  cbv zeta. split; [vm_compute; reflexivity|]. split; [vm_compute; reflexivity|].
  eexists. split; [vm_compute; reflexivity|]. split; [vm_compute; reflexivity|].
  split; [vm_compute; reflexivity|].
  eexists. split; vm_compute; reflexivity.
Qed.

(** With the floating container of the Perplexity fallback, the listeners it
    registered on the window are removed when the address changes (the closure
    runs for the container found by id and again through [buttonHost]). *)
Example navigation_floating_example :
  let e1 := Fixture.mountOnce (Fixture.engineOf Fixture.askPage (Some perplexity)) in
  let e' := urlTick (navigate e1 (lit "https://www.perplexity.ai/search/2")) in
  getElementById (edoc e1) FLOATING_ID = Some [0; 1; 1]%nat
  /\ controlPresent (edoc e') = false
  /\ effects (epage e')
     = [WindowListenerAdded (Some 0%nat) (lit "scroll");
        WindowListenerAdded (Some 0%nat) (lit "resize");
        WindowListenerRemoved (Some 0%nat) (lit "scroll");
        WindowListenerRemoved (Some 0%nat) (lit "resize");
        WindowListenerRemoved (Some 0%nat) (lit "scroll");
        WindowListenerRemoved (Some 0%nat) (lit "resize")].
Proof.
  cbv zeta. repeat match goal with |- _ /\ _ => split end; vm_compute; reflexivity.
Qed.

(* ------------------------------------------------------------------------- *)
(** ** Further properties: trimming and searching *)
(* ------------------------------------------------------------------------- *)

Section MoreStrings.

Implicit Types (n s : jsstring).

Lemma trimStart_fixed s :
  match s with c :: _ => isWhite c = false | [] => True end -> trimStart s = s.
Proof. destruct s as [|c s]; [done|]. simpl. by intros ->. Qed.

Lemma trimStart_head s :
  match trimStart s with c :: _ => isWhite c = false | [] => True end.
Proof.
  induction s as [|c s IH]; [done|]. simpl.
  destruct (isWhite c) eqn:E; [done|]. exact E.
Qed.

Lemma trimStart_suffix s : exists k, trimStart s = drop k s.
Proof.
  induction s as [|c s [k IH]]; [by exists 0%nat|]. simpl.
  destruct (isWhite c); [by exists (S k)|by exists 0%nat].
Qed.

Lemma trimEnd_prefix s : exists k, trimEnd s = take k s.
Proof.
  unfold trimEnd. destruct (trimStart_suffix (rev s)) as [k ->].
  exists (length s - k)%nat.
  rewrite List.skipn_rev. by rewrite List.rev_involutive.
Qed.

Lemma trimStart_idem s : trimStart (trimStart s) = trimStart s.
Proof. apply trimStart_fixed, trimStart_head. Qed.

Lemma trimEnd_idem s : trimEnd (trimEnd s) = trimEnd s.
Proof. unfold trimEnd. by rewrite List.rev_involutive, trimStart_idem. Qed.

(** [s.trim().trim()] is [s.trim()]. *)
Lemma trim_idem s : trim (trim s) = trim s.
Proof.
  unfold trim. set (u := trimStart s).
  assert (Hu : match u with c :: _ => isWhite c = false | [] => True end)
    by apply trimStart_head.
  assert (trimStart (trimEnd u) = trimEnd u) as ->.
  { apply trimStart_fixed. destruct (trimEnd_prefix u) as [k ->].
    destruct u as [|c u]; [by rewrite take_nil|]. by destruct k. }
  apply trimEnd_idem.
Qed.

Lemma trim_substring s : exists i k, trim s = take k (drop i s).
Proof.
  unfold trim. destruct (trimStart_suffix s) as [i ->].
  destruct (trimEnd_prefix (drop i s)) as [k ->]. by exists i, k.
Qed.

Lemma startsWith_take n s k : startsWith n (take k s) = true -> startsWith n s = true.
Proof.
  revert s k. induction n as [|a n IH]; intros s k; [done|].
  destruct s as [|b s]; [by rewrite take_nil|].
  destruct k as [|k]; [done|]. simpl.
  intros [-> H]%andb_true_iff. simpl. by apply (IH s k).
Qed.

Lemma startsWith_length n s : startsWith n s = true -> (length n <= length s)%nat.
Proof.
  revert s. induction n as [|a n IH]; intros s; simpl; [lia|].
  destruct s as [|b s]; [done|]. intros [_ H]%andb_true_iff. apply IH in H. simpl. lia.
Qed.

(** [indexOf] returns the least index of an occurrence. *)
Lemma indexOf_least n s (j : nat) :
  startsWith n (drop j s) = true -> 0 <= indexOf n s <= Z.of_nat j.
Proof.
  revert j. induction s as [|b s IH]; intros j H.
  - rewrite drop_nil in H. simpl. rewrite H. lia.
  - rewrite indexOf_cons. destruct (startsWith n (b :: s)) eqn:E; [lia|].
    destruct j as [|j]; [simpl in H; congruence|].
    simpl in H. specialize (IH j H).
    destruct (indexOf n s <? 0) eqn:E2; [apply Z.ltb_lt in E2; lia|lia].
Qed.

Lemma occurrence_includes n s (j : nat) :
  startsWith n (drop j s) = true -> includes n s = true.
Proof. intros H. apply includes_true. by apply (indexOf_least n s j). Qed.

Lemma includes_occurrence n s :
  includes n s = true -> exists j : nat, startsWith n (drop j s) = true.
Proof.
  intros H. apply includes_true in H. exists (Z.to_nat (indexOf n s)).
  by apply indexOf_occurrence.
Qed.

Lemma includes_drop n s (k : nat) : includes n (drop k s) = true -> includes n s = true.
Proof.
  intros [j Hj]%includes_occurrence. rewrite drop_drop in Hj.
  by apply (occurrence_includes n s (k + j)).
Qed.

Lemma drop_take_swap {A} (l : list A) (j k : nat) :
  drop j (take k l) = take (k - j) (drop j l).
Proof.
  revert j k. induction l as [|x l IH]; intros j k.
  - by rewrite take_nil, drop_nil, take_nil.
  - destruct k as [|k]; [by rewrite Nat.sub_0_l, !take_0, drop_nil|].
    destruct j as [|j]; [done|]. simpl. apply IH.
Qed.

Lemma includes_take n s (k : nat) : includes n (take k s) = true -> includes n s = true.
Proof.
  intros [j Hj]%includes_occurrence.
  apply (occurrence_includes n s j).
  rewrite drop_take_swap in Hj. by apply startsWith_take in Hj.
Qed.

Lemma includes_trim n s : includes n s = false -> includes n (trim s) = false.
Proof.
  intros H. destruct (includes n (trim s)) eqn:E; [|done].
  destruct (trim_substring s) as (i & k & Hk). rewrite Hk in E.
  apply includes_take, includes_drop in E. congruence.
Qed.

(** No occurrence of a non-empty needle lies wholly before the first one. *)
Lemma includes_before_first n s :
  n <> [] -> 0 <= indexOf n s ->
  includes n (take (Z.to_nat (indexOf n s)) s) = false.
Proof.
  intros Hn Hpos. set (k := Z.to_nat (indexOf n s)).
  destruct (includes n (take k s)) eqn:E; [|done].
  apply includes_occurrence in E as [j Hj].
  pose proof (startsWith_length _ _ Hj) as Hlen.
  rewrite length_drop, length_take in Hlen.
  assert (0 < length n)%nat by (destruct n; [done|simpl; lia]).
  assert (Hjk : (j < k)%nat) by lia.
  rewrite drop_take_swap in Hj. apply startsWith_take in Hj.
  pose proof (indexOf_least n s j Hj). lia.
Qed.

End MoreStrings.

(* ------------------------------------------------------------------------- *)
(** ** Further properties: the marker protocol *)
(* ------------------------------------------------------------------------- *)

Section MoreMarkers.

Context (B : Browser).

Implicit Types (st : Injector) (ms : list MemoryBlock) (m : MemoryBlock).

(** What [getContentWithoutMemories] returns is trimmed. *)
Lemma stripContent_trimmed (h content : jsstring) :
  trim (stripContent h content) = stripContent h content.
Proof. unfold stripContent. cbv zeta. apply trim_idem. Qed.

Lemma format_truthy ms : ms <> [] -> truthy (formatMemoriesForInjection ms) = true.
Proof.
  intros H. rewrite (format_shape ms H).
  pose proof (terminated_header_length (concat (List.map section ms))) as Hl.
  destruct (terminated NL _); [simpl in Hl; lia|done].
Qed.

Lemma hostname_setInputValue (pg pg' : Page) (el : path) (v : jsstring) :
  setInputValue B pg el v = Returned pg' -> hostname pg' = hostname pg.
Proof.
  unfold setInputValue, setClaudeInputValue, setGeminiInputValue,
    setGenericContentEditableValue, setTextareaValue.
  repeat case_match; intros [= <-]; done.
Qed.

Lemma detectPlatform_setInputValue (pg pg' : Page) (el : path) (v : jsstring) :
  setInputValue B pg el v = Returned pg' -> detectPlatform pg' = detectPlatform pg.
Proof. intros H. unfold detectPlatform. by rewrite (hostname_setInputValue _ _ _ _ H). Qed.

(** A write that raises was made on an [input] element. *)
Lemma setInputValue_raised (pg : Page) (el : path) (v : jsstring) :
  setInputValue B pg el v = TypeError ->
  exists a, attrsAt (doc pg) el = Some a /\ inputField pg a.
Proof.
  intros H. destruct (attrsAt (doc pg) el) as [a|] eqn:Ha.
  - exists a. split; [done|]. by apply (setInputValue_raises B pg el a v Ha).
  - unfold setInputValue in H. by rewrite Ha in H.
Qed.

(** A write that returns was not made on such an element. *)
Lemma setInputValue_returns (pg : Page) (el : path) (v : jsstring) :
  (forall a, attrsAt (doc pg) el = Some a -> ~ inputField pg a) ->
  exists pg', setInputValue B pg el v = Returned pg'.
Proof.
  intros H. destruct (setInputValue B pg el v) as [pg'|] eqn:E; [by exists pg'|].
  destruct (setInputValue_raised pg el v E) as (a & Ha & Hi). by destruct (H a Ha).
Qed.

(** Stripping a block of lines that starts with the header and holds no footer,
    closed by the footer and a line break. *)
Lemma stripContent_block (ps : list jsstring) (T : jsstring) :
  Forall (fun p => includes MEMORY_FOOTER p = false) ps ->
  stripContent MEMORY_HEADER
    (terminated NL (MEMORY_HEADER :: ps) ++ MEMORY_FOOTER ++ [NL] ++ T)
  = trim T.
Proof.
  intros Hfree.
  set (X := terminated NL (MEMORY_HEADER :: ps)).
  assert (Hend : indexOf MEMORY_FOOTER (X ++ MEMORY_FOOTER ++ [NL] ++ T)
                 = Z.of_nat (length X)).
  { apply indexOf_after_pieces;
      [apply footer_not_nil|apply footer_no_char; auto|].
    apply Forall_cons_2; [done|exact Hfree]. }
  assert (Hstart : indexOf MEMORY_HEADER (X ++ MEMORY_FOOTER ++ [NL] ++ T) = 0).
  { unfold X. rewrite terminated_cons, <- !app_assoc. apply indexOf_prefix. }
  assert (HX : (0 < length X)%nat).
  { unfold X. rewrite terminated_cons, !length_app. cbn [length]. lia. }
  unfold stripContent. cbv zeta.
  rewrite eqb_refl.
  rewrite Hstart, Hend. simpl negb.
  replace (Z.of_nat (length X) =? -1) with false by (symmetry; apply Z.eqb_neq; lia).
  replace (Z.of_nat (length X) >? 0) with true by (symmetry; apply Z.gtb_lt; lia).
  simpl andb. cbv iota.
  rewrite substring_0 by lia. simpl take.
  rewrite substringFrom_drop by (rewrite !length_app; cbn [length]; lia).
  rewrite <- Nat2Z.inj_add, Nat2Z.id.
  assert (Hd : drop (length X + length MEMORY_FOOTER)
                    (X ++ MEMORY_FOOTER ++ [NL] ++ T) = NL :: T).
  { rewrite drop_app_add. by rewrite drop_app_length. }
  rewrite Hd. by apply trim_white_cons.
Qed.

Lemma trackIds_spec (ids : gset (list N)) ms (i : list N) :
  i ∈ trackIds ids ms <->
  i ∈ ids \/ (truthy i = true /\ exists m, m ∈ ms /\ blockId m = i).
Proof.
  unfold trackIds. revert ids. induction ms as [|m ms IH]; intros ids; simpl.
  - split; [by left|]. intros [H|(_ & m & Hm & _)]; [done|]. by apply elem_of_nil in Hm.
  - rewrite IH. destruct (truthy (blockId m)) eqn:E.
    + rewrite elem_of_union, elem_of_singleton. split.
      * intros [[H| ->]|(Ht & m' & Hm' & He)]; [by left| |].
        -- right. split; [done|]. exists m. split; [left|done].
        -- right. split; [done|]. exists m'. split; [by right|done].
      * intros [H|(Ht & m' & Hm' & He)]; [by left; left|].
        apply elem_of_cons in Hm' as [->|Hm']; [left; right; done|].
        right. split; [done|]. by exists m'.
    + split.
      * intros [H|(Ht & m' & Hm' & He)]; [by left|].
        right. split; [done|]. exists m'. split; [by right|done].
      * intros [H|(Ht & m' & Hm' & He)]; [by left|].
        apply elem_of_cons in Hm' as [->|Hm']; [congruence|].
        right. split; [done|]. by exists m'.
Qed.

Lemma entry_terminated m :
  nl ++ lit "[" ++ orElse (blockLabel m) (lit "Memory") ++ lit "]" ++ nl
     ++ orElse (blockValue m) [] ++ nl
  = terminated NL (entryLines m).
Proof.
  unfold entryLines. rewrite !terminated_cons. unfold terminated, nl.
  cbn [List.map concat]. rewrite <- !app_assoc. by rewrite !app_nil_r.
Qed.

(** X1. The three outcomes of [injectMemories].  It returns [true] exactly
    when the list of blocks is not empty (a list of blank blocks is enough),
    the platform is recognised, an editor is located and that editor is no
    [input] element that is not content-editable outside Claude; the page is
    then the one [setInputValue] returned for the block followed by what
    [extractUserMessage] gives, and the ids of the blocks are added to the
    injected ids.  It raises the [TypeError] exactly when the list is not
    empty and the editor located is such an [input] element.  It returns
    [false] exactly when the list is empty, no platform is recognised or no
    editor is located, and it has then changed nothing. *)
Theorem injectMemories_outcome st ms :
  ((exists st', injectMemories B st ms = Returned (true, st')) <->
     ms <> []
     /\ exists p el,
          detectPlatform (page st) = Some p
          /\ getTextarea B (page st) (Some p) = Some el
          /\ forall a, attrsAt (doc (page st)) el = Some a -> ~ inputField (page st) a)
  /\ (forall st', injectMemories B st ms = Returned (true, st') ->
        exists p el,
          detectPlatform (page st) = Some p
          /\ getTextarea B (page st) (Some p) = Some el
          /\ setInputValue B (page st) el
               (formatMemoriesForInjection ms ++ extractUserMessage B (page st))
             = Returned (page st')
          /\ injectedMemoryIds st' = trackIds (injectedMemoryIds st) ms)
  /\ (injectMemories B st ms = TypeError <->
        ms <> []
        /\ exists p el a,
             detectPlatform (page st) = Some p
             /\ getTextarea B (page st) (Some p) = Some el
             /\ attrsAt (doc (page st)) el = Some a
             /\ inputField (page st) a)
  /\ (injectMemories B st ms = Returned (false, st) <->
        ms = []
        \/ detectPlatform (page st) = None
        \/ exists p, detectPlatform (page st) = Some p
                     /\ getTextarea B (page st) (Some p) = None)
  /\ (forall st', injectMemories B st ms = Returned (false, st') -> st' = st).
Proof.
  unfold injectMemories, extractUserMessage.
  destruct (detectPlatform (page st)) as [p|] eqn:Hp.
  2: { split; [split; [by intros [? [=]]|by intros (_ & ? & ? & [=] & _)]|].
       split; [by intros ? [=]|].
       split; [split; [done|by intros (_ & ? & ? & ? & [=] & _)]|].
       split; [split; [by right; left|done]|]. by intros ? [= <-]. }
  destruct (getTextarea B (page st) (Some p)) as [el|] eqn:Hel.
  2: { split; [split; [by intros [? [=]]|intros (_ & ? & ? & [= <-] & ? & _); congruence]|].
       split; [by intros ? [=]|].
       split; [split; [done|intros (_ & ? & ? & ? & [= <-] & ? & _); congruence]|].
       split; [split; [right; right; by exists p|done]|]. by intros ? [= <-]. }
  cbv zeta. destruct ms as [|m ms].
  { simpl. split; [split; [by intros [? [=]]|by intros [? _]]|].
    split; [by intros ? [=]|].
    split; [split; [done|by intros [? _]]|].
    split; [split; [by left|done]|]. by intros ? [= <-]. }
  rewrite (format_truthy (m :: ms)) by done. cbn [negb].
  set (v := formatMemoriesForInjection (m :: ms)
            ++ getContentWithoutMemories B (page st) MEMORY_HEADER).
  destruct (setInputValue B (page st) el v) as [pg|] eqn:Hset; rsimpl_outcome.
  - assert (Hnot : forall a, attrsAt (doc (page st)) el = Some a -> ~ inputField (page st) a).
    { intros a Ha Hi. apply (setInputValue_raises B (page st) el a v Ha) in Hi. congruence. }
    split; [split; [intros _; split; [done|]; by exists p, el|by eexists]|].
    split; [intros st' [= <-]; by exists p, el|].
    split; [split; [done|]|].
    { intros (_ & p' & el' & a & [= <-] & Hel' & Ha & Hi).
      rewrite Hel in Hel'. injection Hel' as <-. by destruct (Hnot a Ha). }
    split; [|by intros ? [=]].
    split; [done|]. intros [?|[?|(p' & [= <-] & ?)]]; [done|done|congruence].
  - destruct (setInputValue_raised (page st) el v Hset) as (a & Ha & Hi).
    split; [split; [by intros [? [=]]|]|].
    { intros (_ & p' & el' & [= <-] & Hel' & Hnot).
      rewrite Hel in Hel'. injection Hel' as <-. by destruct (Hnot a Ha). }
    split; [by intros ? [=]|].
    split; [split; [intros _; split; [done|]; by exists p, el, a|done]|].
    split; [|by intros ? [=]].
    split; [done|]. intros [?|[?|(p' & [= <-] & ?)]]; [done|done|congruence].
Qed.

(** X2. Injecting again replaces the block: when the editor holds a block
    written for [old], whose labels and values hold no footer, followed by a
    text [T] (without the header when [old] is empty), [injectMemories new]
    with a non-empty list hands to [setInputValue] the block for [new]
    followed by [T.trim()], the old block gone; when that write returns it
    returns [true] and adds the ids of [new] to the injected ids (those
    already recorded stay).  The write raises, and [injectMemories] with it,
    exactly when the editor is an [input] element that is not content-editable
    outside Claude. *)
Theorem injectMemories_replaces st (p : Platform) (el : path) (a : Attrs)
    (old new : list MemoryBlock) (T : jsstring) :
  detectPlatform (page st) = Some p ->
  getTextarea B (page st) (Some p) = Some el ->
  attrsAt (doc (page st)) el = Some a ->
  getInputValue B (page st) (Some el) = formatMemoriesForInjection old ++ T ->
  Forall (fun m => includes MEMORY_FOOTER (blockLabel m) = false
                   /\ includes MEMORY_FOOTER (blockValue m) = false) old ->
  (old = [] -> includes MEMORY_HEADER T = false) ->
  new <> [] ->
  injectMemories B st new
  = (pg ← setInputValue B (page st) el (formatMemoriesForInjection new ++ trim T);
     Returned (true, mkInjector pg (trackIds (injectedMemoryIds st) new)))
  /\ (injectMemories B st new = TypeError <-> inputField (page st) a)
  /\ injectedMemoryIds st ⊆ trackIds (injectedMemoryIds st) new.
Proof.
  intros Hp Hel Ha Hv Hfree HT Hnew.
  assert (Heq : injectMemories B st new
                = (pg ← setInputValue B (page st) el
                          (formatMemoriesForInjection new ++ trim T);
                   Returned (true, mkInjector pg (trackIds (injectedMemoryIds st) new)))).
  { unfold injectMemories. rewrite Hp, Hel. cbv zeta.
    rewrite (format_truthy new Hnew). cbn [negb].
    unfold getContentWithoutMemories.
    rewrite (getTextarea_detected B _ p Hp), Hel, Hv.
    destruct old as [|m old].
    + simpl app. by rewrite (stripContent_no_header T (HT eq_refl)).
    + by rewrite (stripContent_format (m :: old) T). }
  split; [exact Heq|]. split.
  - rewrite Heq.
    rewrite <- (setInputValue_raises B (page st) el a
                  (formatMemoriesForInjection new ++ trim T) Ha).
    destruct (setInputValue B (page st) el _); rsimpl_outcome; done.
  - intros i Hi. apply trackIds_spec. by left.
Qed.

(** X3. On an editor that holds a well-formed block (written for a
    non-empty list [ms]) followed by a text [T], where the labels and values of
    [ms] and of the new block hold no footer, [addSingleMemory] of a block not
    yet injected hands to [setInputValue] the content with one entry (an
    empty line, the bracketed label, the value) spliced in front of the
    footer, the text after the block untouched; when that write returns it
    records the id and returns [true].  The write raises, and
    [addSingleMemory] with it, exactly when the editor is an [input] element
    that is not content-editable outside Claude.  Stripping the new content
    still gives [T.trim()]. *)
Theorem addSingleMemory_inserts st (p : Platform) (el : path) (a : Attrs) ms m
    (T : jsstring) :
  detectPlatform (page st) = Some p ->
  getTextarea B (page st) (Some p) = Some el ->
  attrsAt (doc (page st)) el = Some a ->
  (truthy (blockId m) = true -> blockId m ∉ injectedMemoryIds st) ->
  ms <> [] ->
  Forall (fun m => includes MEMORY_FOOTER (blockLabel m) = false
                   /\ includes MEMORY_FOOTER (blockValue m) = false) (m :: ms) ->
  getInputValue B (page st) (Some el) = formatMemoriesForInjection ms ++ T ->
  let newContent :=
    terminated NL ([MEMORY_HEADER; []] ++ concat (List.map section ms) ++ entryLines m)
    ++ MEMORY_FOOTER ++ [NL] ++ T in
  addSingleMemory B st m
  = (pg ← setInputValue B (page st) el newContent;
     Returned (true, mkInjector pg
                       (if truthy (blockId m) then injectedMemoryIds st ∪ {[ blockId m ]}
                        else injectedMemoryIds st)))
  /\ (addSingleMemory B st m = TypeError <-> inputField (page st) a)
  /\ stripContent MEMORY_HEADER newContent = trim T.
Proof.
  intros Hp Hel Ha Hid Hms Hfree Hv newContent.
  apply Forall_cons in Hfree as [[Hl Hval] Hfree].
  assert (Hentry : Forall (fun p => includes MEMORY_FOOTER p = false) (entryLines m)).
  { unfold entryLines.
    apply Forall_cons_2; [done|]. apply Forall_cons_2; [|apply Forall_cons_2; [|done]].
    - change (lit "[" ++ ?l ++ lit "]") with ([] ++ 91%N :: (l ++ 93%N :: [])).
      rewrite includes_piece_sep;
        [|apply footer_not_nil|apply footer_no_char; auto|done].
      rewrite includes_piece_sep;
        [done|apply footer_not_nil|apply footer_no_char; auto|].
      unfold orElse. by destruct (truthy (blockLabel m)).
    - unfold orElse. by destruct (truthy (blockValue m)). }
  set (P := [MEMORY_HEADER; []] ++ concat (List.map section ms)).
  set (X := terminated NL P).
  assert (Hcontent : getInputValue B (page st) (Some el) = X ++ MEMORY_FOOTER ++ [NL] ++ T).
  { rewrite Hv, (format_shape ms Hms). by rewrite <- !app_assoc. }
  assert (Hend : indexOf MEMORY_FOOTER (X ++ MEMORY_FOOTER ++ [NL] ++ T)
                 = Z.of_nat (length X)).
  { apply indexOf_after_pieces;
      [apply footer_not_nil|apply footer_no_char; auto|by apply pieces_no_footer]. }
  assert (Hstart : indexOf MEMORY_HEADER (X ++ MEMORY_FOOTER ++ [NL] ++ T) = 0).
  { unfold X, P. rewrite <- app_comm_cons, terminated_cons, <- !app_assoc.
    apply indexOf_prefix. }
  assert (Hsplit : newContent
                   = X ++ terminated NL (entryLines m) ++ MEMORY_FOOTER ++ [NL] ++ T).
  { unfold newContent, X, P.
    rewrite (app_assoc [MEMORY_HEADER; []] (concat (List.map section ms)) (entryLines m)).
    by rewrite terminated_app, <- app_assoc. }
  assert (Heq : addSingleMemory B st m
                = (pg ← setInputValue B (page st) el newContent;
                   Returned (true, mkInjector pg
                                     (if truthy (blockId m)
                                      then injectedMemoryIds st ∪ {[ blockId m ]}
                                      else injectedMemoryIds st)))).
  { unfold addSingleMemory. rewrite Hp, Hel.
    assert (truthy (blockId m) && bool_decide (blockId m ∈ injectedMemoryIds st) = false) as ->.
    { destruct (truthy (blockId m)) eqn:E; [|done]. simpl.
      apply bool_decide_eq_false. by apply Hid. }
    cbv zeta. rewrite Hcontent.
    assert (includes MEMORY_HEADER (X ++ MEMORY_FOOTER ++ [NL] ++ T) = true) as ->
      by (apply includes_true; lia).
    rewrite Hend.
    replace (Z.of_nat (length X) =? -1) with false by (symmetry; apply Z.eqb_neq; lia).
    simpl negb. cbv iota.
    rewrite substring_0 by (rewrite length_app; lia).
    rewrite substringFrom_drop by (rewrite length_app; lia).
    rewrite Nat2Z.id, take_app_length, drop_app_length.
    f_equal. f_equal. rewrite Hsplit. f_equal.
    rewrite <- (entry_terminated m). by rewrite <- !app_assoc. }
  split; [exact Heq|]. split.
  - rewrite Heq. rewrite <- (setInputValue_raises B (page st) el a newContent Ha).
    destruct (setInputValue B (page st) el _); rsimpl_outcome; done.
  - unfold newContent. rewrite <- app_comm_cons.
    apply stripContent_block.
    apply Forall_cons_2; [done|]. apply Forall_app. split; [|exact Hentry].
    assert (Hall := pieces_no_footer ms Hfree).
    apply Forall_app in Hall as [_ Hall]. exact Hall.
Qed.

(** X4. A block with a non-empty id is not added twice: after an
    [injectMemories] that succeeded with the block in its list, or after an
    [addSingleMemory] of it that succeeded, [addSingleMemory] of the block
    returns [false] and changes nothing. *)
Theorem addSingleMemory_no_duplicate st st' ms m :
  truthy (blockId m) = true ->
  (m ∈ ms /\ injectMemories B st ms = Returned (true, st'))
  \/ addSingleMemory B st m = Returned (true, st') ->
  addSingleMemory B st' m = Returned (false, st').
Proof.
  intros Hid Hprev.
  assert (Hin : blockId m ∈ injectedMemoryIds st').
  { assert (Hinj : forall l, m ∈ l -> injectMemories B st l = Returned (true, st') ->
                             blockId m ∈ injectedMemoryIds st').
    { intros l Hm. unfold injectMemories.
      destruct (detectPlatform (page st)); [|done].
      destruct (getTextarea B (page st) _); [|done].
      cbv zeta. destruct (negb _); [done|].
      destruct (setInputValue B (page st) _ _); rsimpl_outcome; [|done].
      intros [= <-]. simpl. apply trackIds_spec. right. split; [done|]. by exists m. }
    destruct Hprev as [[Hm Hrun]|Hrun]; [by apply (Hinj ms)|].
    unfold addSingleMemory in Hrun.
    destruct (detectPlatform (page st)); [|done].
    destruct (getTextarea B (page st) _); [|done].
    destruct (truthy (blockId m) && _); [done|].
    cbv zeta in Hrun.
    destruct (includes MEMORY_HEADER _).
    - destruct (negb _); [|done].
      destruct (setInputValue B (page st) _ _); rsimpl_outcome; [|done].
      injection Hrun as <-. simpl.
      rewrite Hid. set_solver.
    - apply (Hinj [m]); [apply elem_of_cons; by left|done]. }
  unfold addSingleMemory.
  destruct (detectPlatform (page st')); [|done].
  destruct (getTextarea B (page st') _); [|done].
  rewrite Hid. by rewrite bool_decide_eq_true_2.
Qed.

End MoreMarkers.

(* ------------------------------------------------------------------------- *)
(** ** Further properties: reading and writing the editor *)
(* ------------------------------------------------------------------------- *)

Section MoreEditor.

Context (B : Browser).

Lemma plainTextarea_setValueAttr (a : Attrs) (v : jsstring) :
  plainTextarea a -> plainTextarea (setValueAttr v a).
Proof. intros (? & ? & ?). done. Qed.

(** What a plain [textarea] reads holds no carriage return. *)
Lemma plain_read_crFree (pg : Page) (el : path) (a : Attrs) :
  attrsAt (doc pg) el = Some a ->
  plainTextarea a ->
  crFree (getInputValue B pg (Some el)).
Proof.
  intros Ha (Htag & Hce & Hpm).
  destruct (attrsAt_elem _ _ _ Ha) as [kids Hn].
  unfold getInputValue. rewrite Hn.
  rewrite bool_decide_eq_false_2 by done.
  unfold isTextField, fieldValue. rewrite Htag, Hce. cbn [eqb orb].
  change (eqb (lit "textarea") (lit "p")) with false.
  change (eqb (lit "textarea") (lit "textarea")) with true.
  cbv iota. apply normalizeNewlines_no_cr.
Qed.

(** X5. On a platform other than Claude, [setInputValue] on a [textarea] that
    is not content-editable and no ProseMirror root returns; it sets the raw
    value (and the dirty value flag) and nothing else of the element,
    dispatches [input] and [change] and focuses it; [getInputValue] then
    returns the value written with every CR LF and every lone CR read as LF,
    which is the value itself when it holds no CR.  On an [input] element that
    is not content-editable it raises a [TypeError] instead. *)
Theorem setInputValue_plain_roundtrip (pg : Page) (el : path) (a : Attrs) (v : jsstring) :
  attrsAt (doc pg) el = Some a ->
  isContentEditable a = false ->
  detectPlatform pg <> Some claude ->
  (tagName a = lit "textarea" -> lit "ProseMirror" ∉ classList a ->
   exists pg',
     setInputValue B pg el v = Returned pg'
     /\ getInputValue B pg' (Some el) = normalizeNewlines v
     /\ (crFree v -> getInputValue B pg' (Some el) = v)
     /\ attrsAt (doc pg') el = Some (setValueAttr v a)
     /\ effects pg'
        = effects pg ++ [Dispatched el (lit "input"); Dispatched el (lit "change"); Focused el])
  /\ (tagName a = lit "input" -> setInputValue B pg el v = TypeError).
Proof.
  intros Ha Hce Hcl. split.
  - intros Htag Hpm.
    destruct (plain_write_read B pg el a v Ha ltac:(done) Hcl)
      as (pg' & Hset & Hattrs & Hget & Hfx & _).
    exists pg'. split; [done|]. split; [done|]. split; [|done].
    intros Hcr. rewrite Hget. by apply normalizeNewlines_fixed.
  - intros Htag. by apply (setInputValue_raises B pg el a v Ha).
Qed.

Lemma textContent_paragraphs (lines : list jsstring) :
  concat (List.map textContent (List.map paragraph lines))
  = concat (List.map (fun line => if eqb (trim line) [] then [] else line) lines).
Proof.
  induction lines as [|l ls IH]; [done|]. simpl. rewrite IH. f_equal.
  destruct (eqb (trim l) []); simpl; [done|by rewrite app_nil_r].
Qed.

(** X6. On a content-editable element that is neither a ProseMirror root nor a
    paragraph (and not on Claude), [setInputValue] writes one paragraph per line
    of the value; [getInputValue] then returns the non-blank lines run together:
    the line breaks and the blank lines of the value are not read back.  When
    no line is left, the rendered text of the element is returned. *)
Theorem setInputValue_rich_flattens (pg : Page) (el : path) (a : Attrs) (v : jsstring) :
  attrsAt (doc pg) el = Some a ->
  richField a ->
  detectPlatform pg <> Some claude ->
  exists pg',
    setInputValue B pg el v = Returned pg'
    /\ nodeAt (doc pg') el = Some (Elem a (List.map paragraph (splitLines v)))
    /\ getInputValue B pg' (Some el)
       = orElse (shownLines v) (innerText B (Elem a (List.map paragraph (splitLines v)))).
Proof.
  intros Ha (Hce & Hpm & Hp) Hcl.
  destruct (attrsAt_elem _ _ _ Ha) as [kids Hn].
  assert (Hset : exists pg',
             setInputValue B pg el v = Returned pg'
             /\ doc pg' = updateAt (setKids (List.map paragraph (splitLines v))) (doc pg) el).
  { unfold setInputValue. rewrite Ha. cbv zeta.
    rewrite bool_decide_eq_false_2 by done. rewrite Hce, andb_true_r.
    destruct (bool_decide _); eexists; (split; [reflexivity|done]). }
  destruct Hset as (pg' & Hset & Hdoc). exists pg'. split; [exact Hset|].
  assert (Hn' : nodeAt (doc pg') el
                = Some (Elem a (List.map paragraph (splitLines v)))).
  { rewrite Hdoc. by rewrite (nodeAt_updateAt _ _ _ _ Hn). }
  split; [done|].
  unfold getInputValue. rewrite Hn'.
  rewrite bool_decide_eq_false_2 by done.
  assert (eqb (tagName a) (lit "p") = false) as ->.
  { destruct (eqb (tagName a) (lit "p")) eqn:E; [|done]. by apply eqb_eq in E. }
  rewrite Hce. cbn [textContent]. by rewrite textContent_paragraphs.
Qed.

Lemma replaceAll_app (c : N) (by_ u w : jsstring) :
  replaceAll c by_ (u ++ w) = replaceAll c by_ u ++ replaceAll c by_ w.
Proof. unfold replaceAll. apply flat_map_app. Qed.

Lemma escapeHtml_cons (c : N) (line : jsstring) :
  escapeHtml (c :: line) = escapeChar c ++ escapeHtml line.
Proof.
  unfold escapeHtml.
  change (c :: line) with ([c] ++ line). rewrite !replaceAll_app. f_equal.
  unfold escapeChar.
  destruct (N.eqb c 38) eqn:E1; [apply N.eqb_eq in E1; subst; vm_compute; reflexivity|].
  destruct (N.eqb c 60) eqn:E2; [apply N.eqb_eq in E2; subst; vm_compute; reflexivity|].
  destruct (N.eqb c 62) eqn:E3; [apply N.eqb_eq in E3; subst; vm_compute; reflexivity|].
  unfold replaceAll. simpl. rewrite E1. simpl. rewrite E2. simpl. by rewrite E3.
Qed.

Lemma escapeChar_safe (c x : N) : x ∈ escapeChar c -> x <> 60%N /\ x <> 62%N.
Proof.
  unfold escapeChar.
  destruct (N.eqb c 38) eqn:E1.
  { intros H. apply list_elem_of_In in H. vm_compute in H.
    intuition (subst; discriminate). }
  destruct (N.eqb c 60) eqn:E2.
  { intros H. apply list_elem_of_In in H. vm_compute in H.
    intuition (subst; discriminate). }
  destruct (N.eqb c 62) eqn:E3.
  { intros H. apply list_elem_of_In in H. vm_compute in H.
    intuition (subst; discriminate). }
  intros Hx. apply elem_of_cons in Hx as [->|Hx]; [|by apply elem_of_nil in Hx].
  apply N.eqb_neq in E2, E3. done.
Qed.

(** X7. The three chained replacements that escape a line for [innerHTML] act
    as one pass over its code units: [&], [<] and [>] become [&amp;], [&lt;]
    and [&gt;] (the [&] of an entity written for [<] or [>] is not escaped
    again), every other code unit is kept, and no [<] or [>] is left. *)
Theorem escapeHtml_single_pass (line : jsstring) :
  escapeHtml line = flat_map escapeChar line
  /\ (60%N ∉ escapeHtml line)
  /\ (62%N ∉ escapeHtml line).
Proof.
  assert (H : escapeHtml line = flat_map escapeChar line).
  { induction line as [|c line IH]; [done|].
    rewrite escapeHtml_cons, IH. done. }
  split; [done|]. rewrite H.
  split; intros Hin; apply list_elem_of_In, in_flat_map in Hin as (c & _ & Hc);
    apply list_elem_of_In, escapeChar_safe in Hc; by destruct Hc.
Qed.

End MoreEditor.

(* ------------------------------------------------------------------------- *)
(** ** Further properties: injecting, clearing, extracting *)
(* ------------------------------------------------------------------------- *)

Section MoreInjection.

Context (B : Browser).

Implicit Types (st : Injector) (ms : list MemoryBlock) (m : MemoryBlock).

Lemma includes_header_format ms (T : jsstring) :
  ms <> [] -> includes MEMORY_HEADER (formatMemoriesForInjection ms ++ T) = true.
Proof.
  intros Hms. apply includes_true. rewrite (format_shape ms Hms).
  rewrite <- app_comm_cons, terminated_cons, <- !app_assoc.
  rewrite indexOf_prefix. lia.
Qed.

Lemma crFree_literal (s : jsstring) : bool_decide (crFree s) = true -> crFree s.
Proof. apply bool_decide_eq_true. Qed.

Lemma crFree_terminated (ps : list jsstring) :
  Forall crFree ps -> crFree (terminated NL ps).
Proof.
  unfold crFree. induction 1 as [|p ps Hp _ IH]; [apply not_elem_of_nil|].
  rewrite terminated_cons, !not_elem_of_app. split; [done|]. split; [|done].
  intros [[=]|H]%elem_of_cons. by apply elem_of_nil in H.
Qed.

Lemma crFree_section (m : MemoryBlock) :
  crFree (blockLabel m) -> crFree (blockValue m) -> Forall crFree (section m).
Proof.
  intros Hl Hv. unfold section.
  assert (Hv' : crFree (orElse (blockValue m) [])).
  { unfold orElse. destruct (truthy (blockValue m)); [done|apply not_elem_of_nil]. }
  assert (Hl' : crFree (orElse (blockLabel m) (lit "Memory"))).
  { unfold orElse. destruct (truthy (blockLabel m)); [done|].
    by apply crFree_literal. }
  destruct (truthy _); [|done].
  apply Forall_cons_2; [|apply Forall_cons_2; [done|apply Forall_cons_2; [|done]]].
  - unfold crFree. rewrite !not_elem_of_app.
    split; [by apply crFree_literal|]. split; [done|by apply crFree_literal].
  - apply not_elem_of_nil.
Qed.

Lemma crFree_format (ms : list MemoryBlock) :
  Forall (fun m => crFree (blockLabel m) /\ crFree (blockValue m)) ms ->
  crFree (formatMemoriesForInjection ms).
Proof.
  intros H. destruct ms as [|m0 ms0] eqn:E; [apply not_elem_of_nil|]. rewrite <- E in *.
  rewrite (format_shape ms) by (rewrite E; done).
  unfold crFree. rewrite !not_elem_of_app.
  split; [|split; by apply crFree_literal].
  apply crFree_terminated. apply Forall_app. split.
  - apply Forall_cons_2; [by apply crFree_literal|].
    apply Forall_cons_2; [apply not_elem_of_nil|done].
  - clear E. induction H as [|m ms [Hl Hv] _ IH]; [done|].
    cbn [List.map concat]. apply Forall_app. split; [by apply crFree_section|done].
Qed.

Lemma crFree_trim (s : jsstring) : crFree s -> crFree (trim s).
Proof.
  intros H. destruct (trim_substring s) as (i & k & ->).
  intros Hin. apply H.
  apply (subseteq_take k), (subseteq_drop i) in Hin. exact Hin.
Qed.

(** X8. Injection followed by clearing gives the user's text back.  On a
    platform other than Claude, let the editor be a [textarea] that is not
    content-editable and no ProseMirror root, holding a text [T] without the
    header; let the list of blocks be non-empty with labels and values that
    hold neither the footer nor a carriage return; and let the locator find
    the same element again once the block is written.  Then [injectMemories]
    returns [true] and the field reads as the block followed by [T.trim()];
    [hasMemoriesInjected] answers [true] and [extractUserMessage] gives
    [T.trim()]; [clearMemoriesFromInput] then returns, the field reads
    [T.trim()] and the set of injected ids is empty. *)
Theorem inject_then_clear st (p : Platform) (el : path) (a : Attrs) ms (T : jsstring) :
  detectPlatform (page st) = Some p ->
  p <> claude ->
  getTextarea B (page st) (Some p) = Some el ->
  attrsAt (doc (page st)) el = Some a ->
  plainTextarea a ->
  getInputValue B (page st) (Some el) = T ->
  includes MEMORY_HEADER T = false ->
  ms <> [] ->
  Forall (fun m => includes MEMORY_FOOTER (blockLabel m) = false
                   /\ includes MEMORY_FOOTER (blockValue m) = false) ms ->
  Forall (fun m => crFree (blockLabel m) /\ crFree (blockValue m)) ms ->
  (forall pg, setInputValue B (page st) el (formatMemoriesForInjection ms ++ trim T)
              = Returned pg ->
              getTextarea B pg (Some p) = Some el) ->
  exists st1 st2,
    injectMemories B st ms = Returned (true, st1)
    /\ getInputValue B (page st1) (Some el) = formatMemoriesForInjection ms ++ trim T
    /\ hasMemoriesInjected B (page st1) = true
    /\ extractUserMessage B (page st1) = trim T
    /\ clearMemoriesFromInput B st1 = Returned st2
    /\ getInputValue B (page st2) (Some el) = trim T
    /\ injectedMemoryIds st2 = ∅.
Proof.
  intros Hp Hcl Hel Ha Hpl Hv HT Hms Hfree Hcr Hloc.
  assert (Hnc : detectPlatform (page st) <> Some claude) by (rewrite Hp; congruence).
  assert (HcrT : crFree (trim T)).
  { apply crFree_trim. rewrite <- Hv. by apply (plain_read_crFree B (page st) el a). }
  assert (Hcrv : crFree (formatMemoriesForInjection ms ++ trim T)).
  { unfold crFree. rewrite not_elem_of_app. split; [by apply crFree_format|done]. }
  destruct (plain_write_read B (page st) el a (formatMemoriesForInjection ms ++ trim T)
              Ha Hpl Hnc) as (pg1 & Hset1 & Ha1 & Hv1 & _ & Hh1).
  rewrite (normalizeNewlines_fixed _ Hcrv) in Hv1.
  assert (Hinj : injectMemories B st ms
                 = Returned (true, mkInjector pg1 (trackIds (injectedMemoryIds st) ms))).
  { unfold injectMemories. rewrite Hp, Hel. cbv zeta.
    rewrite (format_truthy ms Hms). cbn [negb].
    unfold getContentWithoutMemories.
    rewrite (getTextarea_detected B _ p Hp), Hel, Hv.
    rewrite (stripContent_no_header T HT), Hset1. reflexivity. }
  assert (Hp1 : detectPlatform pg1 = Some p).
  { unfold detectPlatform. rewrite Hh1. exact Hp. }
  assert (Hel1 : getTextarea B pg1 (Some p) = Some el) by (by apply Hloc).
  assert (Hel1' : getTextarea B pg1 None = Some el)
    by (by rewrite (getTextarea_detected B _ p Hp1)).
  assert (Hstrip : getContentWithoutMemories B pg1 MEMORY_HEADER = trim T).
  { unfold getContentWithoutMemories. rewrite Hel1', Hv1.
    rewrite (stripContent_format ms (trim T) Hms Hfree). apply trim_idem. }
  assert (Hnc1 : detectPlatform pg1 <> Some claude) by (rewrite Hp1; congruence).
  destruct (plain_write_read B pg1 el _ (trim T) Ha1
              (plainTextarea_setValueAttr a _ Hpl) Hnc1) as (pg2 & Hset2 & _ & Hv2 & _).
  rewrite (normalizeNewlines_fixed _ HcrT) in Hv2.
  exists (mkInjector pg1 (trackIds (injectedMemoryIds st) ms)), (mkInjector pg2 ∅).
  split; [exact Hinj|]. cbn [page injectedMemoryIds].
  split; [exact Hv1|]. split.
  { unfold hasMemoriesInjected. rewrite Hel1', Hv1. by apply includes_header_format. }
  split; [exact Hstrip|]. split; [|done].
  unfold clearMemoriesFromInput. cbn [page]. rewrite Hp1, Hel1, Hstrip. cbv zeta.
  rewrite trim_idem, Hset2. reflexivity.
Qed.

(** X10. With a header text other than the standard one (and not empty),
    [getContentWithoutMemories] cuts the editor content at the first occurrence
    of that text and trims what is left; the result never contains the header
    text.  Without an editor the result is the empty string. *)
Theorem strip_custom_header (pg : Page) (h : jsstring) :
  h <> MEMORY_HEADER ->
  h <> [] ->
  (getTextarea B pg None = None -> getContentWithoutMemories B pg h = [])
  /\ (forall el content,
        getTextarea B pg None = Some el ->
        getInputValue B pg (Some el) = content ->
        getContentWithoutMemories B pg h
        = trim (if includes h content
                then take (Z.to_nat (indexOf h content)) content
                else content)
        /\ includes h (getContentWithoutMemories B pg h) = false).
Proof.
  intros Hh Hne. unfold getContentWithoutMemories. split; [by intros ->|].
  intros el content -> ->.
  assert (Heq : stripContent h content
                = trim (if includes h content
                        then take (Z.to_nat (indexOf h content)) content
                        else content)).
  { unfold stripContent. cbv zeta.
    assert (eqb h MEMORY_HEADER = false) as ->.
    { destruct (eqb h MEMORY_HEADER) eqn:E; [|done]. by apply eqb_eq in E. }
    fold (includes h content).
    destruct (includes h content) eqn:Hinc; [|done].
    apply includes_true in Hinc. pose proof (indexOf_upper h content).
    by rewrite substring_0 by lia. }
  split; [done|]. rewrite Heq. apply includes_trim.
  destruct (includes h content) eqn:Hinc; [|done].
  apply includes_before_first; [done|]. by apply includes_true.
Qed.

Lemma orElse_nil_r (v : jsstring) : orElse v [] = v.
Proof. by destruct v. Qed.

Lemma sections_filter ms :
  terminated NL (concat (List.map section ms))
  = concat (List.map sectionText (List.filter nonBlank ms)).
Proof.
  induction ms as [|m ms IH]; [done|].
  cbn [List.map concat List.filter]. rewrite terminated_app, IH.
  unfold section, nonBlank. rewrite orElse_nil_r.
  destruct (truthy (trim (blockValue m))); [|done].
  cbn [List.map concat]. f_equal.
  rewrite !terminated_cons. unfold sectionText, terminated, nl.
  cbn [List.map concat]. by rewrite <- ?app_assoc.
Qed.

(** X11. The text [formatMemoriesForInjection] builds: nothing for the empty
    list; otherwise the header, an empty line, then for every block whose value
    is not blank, in the order of the list, its bracketed label (or [Memory]
    when the label is empty), its value and an empty line, then the footer and
    one line break.  Blocks with a blank value leave no trace, and a list of
    blank blocks gives the header and the footer alone. *)
Theorem format_layout ms :
  formatMemoriesForInjection ms
  = match ms with
    | [] => []
    | _ => MEMORY_HEADER ++ nl ++ nl
           ++ concat (List.map sectionText (List.filter nonBlank ms))
           ++ MEMORY_FOOTER ++ nl
    end.
Proof.
  destruct ms as [|m ms]; [done|].
  rewrite (format_shape (m :: ms)) by done.
  rewrite terminated_app, sections_filter.
  rewrite !terminated_cons. unfold terminated, nl. cbn [List.map concat].
  by rewrite <- ?app_assoc.
Qed.

End MoreInjection.

(* ------------------------------------------------------------------------- *)
(** ** Further properties: the control, its watcher and its removal *)
(* ------------------------------------------------------------------------- *)

Section MoreControl.

Context (B : Browser).

(** What a mount on a document without control leaves. *)
Lemma mount_outcome (e e1 : Engine) :
  controlPresent (edoc e) = false ->
  mountButtonOnEditor B e = Ok e1 ->
  (controls (edoc e1) = 1%nat /\ controlPresent (edoc e1) = true)
  \/ (controls (edoc e1) = 0%nat
      /\ controlPresent (edoc e1) = false
      /\ exists older, timers e1 = older ++ [(1000, TaskMount)]).
Proof.
  intros Hcp Hrun.
  destruct (mount_run B e e1 Hcp Hrun) as (success & e' & Hok & Hd & _ & Ht).
  apply controlPresent_false in Hcp as [Hi Hf].
  destruct (beforeMount_facts e) as (Hle & _).
  assert (Hi0 : countDoc isIcon (edoc (beforeMount e)) = 0%nat)
    by (pose proof (Hle isIcon); lia).
  assert (Hf0 : countDoc isFloating (edoc (beforeMount e)) = 0%nat)
    by (pose proof (Hle isFloating); lia).
  destruct Hok as [[-> ->]|[-> Hm]].
  - right. rewrite Hd. unfold controls.
    split; [done|]. split; [by apply controlPresent_false|]. by eexists.
  - left. pose proof (mounted_one _ _ Hm Hi0) as Hone. rewrite <- Hd in Hone.
    split; [done|]. apply controlPresent_true. unfold controls in Hone. lia.
Qed.

Lemma beforeMount_absent (e : Engine) :
  controlPresent (edoc e) = false -> controlPresent (edoc (beforeMount e)) = false.
Proof.
  intros [Hi Hf]%controlPresent_false. apply controlPresent_false.
  destruct (beforeMount_facts e) as (Hle & _).
  pose proof (Hle isIcon). pose proof (Hle isFloating). lia.
Qed.

(** X12. The callback of the button watcher (mutation observer and 2000 ms
    interval alike) does nothing while the icon button or the floating
    container is in the document.  When both are gone it mounts again: either
    exactly one icon button is in the document afterwards, and a further
    callback does nothing, or the strategy found no placement, no control is in
    the document and a retry is scheduled after 1000 ms. *)
Theorem watcherTick_heals (e : Engine) :
  (controlPresent (edoc e) = true -> watcherTick B e = Ok e)
  /\ (controlPresent (edoc e) = false ->
      forall e1, watcherTick B e = Ok e1 ->
        (controls (edoc e1) = 1%nat /\ watcherTick B e1 = Ok e1)
        \/ (controls (edoc e1) = 0%nat
            /\ controlPresent (edoc e1) = false
            /\ exists older, timers e1 = older ++ [(1000, TaskMount)])).
Proof.
  split.
  - intros H. unfold watcherTick. by rewrite H.
  - intros Hcp e1. unfold watcherTick. rewrite Hcp. cbn [negb].
    fold (beforeMount e). intros Hrun.
    destruct (mount_outcome (beforeMount e) e1 (beforeMount_absent e Hcp) Hrun)
      as [[Hone Hpres]|Hnone]; [left|by right].
    split; [done|]. unfold watcherTick. by rewrite Hpres.
Qed.

(** X13. A platform strategy either reports failure and has changed nothing,
    or reports success and has put exactly one more icon button into the
    document, inside a wrapper that is the only possible new floating
    container, recorded the button in [buttonHost] and set no timer. *)
Theorem strategy_contract (e e' : Engine) (r : bool) :
  match platform e with
  | Some chatgpt => mountChatGPTButton B e
  | Some claude => mountClaudeButton B e
  | Some gemini => mountGeminiButton B e
  | Some perplexity => mountPerplexityButton B e
  | None => mountGenericButton B e
  end = Ok (r, e') ->
  (r = false /\ e' = e)
  \/ (r = true
      /\ controls (edoc e') = (controls (edoc e) + 1)%nat
      /\ (countDoc isFloating (edoc e') <= countDoc isFloating (edoc e) + 1)%nat
      /\ buttonHost e' = Some (S (nextSerial e))
      /\ timers e' = timers e).
Proof.
  intros [[-> ->]|[-> Hm]]%strategy_spec; [by left|right].
  apply mounted_facts in Hm as (root & Hr & Hc & _ & Hb & Ht & _).
  apply RootLike_counts in Hr as (Hri & Hrf & _).
  split; [done|]. unfold controls.
  rewrite (Hc isIcon isIcon_blind), (Hc isFloating isFloating_blind).
  repeat split; [lia|lia|done|done].
Qed.

Lemma removeFloating_fixed (e : Engine) :
  countDoc isFloating (edoc e) = 0%nat -> removeFloating e = e.
Proof.
  intros H. unfold removeFloating.
  by rewrite (proj2 (getElementById_none isFloating FLOATING_ID (edoc e) ltac:(done)) H).
Qed.

Lemma removeUI_fixed (e : Engine) :
  buttonHost e = None -> countDoc isFloating (edoc e) = 0%nat -> removeUI e = e.
Proof.
  intros Hb Hf. rewrite removeUI_phases, (removeFloating_fixed e Hf). by rewrite Hb.
Qed.

Lemma removeUI_floating (e : Engine) :
  (countDoc isFloating (edoc e) <= 1)%nat ->
  countDoc isFloating (edoc (removeUI e)) = 0%nat.
Proof.
  intros Hf. destruct (removeFloating_doc e) as (_ & Hfl0 & _ & _).
  specialize (Hfl0 Hf). rewrite removeUI_phases.
  destruct (buttonHost (removeFloating e)) as [b|]; [|done].
  change (edoc (setButtonHost ?x None)) with (edoc x).
  repeat case_match; rewrite ?edoc_detach, ?edoc_runCleanup; try done.
  match goal with
  | |- context [removeNode ?d ?q] => pose proof (countDoc_removeNode_le isFloating d q)
  end. lia.
Qed.

(** X14. [removeUI] can be called again at no cost: on a document with at most
    one floating container, a second call right after the first changes
    nothing: no element is removed, no teardown closure runs again.  On a
    state without [buttonHost] and without floating container the first call
    already changes nothing. *)
Theorem removeUI_idempotent (e : Engine) :
  (countDoc isFloating (edoc e) <= 1)%nat ->
  removeUI (removeUI e) = removeUI e
  /\ (buttonHost e = None -> countDoc isFloating (edoc e) = 0%nat -> removeUI e = e).
Proof.
  intros Hf. split; [|apply removeUI_fixed].
  apply removeUI_fixed; [|by apply removeUI_floating].
  by destruct (removeUI_keeps e) as (_ & _ & _ & _ & _ & _ & _ & ?).
Qed.

End MoreControl.

(* ------------------------------------------------------------------------- *)
(** ** Further properties: capturing on send *)
(* ------------------------------------------------------------------------- *)

Section MoreCapture.

Context (B : Browser).

Lemma extractUserMessage_trimmed (pg : Page) :
  trim (extractUserMessage B pg) = extractUserMessage B pg.
Proof.
  unfold extractUserMessage, getContentWithoutMemories.
  destruct (getTextarea B pg None); [apply stripContent_trimmed|done].
Qed.

Lemma truthy_false (s : jsstring) : truthy s = false <-> s = [].
Proof. by destruct s. Qed.

(** X15. What is sent on a send gesture is the text that was in the editor,
    without the memory block, when the gesture was made.  [handleSend] (and
    [handleKeydown] for Enter without Shift) keeps [extractUserMessage()] in
    [inputValueCopy] and sets one timer of 100 ms; any other key only refreshes
    the copy.  When the timer fires, whether the editor still reads the same or
    the host page has emptied it in between, the payload carries exactly that
    text, the current address and the time of the call, and [inputValueCopy] is
    emptied; when the text was empty nothing is sent.  The same has been sent
    when the callback ends in the [TypeError] of [clearMemoriesFromInput]: the
    capture comes first. *)
Theorem send_captures_typed_text (e e2 e3 : Engine) (now : Z) :
  let typed := extractUserMessage B (epage e) in
  handleSend B e = (setInputValueCopy e typed, [100])
  /\ handleKeydown B e (lit "Enter") false = handleSend B e
  /\ (forall key shiftKey,
        key <> lit "Enter" \/ shiftKey = true ->
        handleKeydown B e key shiftKey = (setInputValueCopy e typed, []))
  /\ (inputValueCopy e2 = typed ->
      extractUserMessage B (epage e2) = typed \/ extractUserMessage B (epage e2) = [] ->
      sendCallback B e2 now = Ok e3 ->
      (typed = [] /\ outbox e3 = outbox e2)
      \/ (typed <> []
          /\ inputValueCopy e3 = []
          /\ exists ctx,
               outbox e3
               = outbox e2 ++ [mkPayload typed (Some ctx) now (href (epage e2))]))
  /\ (inputValueCopy e2 = typed ->
      extractUserMessage B (epage e2) = typed \/ extractUserMessage B (epage e2) = [] ->
      captureAndSync B e2 now = Ok e3 ->
      clearMemoriesFromInput B (inj e3) = TypeError ->
      sendCallback B e2 now = Throws e3
      /\ ((typed = [] /\ outbox e3 = outbox e2)
          \/ (typed <> []
              /\ inputValueCopy e3 = []
              /\ exists ctx,
                   outbox e3
                   = outbox e2 ++ [mkPayload typed (Some ctx) now (href (epage e2))]))).
Proof.
  intros typed. split; [done|]. split; [done|]. split.
  { intros key shiftKey Hk. unfold handleKeydown. cbv zeta. fold typed.
    destruct Hk as [Hk| ->]; [|by rewrite andb_false_r].
    destruct (eqb key (lit "Enter")) eqn:E; [by apply eqb_eq in E|done]. }
  assert (Hcap : forall ec,
             inputValueCopy e2 = typed ->
             extractUserMessage B (epage e2) = typed \/ extractUserMessage B (epage e2) = [] ->
             captureAndSync B e2 now = Ok ec ->
             (typed = [] /\ ec = e2)
             \/ (typed <> []
                 /\ exists ctx,
                      ec = setInputValueCopy
                             (syncToBackground e2 now typed ctx) [])).
  { intros ec Hcopy Hnow. unfold captureAndSync. cbv zeta.
    set (message := if truthy (extractUserMessage B (epage e2))
                    then extractUserMessage B (epage e2) else inputValueCopy e2).
    assert (Hmsg : message = typed).
    { unfold message. destruct Hnow as [-> | ->]; [|done].
      rewrite Hcopy. by destruct (truthy typed). }
    assert (Htrim : trim message = typed).
    { rewrite Hmsg. apply extractUserMessage_trimmed. }
    rewrite Htrim.
    destruct (truthy typed) eqn:Ht; cbn [negb].
    - destruct (getRecentMessages B e2 2) as [ctx|] eqn:Hctx; rsimpl; [|done].
      intros [= <-]. right. split; [by destruct typed|]. by exists ctx.
    - intros [= <-]. left. split; [by apply truthy_false|done]. }
  split.
  - intros Hcopy Hnow. unfold sendCallback.
    destruct (captureAndSync B e2 now) as [ec|] eqn:Hc; rsimpl; [|done].
    destruct (clearMemoriesFromInput B (inj ec)) as [i|]; [|done].
    intros [= <-].
    destruct (Hcap ec Hcopy Hnow eq_refl) as [[-> ->]|(Hne & ctx & ->)].
    + by left.
    + right. split; [done|]. split; [done|]. by exists ctx.
  - intros Hcopy Hnow Hc Hclear. unfold sendCallback. rewrite Hc. rsimpl.
    rewrite Hclear. split; [done|].
    destruct (Hcap e3 Hcopy Hnow Hc) as [[-> ->]|(Hne & ctx & ->)].
    + by left.
    + right. split; [done|]. split; [done|]. by exists ctx.
Qed.

End MoreCapture.

(* ------------------------------------------------------------------------- *)
(** ** Further properties: the background capture handler *)
(* ------------------------------------------------------------------------- *)

Module BackgroundMore.

Import Background.

Lemma existsb_false_Forall {A} (f : A -> bool) (l : list A) :
  existsb f l = false <-> Forall (fun x => f x = false) l.
Proof.
  induction l as [|x l IH]; simpl.
  - split; [constructor|done].
  - rewrite orb_false_iff, IH. split.
    + intros [? ?]. by constructor.
    + intros [? ?]%Forall_cons. done.
Qed.

(** The outcome of the validation stretch in terms of the checks. *)
Lemma validate_inr (st : State) (now : Z) (settings : Settings) (payload : SyncPayload) :
  (exists request h st1, validate st now settings payload = (inr (request, h), st1))
  <-> (apiKey settings <> [] /\ agentId settings <> []
       /\ (exists p, detectPlatform (url payload) = Some p /\ p ∈ captureTargets settings)
       /\ Forall (fun pattern => includes pattern (userMessage payload) = false)
                 CONTEXT_PATTERNS
       /\ trim (userMessage payload) <> []
       /\ lastCapturedHash st <> Some (slice (userMessage payload) 0 200)).
Proof.
  unfold validate.
  destruct (truthy (apiKey settings)) eqn:Hk; cbn [negb orb].
  2: { apply truthy_false in Hk. split; [by intros (? & ? & ? & [=])|]. by intros [? _]. }
  destruct (truthy (agentId settings)) eqn:Ha; cbn [negb orb].
  2: { apply truthy_false in Ha. split; [by intros (? & ? & ? & [=])|]. by intros (_ & ? & _). }
  assert (apiKey settings <> []) by (by destruct (apiKey settings)).
  assert (agentId settings <> []) by (by destruct (agentId settings)).
  destruct (detectPlatform (url payload)) as [p|] eqn:Hp.
  2: { split; [by intros (? & ? & ? & [=])|]. by intros (_ & _ & (? & [=] & _) & _). }
  destruct (bool_decide (p ∈ captureTargets settings)) eqn:Hin; cbn [negb].
  2: { apply bool_decide_eq_false in Hin.
       split; [by intros (? & ? & ? & [=])|]. by intros (_ & _ & (? & [= <-] & ?) & _). }
  apply bool_decide_eq_true in Hin.
  destruct (existsb _ CONTEXT_PATTERNS) eqn:Hpat.
  { split; [by intros (? & ? & ? & [=])|]. intros (_ & _ & _ & HF & _).
    apply existsb_false_Forall in HF. congruence. }
  apply existsb_false_Forall in Hpat.
  destruct (truthy (trim (userMessage payload))) eqn:Ht; cbn [negb].
  2: { apply truthy_false in Ht. split; [by intros (? & ? & ? & [=])|].
       by intros (_ & _ & _ & _ & ? & _). }
  assert (trim (userMessage payload) <> []) by (by destruct (trim (userMessage payload))).
  cbv zeta.
  destruct (bool_decide (Some (slice (userMessage payload) 0 200) = lastCapturedHash st))
    eqn:Hd.
  { apply bool_decide_eq_true in Hd. split; [by intros (? & ? & ? & [=])|].
    intros (_ & _ & _ & _ & _ & Hne). by rewrite <- Hd in Hne. }
  apply bool_decide_eq_false in Hd.
  split; [|by eexists _, _, _].
  intros _. split; [done|]. split; [done|]. split; [by exists p|].
  split; [done|]. split; [done|]. intros Heq. apply Hd. by rewrite Heq.
Qed.

Lemma validate_request (st st1 : State) (now : Z) (settings : Settings)
    (payload : SyncPayload) (request : Capture) (h : jsstring) :
  validate st now settings payload = (inr (request, h), st1) ->
  exists p, detectPlatform (url payload) = Some p
            /\ request = mkCapture (apiKey settings) (agentId settings)
                           (match context payload with Some c => c | None => [] end
                            ++ [mkChat user (userMessage payload)]) p.
Proof.
  unfold validate.
  destruct (negb _ || negb _); [done|].
  destruct (detectPlatform _) as [p|]; [|done].
  destruct (negb (bool_decide _)); [done|].
  destruct (existsb _ _); [done|].
  destruct (negb (truthy _)); [done|].
  cbv zeta. destruct (bool_decide _); [done|].
  intros [= <- _ _]. by exists p.
Qed.

(** The request and the hash of a payload that passes validation depend on the
    settings and the payload only. *)
Lemma validate_again (st st1 st2 : State) (now now2 : Z) (settings : Settings)
    (payload : SyncPayload) (request : Capture) (h : jsstring) :
  validate st now settings payload = (inr (request, h), st1) ->
  lastCapturedHash st2 = lastCapturedHash st ->
  validate st2 now2 settings payload
  = (inr (request, h), mkState now2 (lastCapturedHash st2)).
Proof.
  unfold validate. intros H Hh. rewrite Hh.
  destruct (negb _ || negb _); [done|].
  destruct (detectPlatform _) as [p|]; [|done].
  destruct (negb (bool_decide _)); [done|].
  destruct (existsb _ _); [done|].
  destruct (negb (truthy _)); [done|].
  cbv zeta in *. destruct (bool_decide _); [done|].
  by injection H as <- <- _.
Qed.

(** The state a successful capture leaves. *)
Lemma handleSync_success_state (st st' : State) (now : Z) (settings : Settings)
    (payload : SyncPayload) (thrown : option jsstring) (r : Response)
    (calls : list Capture) :
  handleSync st now settings payload thrown = (r, calls, st') ->
  success r = true ->
  st' = mkState now (Some (slice (userMessage payload) 0 200)).
Proof.
  unfold handleSync, rateCheck.
  destruct (now - lastSyncTime st <? SYNC_COOLDOWN_MS); [by intros [= <- _ _]|].
  destruct (validate st now settings payload) as [[r0|[request h]] st1] eqn:Hv.
  { destruct (BackgroundFacts.validate_rejects _ _ _ _ _ _ Hv) as [Hr _].
    intros [= <- _ _]. congruence. }
  destruct (BackgroundFacts.validate_passes _ _ _ _ _ _ _ Hv) as (-> & -> & _).
  unfold afterCapture. destruct thrown; [by intros [= <- _ _]|].
  by intros [= _ _ <-].
Qed.

(** X16. [handleSync] answers [success = true] exactly when the payload comes
    at least 2000 ms after [lastSyncTime], the API key and the agent id are
    set, the address is that of a platform listed in [captureTargets], the
    message contains none of the context patterns, is not blank, its first 200
    code units differ from [lastCapturedHash], and the remote call does not
    throw.  It has then made one remote call, for that platform and agent, with
    the context messages followed by the user message, and has recorded the
    arrival time and the hash. *)
Theorem handleSync_success (st : State) (now : Z) (settings : Settings)
    (payload : SyncPayload) (thrown : option jsstring) :
  let '(r, calls, st') := handleSync st now settings payload thrown in
  (success r = true <->
     SYNC_COOLDOWN_MS <= now - lastSyncTime st
     /\ apiKey settings <> [] /\ agentId settings <> []
     /\ (exists p, detectPlatform (url payload) = Some p /\ p ∈ captureTargets settings)
     /\ Forall (fun pattern => includes pattern (userMessage payload) = false)
               CONTEXT_PATTERNS
     /\ trim (userMessage payload) <> []
     /\ lastCapturedHash st <> Some (slice (userMessage payload) 0 200)
     /\ thrown = None)
  /\ (success r = true ->
      error r = None
      /\ st' = mkState now (Some (slice (userMessage payload) 0 200))
      /\ exists p,
           detectPlatform (url payload) = Some p
           /\ calls = [mkCapture (apiKey settings) (agentId settings)
                         (match context payload with Some c => c | None => [] end
                          ++ [mkChat user (userMessage payload)]) p]).
Proof.
  pose proof (validate_inr st now settings payload) as Hinr.
  unfold handleSync, rateCheck.
  destruct (now - lastSyncTime st <? SYNC_COOLDOWN_MS) eqn:Hrate.
  { apply Z.ltb_lt in Hrate. split; [|done]. split; [done|]. intros [? _]. lia. }
  apply Z.ltb_ge in Hrate.
  destruct (validate st now settings payload) as [[r|[request h]] st1] eqn:Hv.
  { destruct (BackgroundFacts.validate_rejects _ _ _ _ _ _ Hv) as [Hr ->].
    split; [|by rewrite Hr]. rewrite Hr. split; [done|].
    intros (_ & H). exfalso.
    assert (Hex : exists request h st1,
               (inl r, st) = (inr (request, h), st1) :> (Response + Capture * jsstring) * State).
    { apply Hinr. tauto. }
    by destruct Hex as (? & ? & ? & [=]). }
  assert (Hchecks := proj1 Hinr ltac:(by eexists _, _, _)).
  destruct (BackgroundFacts.validate_passes _ _ _ _ _ _ _ Hv) as (-> & -> & _).
  destruct (validate_request _ _ _ _ _ _ _ Hv) as (p & Hp & ->).
  unfold afterCapture. destruct thrown as [msg|]; cbn [success error].
  - split; [|done]. split; [done|]. by intros (_ & _ & _ & _ & _ & _ & _ & [=]).
  - split; [split; [intros _; tauto|done]|].
    intros _. split; [done|]. split; [done|]. by exists p.
Qed.

(** X17. The message just captured is not captured again: after a [handleSync]
    that answered [success = true], a payload whose message has the same first
    200 code units is answered [success = false], whenever it comes and
    whatever the settings are, with no remote call and no change of state. *)
Theorem handleSync_no_repeat (st st' : State) (now : Z) (settings : Settings)
    (payload : SyncPayload) (thrown : option jsstring) (r : Response)
    (calls : list Capture) :
  handleSync st now settings payload thrown = (r, calls, st') ->
  success r = true ->
  forall now' settings' payload' thrown',
    slice (userMessage payload') 0 200 = slice (userMessage payload) 0 200 ->
    exists r', handleSync st' now' settings' payload' thrown' = (r', [], st')
               /\ success r' = false.
Proof.
  intros Hrun Hok.
  assert (st' = mkState now (Some (slice (userMessage payload) 0 200))) as ->
    by (by eapply handleSync_success_state).
  intros now' settings' payload' thrown' Hsame.
  unfold handleSync, rateCheck.
  destruct (now' - _ <? SYNC_COOLDOWN_MS); [by eexists|].
  destruct (BackgroundFacts.validate_duplicate
              (mkState now (Some (slice (userMessage payload) 0 200)))
              now' settings' payload') as (r' & -> & Hr'); [by rewrite Hsame|].
  by exists r'.
Qed.

(** X18. A capture whose remote call threw can be tried again, but only after
    the cool-down.  The answer carries the message of the exception;
    [lastSyncTime] is the arrival time and [lastCapturedHash] is unchanged.  The
    same payload is then refused as rate limited for the next 2000 ms, and
    from then on it passes validation again and the same request is made. *)
Theorem handleSync_failed_call (st st' : State) (now : Z) (settings : Settings)
    (payload : SyncPayload) (message : jsstring) (r : Response) (calls : list Capture) :
  handleSync st now settings payload (Some message) = (r, calls, st') ->
  calls <> [] ->
  r = mkResponse false (Some message)
  /\ st' = mkState now (lastCapturedHash st)
  /\ forall now' thrown',
       (now' - now < SYNC_COOLDOWN_MS ->
          handleSync st' now' settings payload thrown' = (fail "Rate limited", [], st'))
       /\ (SYNC_COOLDOWN_MS <= now' - now ->
             exists r' st'',
               handleSync st' now' settings payload thrown' = (r', calls, st'')).
Proof.
  unfold handleSync at 1, rateCheck.
  destruct (now - lastSyncTime st <? SYNC_COOLDOWN_MS); [by intros [= _ <- _]|].
  destruct (validate st now settings payload) as [[r0|[request h]] st1] eqn:Hv;
    [by intros [= _ <- _]|].
  destruct (BackgroundFacts.validate_passes _ _ _ _ _ _ _ Hv) as (-> & -> & _).
  cbn [afterCapture]. intros [= <- <- <-] _.
  split; [done|]. split; [done|].
  intros now' thrown'. unfold handleSync, rateCheck. cbn [lastSyncTime]. split.
  - intros Hlt. by rewrite (proj2 (Z.ltb_lt _ _) Hlt).
  - intros Hge. rewrite (proj2 (Z.ltb_ge _ _) Hge).
    rewrite (validate_again st _ (mkState now (lastCapturedHash st)) now now'
               settings payload request _ Hv eq_refl).
    destruct (afterCapture _ _ thrown') as [r' st''] eqn:Ha. by exists r', st''.
Qed.

End BackgroundMore.

(* ------------------------------------------------------------------------- *)
(** ** Further properties: what unmounting leaves of the host document *)
(* ------------------------------------------------------------------------- *)

Section Unmount.

Context (B : Browser).

Implicit Types (P : Attrs -> bool) (d n : Node) (p q : path).

Lemma list_sum_two (c : Node -> nat) (ks : list Node) (i j : nat) (x y : Node) :
  i <> j -> ks !! i = Some x -> ks !! j = Some y ->
  (c x + c y <= list_sum (List.map c ks))%nat.
Proof.
  revert i j. induction ks as [|k ks IH]; intros [|i] [|j] Hij Hx Hy; simpl in *; try done.
  - injection Hx as ->. pose proof (list_sum_lookup_le c j ks y Hy). lia.
  - injection Hy as ->. pose proof (list_sum_lookup_le c i ks x Hx). lia.
  - assert (i <> j) by lia. specialize (IH i j ltac:(done) Hx Hy). lia.
Qed.

(** At most one element of a subtree satisfies a test that is counted once. *)
Lemma count_unique P n p q a ks a' ks' :
  (count P n <= 1)%nat ->
  nodeAt n p = Some (Elem a ks) -> P a = true ->
  nodeAt n q = Some (Elem a' ks') -> P a' = true ->
  p = q.
Proof.
  revert n q. induction p as [|i p IH]; intros n q Hc Hp Ha Hq Ha'.
  - simpl in Hp. injection Hp as ->. destruct q as [|j q]; [done|].
    simpl in Hq, Hc. rewrite Ha in Hc.
    destruct (ks !! j) as [k|] eqn:Hk; [|done].
    pose proof (count_at_pos P k q a' ks' Hq Ha').
    pose proof (list_sum_lookup_le (count P) j ks k Hk). lia.
  - destruct n as [|a0 kids]; [done|]. simpl in Hp.
    destruct (kids !! i) as [k|] eqn:Hk; [|done].
    pose proof (count_at_pos P k p a ks Hp Ha) as Hpos.
    destruct q as [|j q].
    + simpl in Hq. injection Hq as -> ->. simpl in Hc. rewrite Ha' in Hc.
      pose proof (list_sum_lookup_le (count P) i ks' k Hk). lia.
    + simpl in Hq. destruct (kids !! j) as [k'|] eqn:Hk'; [|done].
      pose proof (count_at_pos P k' q a' ks' Hq Ha') as Hpos'.
      simpl in Hc.
      destruct (decide (i = j)) as [->|Hij].
      * rewrite Hk in Hk'. injection Hk' as <-. f_equal.
        apply (IH k q); try done.
        pose proof (list_sum_lookup_le (count P) j kids k Hk). lia.
      * pose proof (list_sum_two (count P) kids i j k k' Hij Hk Hk'). lia.
Qed.

Lemma countDoc_unique P d p q a ks a' ks' :
  (countDoc P d <= 1)%nat -> p <> [] -> q <> [] ->
  nodeAt d p = Some (Elem a ks) -> P a = true ->
  nodeAt d q = Some (Elem a' ks') -> P a' = true ->
  p = q.
Proof.
  intros Hc Hp Hq Hn Ha Hn' Ha'.
  destruct p as [|i p]; [done|]. destruct q as [|j q]; [done|].
  destruct d as [|a0 kids]; [done|]. simpl in Hn, Hn', Hc.
  destruct (kids !! i) as [k|] eqn:Hk; [|done].
  destruct (kids !! j) as [k'|] eqn:Hk'; [|done].
  pose proof (count_at_pos P k p a ks Hn Ha).
  pose proof (count_at_pos P k' q a' ks' Hn' Ha').
  destruct (decide (i = j)) as [->|Hij].
  - rewrite Hk in Hk'. injection Hk' as <-. f_equal.
    apply (count_unique P k p q a ks a' ks'); try done.
    pose proof (list_sum_lookup_le (count P) j kids k Hk). lia.
  - pose proof (list_sum_two (count P) kids i j k k' Hij Hk Hk'). lia.
Qed.

Lemma addStyles_snoc (ws : list StyleWrite) (w : StyleWrite) (a : Attrs) :
  addStyles (ws ++ [w]) a = addStyle w (addStyles ws a).
Proof. unfold addStyles. by rewrite fold_left_app. Qed.

(** A placement puts the wrapper among the children of the element, at some
    position, and writes styles to the element. *)
Lemma placement_shape (root : Node) (F : Node -> Node) :
  Placement root F ->
  exists ws, forall a ks,
    exists i, (i <= length ks)%nat
              /\ F (Elem a ks) = Elem (addStyles ws a) (take i ks ++ root :: drop i ks).
Proof.
  induction 1 as [i| |w F HF [ws IH]].
  - exists []. intros a ks. exists (min i (length ks)). split; [lia|]. simpl.
    destruct (decide (i <= length ks)%nat) as [Hle|Hgt].
    + by rewrite Nat.min_l.
    + rewrite Nat.min_r by lia. by rewrite !take_ge, !drop_ge by lia.
  - exists []. intros a ks. exists (length ks). split; [lia|]. simpl.
    by rewrite take_ge, drop_ge by lia.
  - exists (ws ++ [w]). intros a ks. destruct (IH a ks) as (i & Hi & ->).
    exists i. split; [done|]. simpl. by rewrite addStyles_snoc.
Qed.

Lemma updateAt_ext_at (f g : Node -> Node) d p n :
  nodeAt d p = Some n -> f n = g n -> updateAt f d p = updateAt g d p.
Proof.
  revert d. induction p as [|i p IH]; intros d Hn Hfg; simpl in *.
  - by injection Hn as ->.
  - destruct d as [|a kids]; [done|]. f_equal.
    destruct (kids !! i) as [k|] eqn:Hk; [|done].
    apply list_alter_ext; [|done]. intros x Hx.
    rewrite Hk in Hx. injection Hx as <-. by apply IH.
Qed.

Lemma lookup_inserted {A} (l : list A) (i : nat) (x : A) :
  (i <= length l)%nat -> (take i l ++ x :: drop i l) !! i = Some x.
Proof.
  intros Hi. rewrite lookup_app_r by (rewrite length_take; lia).
  rewrite length_take. by replace (i - i `min` length l)%nat with 0%nat by lia.
Qed.

Lemma delete_inserted {A} (l : list A) (i : nat) (x : A) :
  (i <= length l)%nat -> delete i (take i l ++ x :: drop i l) = l.
Proof.
  revert i. induction l as [|a l IH]; intros [|i] Hi; simpl in *; try done; [lia|].
  f_equal. apply IH. lia.
Qed.

(** Where a placement has put the wrapper, and what taking it out again
    leaves. *)
Lemma placed_root d (par : path) (root : Node) (F : Node -> Node) :
  ValidElem d par -> Placement root F ->
  exists i ws,
    nodeAt (updateAt F d par) (par ++ [i]) = Some root
    /\ removeNode (updateAt F d par) (par ++ [i])
       = updateAt (mapAttrs (addStyles ws)) d par.
Proof.
  intros [Hne (a & ks & Hn)] HF.
  destruct (placement_shape root F HF) as [ws Hshape].
  destruct (Hshape a ks) as (i & Hi & HFn).
  exists i, ws. split.
  - rewrite nodeAt_app, (nodeAt_updateAt F d par _ Hn), HFn. simpl.
    by rewrite (lookup_inserted ks i root Hi).
  - rewrite removeNode_snoc, updateAt_compose.
    apply (updateAt_ext_at _ _ d par _ Hn).
    rewrite HFn. simpl. by rewrite (delete_inserted ks i root Hi).
Qed.

Lemma parentElement_snoc (p : path) (i : nat) :
  p <> [] -> parentElement (p ++ [i]) = Some p.
Proof.
  intros Hp. unfold parentElement.
  destruct p as [|a p]; [done|]. destruct p as [|b p]; [done|].
  change ((a :: b :: p) ++ [i]) with (a :: b :: (p ++ [i])).
  f_equal. change (a :: b :: p ++ [i]) with ((a :: b :: p) ++ [i]).
  by rewrite List.removelast_last.
Qed.

Lemma button_not_floating (s : nat) : count isFloating (lettaButton s) = 0%nat.
Proof. vm_compute. reflexivity. Qed.

(** [removeUI] on a document into which a strategy has placed the wrapper takes
    the wrapper out and leaves the rest, styles written by the strategy
    included; the teardown closure of the wrapper, when it has one, runs. *)
Lemma removeUI_unplaces_full (x : Engine) (d0 : Node) (par : path) (ar : Attrs)
    (F : Node -> Node) (s : nat) :
  let root := Elem ar [lettaButton (S s)] in
  ValidElem d0 par -> RootLike s root -> Placement root F ->
  countDoc isFloating d0 = 0%nat ->
  countDoc (hasSerial (S s)) d0 = 0%nat ->
  edoc x = updateAt F d0 par ->
  buttonHost x = Some (S s) ->
  exists ws more,
    edoc (removeUI x) = updateAt (mapAttrs (addStyles ws)) d0 par
    /\ effects (epage (removeUI x)) = effects (epage (runCleanup x ar)) ++ more.
Proof.
  intros root Hv Hr HF Hf0 Hs0 Hdoc Hb. subst root.
  destruct (placed_root d0 par (Elem ar [lettaButton (S s)]) F Hv HF) as (i & ws & Hroot & Hrem).
  exists ws.
  pose proof (RootLike_counts s (Elem ar [lettaButton (S s)]) Hr) as (_ & Hrf & _ & Hrs).
  set (d1 := updateAt F d0 par) in *.
  set (rp := par ++ [i]) in *.
  assert (Hrpne : rp <> []) by (unfold rp; by destruct par).
  assert (Hcf : countDoc isFloating d1 = count isFloating (Elem ar [lettaButton (S s)])).
  { unfold d1. rewrite (countDoc_placed isFloating d0 par _ F Hv HF isFloating_blind). lia. }
  assert (Hcs : countDoc (hasSerial (S s)) d1 = 1%nat).
  { unfold d1. rewrite (countDoc_placed _ d0 par _ F Hv HF (hasSerial_blind _)). lia. }
  assert (Hbtn : nodeAt d1 (rp ++ [0%nat]) = Some (lettaButton (S s))).
  { by rewrite nodeAt_app, Hroot. }
  assert (Hafter : countDoc (hasSerial (S s)) (removeNode d1 rp) = 0%nat).
  { pose proof (countDoc_removeNode (hasSerial (S s)) d1 rp _ Hrpne Hroot). lia. }
  rewrite removeUI_phases.
  (* the floating container, when the wrapper is one *)
  assert (Hphase1 :
            (removeFloating x = x /\ isFloating ar = false)
            \/ removeFloating x = detach (runCleanup x ar) rp (Elem ar [lettaButton (S s)])).
  { unfold removeFloating. rewrite Hdoc. fold d1.
    destruct (getElementById d1 FLOATING_ID) as [fp|] eqn:Hfind.
    - right. rewrite getElementById_test in Hfind.
      apply (find_doc_spec isFloating) in Hfind as [[Hfne _] (af & kf & Hnf & Haf)].
      assert (Hfl : isFloating ar = true).
      { destruct (isFloating ar) eqn:E; [done|].
        pose proof (countDoc_zero_at isFloating d1 fp af kf) as Hz.
        rewrite Hcf in Hz. cbn [count List.map list_sum] in Hz.
        rewrite E, (button_not_floating (S s)) in Hz.
        rewrite Hz in Haf; [done|done|done|done]. }
      assert (fp = rp) as ->.
      { apply (countDoc_unique isFloating d1 fp rp af kf ar [lettaButton (S s)]);
          try done. rewrite Hcf. exact Hrf. }
      by rewrite Hroot.
    - left. split; [done|].
      apply (getElementById_none isFloating) in Hfind; [|done].
      rewrite Hcf in Hfind. cbn [count] in Hfind.
      destruct (isFloating ar); [lia|done]. }
  destruct Hphase1 as [[-> Hnf]| ->].
  - rewrite Hb, Hdoc. fold d1.
    rewrite findSerial_test.
    destruct (List.find _ _) as [pb|] eqn:Hfind.
    2: { pose proof (find_doc_some (hasSerial (S s)) d1 ltac:(lia)) as [? Hsome].
         congruence. }
    apply find_doc_spec in Hfind as [[Hpne _] (ab & kb & Hnb & Hab)].
    assert (pb = rp ++ [0%nat]) as ->.
    { pose proof Hbtn as Hbtn'. unfold lettaButton in Hbtn'.
      eapply (countDoc_unique (hasSerial (S s)) d1 pb (rp ++ [0%nat]));
        [lia|done|by destruct rp|exact Hnb|exact Hab|exact Hbtn'|].
      unfold hasSerial. by apply bool_decide_eq_true_2. }
    rewrite (parentElement_snoc rp 0%nat Hrpne), Hroot.
    exists []. split.
    + change (edoc (setButtonHost ?y None)) with (edoc y).
      by rewrite edoc_detach, edoc_runCleanup, Hdoc.
    + by rewrite app_nil_r.
  - assert (Hb2 : buttonHost (detach (runCleanup x ar) rp (Elem ar [lettaButton (S s)])) = Some (S s)).
    { rewrite <- Hb. cbn [detach].
      change (buttonHost (setDetached (setDoc ?y _) _)) with (buttonHost y).
      apply buttonHost_runCleanup. }
    assert (Hd2 : edoc (detach (runCleanup x ar) rp (Elem ar [lettaButton (S s)]))
                  = removeNode d1 rp).
    { by rewrite edoc_detach, edoc_runCleanup, Hdoc. }
    rewrite Hb2, Hd2.
    rewrite findSerial_test, (find_doc_none _ _ Hafter).
    destruct (detachedParent _ _) as [a|].
    + exists (if hasCleanup a then listenersRemoved (serial a) else []). split.
      * change (edoc (setButtonHost ?y None)) with (edoc y).
        by rewrite edoc_runCleanup, Hd2.
      * change (epage (setButtonHost ?y None)) with (epage y).
        unfold runCleanup at 1. destruct (hasCleanup a).
        -- cbn [emitE setPage setInj epage inj page emit effects].
           rewrite <- app_assoc. reflexivity.
        -- by rewrite app_nil_r.
    + exists []. split.
      * change (edoc (setButtonHost ?y None)) with (edoc y). by rewrite Hd2.
      * by rewrite app_nil_r.
Qed.

Lemma removeUI_unplaces (x : Engine) (d0 : Node) (par : path) (root : Node)
    (F : Node -> Node) (s : nat) :
  ValidElem d0 par -> RootLike s root -> Placement root F ->
  countDoc isFloating d0 = 0%nat ->
  countDoc (hasSerial (S s)) d0 = 0%nat ->
  edoc x = updateAt F d0 par ->
  buttonHost x = Some (S s) ->
  exists ws, edoc (removeUI x) = updateAt (mapAttrs (addStyles ws)) d0 par.
Proof.
  intros Hv Hr HF Hf0 Hs0 Hdoc Hb.
  pose proof Hr as (ar & -> & _).
  destruct (removeUI_unplaces_full x d0 par ar F s Hv Hr HF Hf0 Hs0 Hdoc Hb)
    as (ws & _ & Hws & _).
  by exists ws.
Qed.

(** X19. Unmounting gives the host document back.  After a mount that placed
    the control on a document without control (no stale [buttonHost], no
    identity in use that the engine has yet to hand out), [removeUI] leaves the
    document as it was before the mount, except for the inline styles the
    strategy wrote on the one element it mounted into, which stay; [buttonHost]
    is cleared. *)
Theorem unmount_restores (e e1 : Engine) :
  controlPresent (edoc e) = false ->
  buttonHost e = None ->
  SerialsFresh e ->
  mountButtonOnEditor B e = Ok e1 ->
  controls (edoc e1) = 1%nat ->
  buttonHost (removeUI e1) = None
  /\ exists par ws,
       ValidElem (edoc e) par
       /\ edoc (removeUI e1) = updateAt (mapAttrs (addStyles ws)) (edoc e) par.
Proof.
  intros Hcp Hbh Hfresh Hrun Hone.
  split; [by destruct (removeUI_keeps e1) as (_ & _ & _ & _ & _ & _ & _ & ?)|].
  destruct (mount_run B e e1 Hcp Hrun) as (success & e' & Hok & Hd & Hb & _).
  assert (Hbm : beforeMount e = e) by (unfold beforeMount; by rewrite Hbh).
  rewrite Hbm in Hok.
  apply controlPresent_false in Hcp as [Hi Hf].
  destruct Hok as [[-> ->]|[-> Hm]].
  { rewrite Hd in Hone. unfold controls in Hone. lia. }
  destruct Hm as (par & root & F & fx & Hv & Hr & HF & ->).
  exists par.
  destruct (removeUI_unplaces e1 (edoc e) par root F (nextSerial e) Hv Hr HF Hf
              (fresh_countDoc e (S (nextSerial e)) Hfresh ltac:(lia)) Hd Hb) as [ws Hws].
  by exists ws.
Qed.

End Unmount.

(* ------------------------------------------------------------------------- *)
(** ** Further properties: the window listeners of the floating container *)
(* ------------------------------------------------------------------------- *)

Section Listeners.

Context (B : Browser).

Lemma mountChatGPTButton_quiet (e e' : Engine) (r : bool) :
  mountChatGPTButton B e = Ok (r, e') -> effects (epage e') = effects (epage e).
Proof.
  unfold mountChatGPTButton.
  assert (Hsecond :
    (sendButton ← queryR B e (lit "#composer-submit-button");
     match sendButton, sendButton ≫= parentElement with
     | Some sb, Some _ =>
         Ok (true, mountWith e id (fun d root => insertBefore d sb root))
     | _, _ => Ok (false, e)
     end) = Ok (r, e') ->
    effects (epage e') = effects (epage e)).
  { destruct (queryR B e (lit "#composer-submit-button")) as [[sb|]|]; rsimpl; try done.
    - simpl. destruct (parentElement sb); by intros [= <- <-].
    - by intros [= <- <-]. }
  destruct (queryR B e (litq "button[data-testid=`composer-plus-btn`]"))
    as [[pb|]|]; rsimpl; try done.
  destruct (closestR B e pb (lit "span.flex")) as [plusButtonParent|]; rsimpl; [|done].
  destruct (closestR B e pb (litq "div[class*=`leading`]")) as [leadingContainer|];
    rsimpl; [|done].
  destruct plusButtonParent as [pbp|]; simpl.
  - destruct (parentElement pbp) as [par|].
    + rsimpl. by intros [= <- <-].
    + destruct leadingContainer as [lc|]; rsimpl; [|done]. by intros [= <- <-].
  - destruct leadingContainer as [lc|]; rsimpl; [|done]. by intros [= <- <-].
Qed.

Lemma mountClaudeButton_quiet (e e' : Engine) (r : bool) :
  mountClaudeButton B e = Ok (r, e') -> effects (epage e') = effects (epage e).
Proof.
  unfold mountClaudeButton.
  assert (Hsecond :
    (toolsTrigger ← queryR B e (lit "#input-tools-menu-trigger");
     match toolsTrigger, toolsTrigger ≫= parentElement with
     | Some trig, Some _ =>
         Ok (true, mountWith e id (fun d root => insertAfter d trig root))
     | _, _ => Ok (false, e)
     end) = Ok (r, e') ->
    effects (epage e') = effects (epage e)).
  { destruct (queryR B e (lit "#input-tools-menu-trigger")) as [[trig|]|]; rsimpl;
      try done.
    - simpl. destruct (parentElement trig); by intros [= <- <-].
    - by intros [= <- <-]. }
  destruct (firstQuery B e _) as [[sb|]|]; rsimpl; try done.
  simpl. destruct (parentElement sb); [|done]. by intros [= <- <-].
Qed.

Lemma mountGeminiButton_quiet (e e' : Engine) (r : bool) :
  mountGeminiButton B e = Ok (r, e') -> effects (epage e') = effects (epage e).
Proof.
  unfold mountGeminiButton.
  assert (Hrest :
    (toolbox ← queryR B e (lit "toolbox-drawer .toolbox-drawer-container");
     match toolbox with
     | Some tb => Ok (true, mountWith e id (fun d root => appendChild d tb root))
     | None =>
         let sendButton := getSendButton B (epage e) (platform e) in
         match sendButton, sendButton ≫= parentElement with
         | Some sb, Some _ =>
             Ok (true, mountWith e
                         (mapAttrs (addStyle (SetProp (lit "marginRight") (lit "4px"))))
                         (fun d root => insertBefore d sb root))
         | _, _ => Ok (false, e)
         end
     end) = Ok (r, e') ->
    effects (epage e') = effects (epage e)).
  { destruct (queryR B e (lit "toolbox-drawer .toolbox-drawer-container"))
      as [[tb|]|]; rsimpl; try done.
    - by intros [= <- <-].
    - cbv zeta. destruct (getSendButton B (epage e) (platform e)) as [sb|].
      + simpl. destruct (parentElement sb); by intros [= <- <-].
      + by intros [= <- <-]. }
  destruct (queryR B e (lit ".text-input-field-main-area")) as [[ma|]|]; rsimpl;
    try done.
  simpl. destruct (parentElement ma); [|done]. by intros [= <- <-].
Qed.

Lemma mountGenericButton_quiet (e e' : Engine) (r : bool) :
  mountGenericButton B e = Ok (r, e') -> effects (epage e') = effects (epage e).
Proof.
  unfold mountGenericButton. cbv zeta.
  assert (Hrest :
    (anchor ← getAnchor B e (platform e);
     match anchor with
     | Some a => Ok (true, mountWith e id (fun d root => appendChild d a root))
     | None => Ok (false, e)
     end) = Ok (r, e') ->
    effects (epage e') = effects (epage e)).
  { destruct (getAnchor B e (platform e)) as [[a|]|]; rsimpl; try done;
      by intros [= <- <-]. }
  destruct (getSendButton B (epage e) (platform e)) as [sb|]; [|done].
  simpl. destruct (parentElement sb); [|done]. by intros [= <- <-].
Qed.

(** The Perplexity strategy registers window listeners only when it falls back
    to the floating container. *)
Lemma mountPerplexityButton_listeners (e e' : Engine) (r : bool) :
  mountPerplexityButton B e = Ok (r, e') ->
  effects (epage e') = effects (epage e)
  \/ exists body ie,
       documentBody (edoc e) = Some body /\ r = true /\ e' = floatingState B e body ie.
Proof.
  unfold mountPerplexityButton.
  destruct (queryR B e (litq "div[data-testid=`search-mode-studio`]"))
    as [studio|]; rsimpl; [|done].
  destruct (match studio with
            | Some st => closestR B e st (litq "[role=`radiogroup`]")
            | None => Ok None
            end) as [[g|]|]; rsimpl; [| |done].
  - destruct (parentElement g); [|done]. intros [= <- <-]. by left.
  - destruct (queryR B e (lit "div.gap-xs.flex.items-center")) as [[cr|]|];
      rsimpl; [| |done].
    + intros [= <- <-]. by left.
    + destruct (firstQuery B e _) as [[ie|]|]; rsimpl; [| |done].
      * destruct (flexAncestor B (edoc e) ie) as [current|].
        -- intros [= <- <-]. by left.
        -- unfold createLettaButton. cbv beta iota zeta.
           change (edoc (emitE (emitE (setNextSerial e _) _) _)) with (edoc e).
           destruct (documentBody (edoc e)) as [body|] eqn:Hbody; [|done].
           intros [= <- <-]. right. exists body, ie. done.
      * intros [= <- <-]. by left.
Qed.

(** A run of [mountButtonOnEditor] on a document without control: the strategy
    it ran, and what the rest of the function keeps. *)
Lemma mount_run_strategy (e e1 : Engine) :
  controlPresent (edoc e) = false ->
  mountButtonOnEditor B e = Ok e1 ->
  exists success e',
    match platform (beforeMount e) with
    | Some chatgpt => mountChatGPTButton B (beforeMount e)
    | Some claude => mountClaudeButton B (beforeMount e)
    | Some gemini => mountGeminiButton B (beforeMount e)
    | Some perplexity => mountPerplexityButton B (beforeMount e)
    | None => mountGenericButton B (beforeMount e)
    end = Ok (success, e')
    /\ edoc e1 = edoc e'
    /\ buttonHost e1 = buttonHost e'
    /\ effects (epage e1) = effects (epage e').
Proof.
  intros Hcp. unfold mountButtonOnEditor. rewrite Hcp.
  fold (beforeMount e). set (e0 := beforeMount e).
  destruct (match platform e0 with
            | Some chatgpt => mountChatGPTButton B e0
            | Some claude => mountClaudeButton B e0
            | Some gemini => mountGeminiButton B e0
            | Some perplexity => mountPerplexityButton B e0
            | None => mountGenericButton B e0
            end) as [[success e']|] eqn:Hstrat; rsimpl.
  2: { intros [=]. }
  intros Hrest. exists success, e'. split; [done|].
  set (e2 := if success then e' else setTimeout e' TaskMount 1000) in *.
  assert (He2 : edoc e2 = edoc e' /\ buttonHost e2 = buttonHost e'
                /\ effects (epage e2) = effects (epage e')).
  { unfold e2. by destruct success. }
  destruct He2 as (Hd & Hb & Hfx).
  destruct (buttonWatcherStarted e2).
  - injection Hrest as <-. done.
  - unfold startButtonWatcher in Hrest. cbv zeta in Hrest.
    destruct (documentBody _); [|done]. injection Hrest as <-. done.
Qed.

Lemma strategy_quiet (e e' : Engine) (r : bool) :
  platform e <> Some perplexity ->
  match platform e with
  | Some chatgpt => mountChatGPTButton B e
  | Some claude => mountClaudeButton B e
  | Some gemini => mountGeminiButton B e
  | Some perplexity => mountPerplexityButton B e
  | None => mountGenericButton B e
  end = Ok (r, e') ->
  effects (epage e') = effects (epage e).
Proof.
  intros Hp. destruct (platform e) as [[]|]; try done.
  - apply mountChatGPTButton_quiet.
  - apply mountClaudeButton_quiet.
  - apply mountGeminiButton_quiet.
  - apply mountGenericButton_quiet.
Qed.

(** X20. Window listeners are registered by the floating fallback of the
    Perplexity strategy only, two of them ([scroll] and [resize]) owned by the
    wrapper, and [removeUI] releases them.  A mount on a document without
    control either registers no listener, or registers these two, and then the
    first thing a following [removeUI] does is to remove both. *)
Theorem listeners_released (e e1 : Engine) :
  controlPresent (edoc e) = false ->
  buttonHost e = None ->
  SerialsFresh e ->
  mountButtonOnEditor B e = Ok e1 ->
  effects (epage e1) = effects (epage e)
  \/ (platform e = Some perplexity
      /\ effects (epage e1) = effects (epage e) ++ listenersAdded (Some (nextSerial e))
      /\ exists more,
           effects (epage (removeUI e1))
           = effects (epage e1) ++ listenersRemoved (Some (nextSerial e)) ++ more).
Proof.
  intros Hcp Hbh Hfresh Hrun.
  destruct (mount_run_strategy e e1 Hcp Hrun) as (success & e' & Hstrat & Hd & Hb & Hfx).
  assert (Hbm : beforeMount e = e) by (unfold beforeMount; by rewrite Hbh).
  rewrite Hbm in Hstrat. rewrite Hfx.
  destruct (decide (platform e = Some perplexity)) as [Hp|Hp].
  2: { left. by apply (strategy_quiet e e' success Hp). }
  rewrite Hp in Hstrat.
  apply mountPerplexityButton_listeners in Hstrat as [Hq|(body & ie & Hbody & -> & ->)];
    [by left|right].
  split; [done|]. split.
  { unfold floatingState, mountedState, listenersAdded. simpl.
    by rewrite <- app_assoc. }
  apply controlPresent_false in Hcp as [Hi Hf].
  set (s := nextSerial e) in *.
  set (ar := mkAttrs (Some s) (lit "span") FLOATING_ID [] (lit "inherit")
               [(lit "id", FLOATING_ID)] [] false
               [ SetCssText (lit " position: fixed; z-index: 10000; display: flex; gap: 4px; ");
                 SetPx (lit "top") (maxQ 10 (rectTop (boundingRect B (edoc e) ie) - 45));
                 SetPx (lit "left") (maxQ 10 (rectLeft (boundingRect B (edoc e) ie) + 8)) ]
               true false false).
  assert (Hroot : floatingRoot (boundingRect B (edoc e) ie) (lettaRoot s (lettaButton (S s)))
                  = Elem ar [lettaButton (S s)]) by done.
  assert (Hr : RootLike s (Elem ar [lettaButton (S s)])).
  { rewrite <- Hroot. apply RootLike_floating. }
  destruct (removeUI_unplaces_full e1 (edoc e) body ar
              (appendKid (Elem ar [lettaButton (S s)])) s
              (documentBody_valid _ _ Hbody) Hr (place_append _) Hf
              (fresh_countDoc e (S s) Hfresh ltac:(unfold s; lia)))
    as (ws & more & _ & Hmore).
  { rewrite Hd. reflexivity. }
  { rewrite Hb. reflexivity. }
  exists more. rewrite Hmore.
  unfold runCleanup. cbn [hasCleanup ar].
  cbn [emitE setPage setInj epage inj page emit effects serial].
  rewrite Hfx. unfold listenersRemoved. by rewrite <- !app_assoc.
Qed.

End Listeners.

(* ------------------------------------------------------------------------- *)
(** ** Further properties: the anchor *)
(* ------------------------------------------------------------------------- *)

Section Anchor.

Context (B : Browser).



End Anchor.

(* ------------------------------------------------------------------------- *)
(** ** Further properties: the settings store *)
(* ------------------------------------------------------------------------- *)

Module StorageFacts.

Import Storage.

Lemma spread_lookup (a b : gmap (list N) Json) (k : list N) :
  spread a b !! k = match b !! k with Some v => Some v | None => a !! k end.
Proof.
  unfold spread. rewrite lookup_union.
  destruct (b !! k), (a !! k); done.
Qed.

Lemma getSettings_lookup (st : Store) (k : list N) :
  getSettings st !! k
  = match sync st !! SETTINGS_KEY ≫= (fun o => o !! k) with
    | Some v => Some v
    | None => DEFAULT_SETTINGS !! k
    end.
Proof.
  unfold getSettings. cbv zeta. rewrite spread_lookup.
  destruct (sync st !! SETTINGS_KEY) as [o|]; simpl; [done|].
  by rewrite lookup_empty.
Qed.

Lemma getSettings_saved (st : Store) (o : gmap (list N) Json) :
  (forall k, is_Some (DEFAULT_SETTINGS !! k) -> is_Some (o !! k)) ->
  getSettings (mkStore (<[SETTINGS_KEY := o]> (sync st)) (local st)) = o.
Proof.
  intros Hall. apply map_eq. intros k. rewrite getSettings_lookup. simpl.
  rewrite lookup_insert_eq. simpl.
  destruct (o !! k) eqn:Hk; [done|].
  destruct (DEFAULT_SETTINGS !! k) eqn:Hd; [|done].
  destruct (Hall k ltac:(by eexists)) as [? ?]. congruence.
Qed.

Lemma getSettings_complete (st : Store) (k : list N) :
  is_Some (DEFAULT_SETTINGS !! k) -> is_Some (getSettings st !! k).
Proof.
  intros [v Hv]. rewrite getSettings_lookup.
  destruct (_ ≫= _); [by eexists|]. by exists v.
Qed.

Lemma saveSettings_read (st : Store) (updates : gmap (list N) Json) :
  getSettings (snd (saveSettings st updates)) = spread (getSettings st) updates.
Proof.
  unfold saveSettings. cbv zeta. cbn [snd]. apply getSettings_saved.
  intros k Hk. rewrite spread_lookup.
  destruct (updates !! k); [by eexists|]. by apply getSettings_complete.
Qed.

(** X22. Settings read back as saved.  [getSettings] always has every field of
    the defaults.  After [saveSettings updates], [getSettings] returns what
    [saveSettings] returned: each field of [updates] with its new value, every
    other field as it was.  After [resetSettings], and after
    [clearAllExtensionData], it returns the defaults; the latter removes the
    settings key and the onboarding flag and leaves every other key of both
    storage areas in place. *)
Theorem settings_roundtrip (st : Store) (updates : gmap (list N) Json) :
  (forall k, is_Some (DEFAULT_SETTINGS !! k) -> is_Some (getSettings st !! k))
  /\ getSettings (snd (saveSettings st updates)) = fst (saveSettings st updates)
  /\ (forall k,
        getSettings (snd (saveSettings st updates)) !! k
        = match updates !! k with
          | Some v => Some v
          | None => getSettings st !! k
          end)
  /\ getSettings (snd (resetSettings st)) = DEFAULT_SETTINGS
  /\ getSettings (clearAllExtensionData st) = DEFAULT_SETTINGS
  /\ (forall k, k <> SETTINGS_KEY ->
        sync (clearAllExtensionData st) !! k = sync st !! k)
  /\ (forall k, k <> lit "onboardingComplete" ->
        local (clearAllExtensionData st) !! k = local st !! k).
Proof.
  split; [intros k; apply getSettings_complete|].
  split; [apply saveSettings_read|].
  split; [intros k; by rewrite saveSettings_read, spread_lookup|].
  split; [by apply getSettings_saved|].
  split.
  - apply map_eq. intros k. rewrite getSettings_lookup. simpl.
    by rewrite lookup_delete_eq.
  - split; intros k Hk; simpl; by rewrite lookup_delete_ne.
Qed.

Lemma setField_lookup (name : jsstring) (v : option Json) (updates : gmap (list N) Json) (k : list N) :
  setField name v updates !! k
  = if bool_decide (k = name) then match v with Some x => Some x | None => updates !! k end
    else updates !! k.
Proof.
  unfold setField. destruct v as [x|].
  - destruct (bool_decide (k = name)) eqn:E.
    + apply bool_decide_eq_true in E as ->. by rewrite lookup_insert_eq.
    + apply bool_decide_eq_false in E. by rewrite lookup_insert_ne.
  - by destruct (bool_decide _).
Qed.

Lemma resetField_lookup (keys : list jsstring) (key name : jsstring) (v : Json)
    (updates : gmap (list N) Json) (k : list N) :
  resetField keys key name v updates !! k
  = if bool_decide (k = name) && bool_decide (key ∈ keys) then Some v else updates !! k.
Proof.
  unfold resetField. destruct (bool_decide (key ∈ keys)).
  - destruct (bool_decide (k = name)) eqn:E; simpl.
    + apply bool_decide_eq_true in E as ->. by rewrite lookup_insert_eq.
    + apply bool_decide_eq_false in E. by rewrite lookup_insert_ne.
  - by rewrite andb_false_r.
Qed.

(** X24. The legacy accessors agree with each other on four of the five
    fields of [StoredData].  After [setStoredData data], [getStoredData] gives
    [lettaApiKey], [agentId], [agentName] and [selectedBlocks] with the value
    written where [data] defines the field and as they were where it leaves
    the field undefined.  [messageInterval] is not kept: whatever [data] holds
    for it, it reads back undefined, and the settings stored are the same as
    for the [data] without it.  After [removeStoredData keys], the fields named
    in [keys] read as the empty string (the empty list for [selectedBlocks])
    and the others as they were. *)
Theorem storedData_roundtrip (st : Store) (data : StoredData) (keys : list jsstring) :
  getStoredData (setStoredData st data)
  = mkStored (orKeep (lettaApiKey data) (lettaApiKey (getStoredData st)))
             (orKeep (agentId data) (agentId (getStoredData st)))
             (orKeep (agentName data) (agentName (getStoredData st)))
             None
             (orKeep (selectedBlocks data) (selectedBlocks (getStoredData st)))
  /\ setStoredData st data
     = setStoredData st (mkStored (lettaApiKey data) (agentId data) (agentName data)
                                  None (selectedBlocks data))
  /\ getStoredData (removeStoredData st keys)
     = mkStored (if bool_decide (lit "lettaApiKey" ∈ keys) then Some (JStr [])
                 else lettaApiKey (getStoredData st))
                (if bool_decide (lit "agentId" ∈ keys) then Some (JStr [])
                 else agentId (getStoredData st))
                (if bool_decide (lit "agentName" ∈ keys) then Some (JStr [])
                 else agentName (getStoredData st))
                None
                (if bool_decide (lit "selectedBlocks" ∈ keys) then Some (JList [])
                 else selectedBlocks (getStoredData st)).
Proof.
  split; [|split; [reflexivity|]].
  - unfold getStoredData, setStoredData. cbv zeta.
    rewrite saveSettings_read. rewrite !spread_lookup, !setField_lookup, !lookup_empty.
    unfold orKeep. cbn [lettaApiKey agentId agentName selectedBlocks].
    repeat match goal with
           | |- context [bool_decide (lit ?a = lit ?b)] =>
               let H := fresh in
               assert (H : bool_decide (lit a = lit b) = eqb (lit a) (lit b)) by reflexivity;
               rewrite H; clear H;
               let v := eval vm_compute in (eqb (lit a) (lit b)) in
               change (eqb (lit a) (lit b)) with v
           end.
    cbv iota.
    destruct (lettaApiKey data), (agentId data), (agentName data), (selectedBlocks data);
      reflexivity.
  - unfold getStoredData, removeStoredData. cbv zeta.
    rewrite saveSettings_read. rewrite !spread_lookup, !resetField_lookup, !lookup_empty.
    cbn [lettaApiKey agentId agentName selectedBlocks].
    repeat match goal with
           | |- context [bool_decide (lit ?a = lit ?b)] =>
               let H := fresh in
               assert (H : bool_decide (lit a = lit b) = eqb (lit a) (lit b)) by reflexivity;
               rewrite H; clear H;
               let v := eval vm_compute in (eqb (lit a) (lit b)) in
               change (eqb (lit a) (lit b)) with v
           end.
    cbn [andb].
    destruct (bool_decide (lit "lettaApiKey" ∈ keys)),
      (bool_decide (lit "agentId" ∈ keys)),
      (bool_decide (lit "agentName" ∈ keys)),
      (bool_decide (lit "selectedBlocks" ∈ keys)); reflexivity.
Qed.

End StorageFacts.

(* ------------------------------------------------------------------------- *)
(** ** Further properties: the URL monitor *)
(* ------------------------------------------------------------------------- *)

(** X25. One navigation is handled once.  The callback of the URL monitor does
    nothing while the address equals [lastUrl]; when the address has changed it
    records the new address, so the callback that follows, with the address
    still the same, does nothing: no second removal, no second reset and no
    second re-mount timer. *)
Theorem urlTick_settles (e : Engine) :
  (href (epage e) = lastUrl e -> urlTick e = e)
  /\ urlTick (urlTick e) = urlTick e
  /\ (href (epage e) <> lastUrl e ->
      lastUrl (urlTick e) = href (epage e)
      /\ href (epage (urlTick e)) = href (epage e)
      /\ timers (urlTick e) = timers e ++ [(500, TaskRemount)]).
Proof.
  assert (Hsame : forall x, href (epage x) = lastUrl x -> urlTick x = x).
  { intros x Hx. unfold urlTick. by rewrite bool_decide_eq_false_2 by (by intros ?). }
  assert (Hmoved : href (epage e) <> lastUrl e ->
                   lastUrl (urlTick e) = href (epage e)
                   /\ href (epage (urlTick e)) = href (epage e)
                   /\ timers (urlTick e) = timers e ++ [(500, TaskRemount)]).
  { intros Hne. unfold urlTick. rewrite bool_decide_eq_true_2 by done. cbv zeta.
    destruct (removeUI_keeps (setLastUrl e (href (epage e))))
      as (Ht & _ & _ & Hl & _ & Hh & _).
    cbn [setTimeout setInj lastUrl timers epage inj resetInjectionState page].
    split; [exact Hl|]. split; [exact Hh|]. by rewrite Ht. }
  split; [apply Hsame|]. split; [|exact Hmoved].
  destruct (decide (href (epage e) = lastUrl e)) as [Heq|Hne].
  - by rewrite !(Hsame e Heq).
  - destruct (Hmoved Hne) as (Hl & Hh & _). apply Hsame. by rewrite Hl, Hh.
Qed.

(* ------------------------------------------------------------------------- *)
(** ** Instances of the further properties *)
(* ------------------------------------------------------------------------- *)

Lemma injectMemories_replaces_witness :
  injectMemories Fixture.browser Sample.injected [Sample.topic]
  = (pg ← setInputValue Fixture.browser (page Sample.injected) [0; 1; 0; 0]%nat
            (formatMemoriesForInjection [Sample.topic] ++ trim (lit " hello"));
     Returned (true, mkInjector pg (trackIds (injectedMemoryIds Sample.injected)
                                       [Sample.topic])))
  /\ (injectMemories Fixture.browser Sample.injected [Sample.topic] = TypeError
      <-> inputField (page Sample.injected)
            (Sample.field (formatMemoriesForInjection [Fixture.facts] ++ lit " hello")))
  /\ injectedMemoryIds Sample.injected
     ⊆ trackIds (injectedMemoryIds Sample.injected) [Sample.topic].
Proof.
  apply (injectMemories_replaces Fixture.browser Sample.injected chatgpt [0; 1; 0; 0]%nat
           (Sample.field (formatMemoriesForInjection [Fixture.facts] ++ lit " hello"))
           [Fixture.facts] [Sample.topic] (lit " hello")).
  - vm_compute; reflexivity.
  - vm_compute; reflexivity.
  - vm_compute; reflexivity.
  - vm_compute; reflexivity.
  - apply Forall_cons_2; [|apply Forall_nil_2]. split; vm_compute; reflexivity.
  - intros [=].
  - intros [=].
Defined.

Lemma addSingleMemory_inserts_witness :
  let newContent :=
    terminated NL ([MEMORY_HEADER; []] ++ concat (List.map section [Fixture.facts])
                   ++ entryLines Sample.topic)
    ++ MEMORY_FOOTER ++ [NL] ++ lit " hello" in
  addSingleMemory Fixture.browser Sample.injected Sample.topic
  = (pg ← setInputValue Fixture.browser (page Sample.injected) [0; 1; 0; 0]%nat newContent;
     Returned (true, mkInjector pg
                       (if truthy (blockId Sample.topic)
                        then injectedMemoryIds Sample.injected ∪ {[ blockId Sample.topic ]}
                        else injectedMemoryIds Sample.injected)))
  /\ (addSingleMemory Fixture.browser Sample.injected Sample.topic = TypeError
      <-> inputField (page Sample.injected)
            (Sample.field (formatMemoriesForInjection [Fixture.facts] ++ lit " hello")))
  /\ stripContent MEMORY_HEADER newContent = trim (lit " hello").
Proof.
  refine (addSingleMemory_inserts Fixture.browser Sample.injected chatgpt
            [0; 1; 0; 0]%nat
            (Sample.field (formatMemoriesForInjection [Fixture.facts] ++ lit " hello"))
            [Fixture.facts] Sample.topic (lit " hello")
            _ _ _ _ _ _ _).
  - vm_compute; reflexivity.
  - vm_compute; reflexivity.
  - vm_compute; reflexivity.
  - intros _. apply not_elem_of_empty.
  - intros [=].
  - apply Forall_cons_2; [|apply Forall_cons_2; [|apply Forall_nil_2]];
      split; vm_compute; reflexivity.
  - vm_compute; reflexivity.
Defined.

Lemma addSingleMemory_no_duplicate_witness :
  addSingleMemory Fixture.browser Sample.afterInject Sample.topic
  = Returned (false, Sample.afterInject).
Proof.
  apply (addSingleMemory_no_duplicate Fixture.browser (Sample.typed []) _ [Sample.topic]).
  - reflexivity.
  - left. split; [apply elem_of_cons; by left|]. vm_compute; reflexivity.
Defined.

Lemma setInputValue_plain_roundtrip_witness :
  exists pg',
    setInputValue Fixture.browser (Fixture.chatPage []) [0; 1; 0; 0]%nat
      (lit "one" ++ [13%N; 10%N] ++ lit "two")
    = Returned pg'
    /\ getInputValue Fixture.browser pg' (Some [0; 1; 0; 0]%nat)
       = lit "one" ++ nl ++ lit "two".
Proof.
  destruct (setInputValue_plain_roundtrip Fixture.browser (Fixture.chatPage [])
              [0; 1; 0; 0]%nat (Sample.field []) (lit "one" ++ [13%N; 10%N] ++ lit "two"))
    as [Hta _].
  - vm_compute; reflexivity.
  - vm_compute; reflexivity.
  - vm_compute. discriminate.
  - destruct Hta as (pg' & Hset & Hget & _).
    + vm_compute; reflexivity.
    + apply not_elem_of_nil.
    + exists pg'. split; [exact Hset|exact Hget].
Defined.

Lemma setInputValue_rich_flattens_witness :
  exists pg',
    setInputValue Fixture.browser Sample.richPage [0; 1; 0]%nat
      (lit "one" ++ nl ++ nl ++ lit "two")
    = Returned pg'
    /\ nodeAt (doc pg') [0; 1; 0]%nat
       = Some (Elem Sample.editableAttrs
                 (List.map paragraph (splitLines (lit "one" ++ nl ++ nl ++ lit "two"))))
    /\ getInputValue Fixture.browser pg' (Some [0; 1; 0]%nat)
       = orElse (shownLines (lit "one" ++ nl ++ nl ++ lit "two"))
           (innerText Fixture.browser
              (Elem Sample.editableAttrs
                 (List.map paragraph (splitLines (lit "one" ++ nl ++ nl ++ lit "two"))))).
Proof.
  refine (setInputValue_rich_flattens Fixture.browser Sample.richPage
            [0; 1; 0]%nat Sample.editableAttrs _ _ _ _).
  - vm_compute; reflexivity.
  - split; [vm_compute; reflexivity|]. split; [apply not_elem_of_nil|].
    vm_compute. discriminate.
  - vm_compute. discriminate.
Defined.

Lemma inject_then_clear_witness :
  exists st1 st2,
    injectMemories Fixture.browser (Sample.typed (lit " hello ")) [Fixture.facts]
    = Returned (true, st1)
    /\ getInputValue Fixture.browser (page st1) (Some [0; 1; 0; 0]%nat)
       = formatMemoriesForInjection [Fixture.facts] ++ trim (lit " hello ")
    /\ hasMemoriesInjected Fixture.browser (page st1) = true
    /\ extractUserMessage Fixture.browser (page st1) = trim (lit " hello ")
    /\ clearMemoriesFromInput Fixture.browser st1 = Returned st2
    /\ getInputValue Fixture.browser (page st2) (Some [0; 1; 0; 0]%nat)
       = trim (lit " hello ")
    /\ injectedMemoryIds st2 = ∅.
Proof.
  refine (inject_then_clear Fixture.browser (Sample.typed (lit " hello ")) chatgpt
            [0; 1; 0; 0]%nat (Sample.field (lit " hello ")) [Fixture.facts]
            (lit " hello ") _ _ _ _ _ _ _ _ _ _ _).
  - vm_compute; reflexivity.
  - discriminate.
  - vm_compute; reflexivity.
  - vm_compute; reflexivity.
  - split; [vm_compute; reflexivity|]. split; [vm_compute; reflexivity|].
    apply not_elem_of_nil.
  - vm_compute; reflexivity.
  - vm_compute; reflexivity.
  - intros [=].
  - apply Forall_cons_2; [|apply Forall_nil_2]. split; vm_compute; reflexivity.
  - apply Forall_cons_2; [|apply Forall_nil_2].
    split; apply crFree_literal; vm_compute; reflexivity.
  - intros pg Hpg. vm_compute in Hpg. injection Hpg as <-. vm_compute; reflexivity.
Defined.

Lemma strip_custom_header_witness :
  includes (lit "--- context ---")
    (getContentWithoutMemories Fixture.browser
       (Fixture.chatPage (lit "hi --- context --- rest")) (lit "--- context ---"))
  = false.
Proof.
  refine (proj2 (proj2 (strip_custom_header Fixture.browser
                          (Fixture.chatPage (lit "hi --- context --- rest"))
                          (lit "--- context ---") _ _)
                   [0; 1; 0; 0]%nat (lit "hi --- context --- rest") _ _)).
  - vm_compute. discriminate.
  - vm_compute. discriminate.
  - vm_compute; reflexivity.
  - vm_compute; reflexivity.
Defined.

Lemma strategy_contract_witness :
  (true = false
   /\ Sample.placed = Fixture.engineOf (Fixture.chatPage []) (Some chatgpt))
  \/ (true = true
      /\ controls (edoc Sample.placed)
         = (controls (edoc (Fixture.engineOf (Fixture.chatPage []) (Some chatgpt))) + 1)%nat
      /\ (countDoc isFloating (edoc Sample.placed)
          <= countDoc isFloating
               (edoc (Fixture.engineOf (Fixture.chatPage []) (Some chatgpt))) + 1)%nat
      /\ buttonHost Sample.placed
         = Some (S (nextSerial (Fixture.engineOf (Fixture.chatPage []) (Some chatgpt))))
      /\ timers Sample.placed
         = timers (Fixture.engineOf (Fixture.chatPage []) (Some chatgpt))).
Proof.
  apply (strategy_contract Fixture.browser
           (Fixture.engineOf (Fixture.chatPage []) (Some chatgpt)) Sample.placed true).
  vm_compute; reflexivity.
Defined.

Lemma removeUI_idempotent_witness :
  removeUI (removeUI (Fixture.mountOnce (Fixture.engineOf Fixture.askPage (Some perplexity))))
  = removeUI (Fixture.mountOnce (Fixture.engineOf Fixture.askPage (Some perplexity))).
Proof.
  refine (proj1 (removeUI_idempotent
                   (Fixture.mountOnce (Fixture.engineOf Fixture.askPage (Some perplexity)))
                   _)).
  vm_compute. lia.
Defined.

Lemma unmount_restores_witness :
  buttonHost (removeUI (Fixture.mountOnce
                          (Fixture.engineOf (Fixture.chatPage []) (Some chatgpt))))
  = None.
Proof.
  refine (proj1 (unmount_restores Fixture.browser
                   (Fixture.engineOf (Fixture.chatPage []) (Some chatgpt))
                   (Fixture.mountOnce (Fixture.engineOf (Fixture.chatPage []) (Some chatgpt)))
                   _ _ _ _ _)).
  - vm_compute; reflexivity.
  - reflexivity.
  - vm_compute; reflexivity.
  - vm_compute; reflexivity.
  - vm_compute; reflexivity.
Defined.

Lemma listeners_released_witness :
  effects (epage (Fixture.mountOnce (Fixture.engineOf Fixture.askPage (Some perplexity))))
  = effects (epage (Fixture.engineOf Fixture.askPage (Some perplexity)))
  \/ (platform (Fixture.engineOf Fixture.askPage (Some perplexity)) = Some perplexity
      /\ effects (epage (Fixture.mountOnce
                           (Fixture.engineOf Fixture.askPage (Some perplexity))))
         = effects (epage (Fixture.engineOf Fixture.askPage (Some perplexity)))
           ++ listenersAdded
                (Some (nextSerial (Fixture.engineOf Fixture.askPage (Some perplexity))))
      /\ exists more,
           effects (epage (removeUI (Fixture.mountOnce
                                       (Fixture.engineOf Fixture.askPage (Some perplexity)))))
           = effects (epage (Fixture.mountOnce
                               (Fixture.engineOf Fixture.askPage (Some perplexity))))
             ++ listenersRemoved
                  (Some (nextSerial (Fixture.engineOf Fixture.askPage (Some perplexity))))
             ++ more).
Proof.
  apply (listeners_released Fixture.browser
           (Fixture.engineOf Fixture.askPage (Some perplexity))
           (Fixture.mountOnce (Fixture.engineOf Fixture.askPage (Some perplexity)))).
  - vm_compute; reflexivity.
  - reflexivity.
  - vm_compute; reflexivity.
  - vm_compute; reflexivity.
Defined.

Lemma handleSync_no_repeat_witness :
  exists r',
    Background.handleSync
      (snd (Background.handleSync Sample.idle 5000 Sample.settings Sample.payload None))
      9000 Sample.settings Sample.payload None
    = (r', [],
       snd (Background.handleSync Sample.idle 5000 Sample.settings Sample.payload None))
    /\ Background.success r' = false.
Proof.
  refine (BackgroundMore.handleSync_no_repeat Sample.idle _ 5000 Sample.settings
            Sample.payload None (Background.mkResponse true None) _ _ _
            9000 Sample.settings Sample.payload None _).
  - vm_compute; reflexivity.
  - reflexivity.
  - reflexivity.
Defined.

Lemma handleSync_failed_call_witness :
  fst (fst (Background.handleSync Sample.idle 5000 Sample.settings Sample.payload
              (Some (lit "Capture failed: 500 - oops"))))
  = Background.mkResponse false (Some (lit "Capture failed: 500 - oops")).
Proof.
  refine (proj1 (BackgroundMore.handleSync_failed_call Sample.idle _ 5000 Sample.settings
                   Sample.payload (lit "Capture failed: 500 - oops") _ _ _ _)).
  - vm_compute; reflexivity.
  - vm_compute. discriminate.
Defined.
